(** * Appointment assignment engine (Program_Final__LuxuryBath.py)

    A shallow embedding of the assignment core of the program: the drive-time
    cache ([get_drive_time]), the window filter, the greedy matching pass, the
    double-booking resolution and the reassignment pass
    ([assign_to_closest_rep]), the roster update ([update_sales_reps_zip]) and
    the three-window driver ([run_workflow], [main_workflow]); and of the
    user's side of it: the roster parser ([parse_input_to_sales_reps]), the
    roster editor ([modify_sales_reps]) and the submit handler ([on_submit]).

    Modelling choices.
    - A [datetime] is a number of seconds on the time line, [timedelta] adds
      seconds.  The importer writes time stamps with whole seconds.
    - A Python float holding minutes is an exact rational ([Qc], canonical
      rationals, so that [==] on floats is Leibniz equality), extended with
      [Inf] for [float('inf')].
    - The Google Maps client, [datetime.strptime], the geocoder and the
      interactive roster editor are parameters.  The distance-matrix oracle
      may answer differently on each call: it is indexed by the number of
      calls made before.
    - Dictionaries whose iteration order matters ([sales_reps],
      [rep_assignments]) are association lists in insertion order; the other
      dictionaries are [gmap]s.
    - A Python exception is [None] in the [option] monad.
    - The engine is given twice.  The first reading works on values: an
      appointment is the content of its dictionary, the distance-matrix call
      answers with a status, and a [datetime] is unbounded.  The second
      ([Objects]) works on the caller's dictionaries themselves, kept in a
      store and referred to by position; there the client may also raise or
      answer without a duration, and adding a [timedelta] past
      [datetime.max] raises.
    - Text typed by the user is a [string] of code points below 256, with
      [strip], [lower], [split] and [splitlines] written out for them.  The
      dialogs of the editor are answered from a list of answers; the message
      boxes shown are collected in a list. *)

From stdpp Require Import base numbers strings list gmap.
From Stdlib Require Import QArith Qcanon Ascii Sorted.

Close Scope Q_scope.
Close Scope Qc_scope.
Open Scope string_scope.
Open Scope list_scope.

(** ** Data model *)

Abbreviation datetime := Z (only parsing).

(** [timedelta(hours=h, minutes=m)], in seconds. *)
Definition timedelta (hours minutes : Z) : Z := (hours * 3600 + minutes * 60)%Z.

(** The value stored under ["apptdate"]: a string as the importer writes it,
    or a [datetime] object. *)
Inductive apptdate_value :=
  | DateStr (s : string)
  | DateObj (t : datetime).

(** An appointment dictionary; [D] is the type of its ["apptdate"] entry. *)
Record appointment {D : Type} := Appointment {
  custnumber : Z;
  apptdate : D;
  Zip : string;
  productid : string;
  dsp_id : string
}.
Arguments appointment : clear implicits.
Arguments Appointment {D} _ _ _ _ _.

Definition set_apptdate {D E : Type} (a : appointment D) (d : E) : appointment E :=
  {| custnumber := custnumber a; apptdate := d; Zip := Zip a;
     productid := productid a; dsp_id := dsp_id a |}.

(** An appointment dictionary whose ["apptdate"] holds the [datetime]. *)
Definition as_stored (a : appointment datetime) : appointment apptdate_value :=
  set_apptdate a (DateObj (apptdate a)).

(** The details dictionary of a sales representative. *)
Record rep_details := RepDetails {
  curr_zip : string;
  scope : list string
}.

(** [sales_reps]: representative name to details, in insertion order. *)
Definition roster := list (string * rep_details).

(** A Python float: a finite number of minutes, or [float('inf')]. *)
Inductive pyfloat :=
  | Fin (q : Qc)
  | Inf.

(** [x < y] on floats. *)
Definition float_lt (x y : pyfloat) : bool :=
  match x, y with
  | Fin a, Fin b => bool_decide (a < b)%Qc
  | Fin _, Inf => true
  | Inf, _ => false
  end.

Arguments float_lt : simpl never.

(** An entry of [appointment_assignments]. *)
Record assignment := Assignment {
  appt : appointment datetime;
  assigned_to : string;
  drive_time : pyfloat
}.

Global Instance apptdate_value_eq_dec : EqDecision apptdate_value.
Proof. solve_decision. Defined.
Global Instance appointment_eq_dec {D} `{EqDecision D} : EqDecision (appointment D).
Proof. solve_decision. Defined.
Global Instance rep_details_eq_dec : EqDecision rep_details.
Proof. solve_decision. Defined.
Global Instance pyfloat_eq_dec : EqDecision pyfloat.
Proof. solve_decision. Defined.
Global Instance assignment_eq_dec : EqDecision assignment.
Proof. solve_decision. Defined.

(** ** The outside world *)

(** What [gmaps.distance_matrix] answers, as far as the program reads it: the
    top-level status and, when it is ["OK"], the duration value in seconds. *)
Inductive distance_matrix_result :=
  | StatusOK (duration_value : Z)
  | StatusNotOK.

(** Lines the program prints as diagnostics. *)
Inductive diagnostic :=
  | ApiCallFailed (zip1 zip2 : string)
  | NoEligibleRep (cust : Z) (zip : string)
  | CouldNotAssign (cust : Z) (zip : string).

(** The part of the world the engine acts on: the oracle calls issued so far
    (oldest first) and the diagnostics printed so far. *)
Record world := World {
  api_calls : list (string * string);
  printed : list diagnostic
}.

(** The state [get_drive_time] closes over: the cache dictionary of the
    enclosing call and the world. *)
Record env := Env {
  drive_time_cache : gmap (string * string) Qc;
  outside : world
}.

Definition print (d : diagnostic) (e : env) : env :=
  {| drive_time_cache := drive_time_cache e;
     outside := {| api_calls := api_calls (outside e);
                   printed := printed (outside e) ++ [d] |} |}.

(** ** Sorting and list helpers *)

(** [sorted(l, key=key)]: Python's sort is stable and compares keys with [<]
    only, which determines its result; insertion sort computes it. *)
Section sorted.
Context {A K : Type} (lt : K → K → bool) (key : A → K).

Fixpoint sorted_insert (x : A) (l : list A) : list A :=
  match l with
  | [] => [x]
  | y :: l' => if lt (key y) (key x) then y :: sorted_insert x l' else x :: y :: l'
  end.

Fixpoint sorted (l : list A) : list A :=
  match l with
  | [] => []
  | x :: l' => sorted_insert x (sorted l')
  end.
End sorted.

(** [l.remove(x)]: drops the first element equal to [x]; [ValueError] when
    there is none. *)
Fixpoint list_remove `{EqDecision A} (x : A) (l : list A) : option (list A) :=
  match l with
  | [] => None
  | y :: l' => if decide (y = x) then Some l' else (y ::.) <$> list_remove x l'
  end.

(** ** The drive-time cache *)

(** [tuple(sorted([zip1, zip2]))] *)
Definition cache_key (zip1 zip2 : string) : string * string :=
  if String.ltb zip2 zip1 then (zip2, zip1) else (zip1, zip2).

(** [value / 60]: seconds to minutes. *)
Definition minutes_of (duration_value : Z) : Qc :=
  (Q2Qc (inject_Z duration_value) / Q2Qc (inject_Z 60))%Qc.

Section engine.
(** [gmaps.distance_matrix(origins, destinations)]; the first argument is
    the number of calls issued before this one. *)
Variable oracle : nat → string → string → distance_matrix_result.
(** [datetime.strptime(s, "%m/%d/%Y %H:%M:%S")]; [None] is [ValueError]. *)
Variable strptime : string → option datetime.

Definition get_drive_time (zip1 zip2 : string) (e : env) : option Qc * env :=
  let key := cache_key zip1 zip2 in
  match drive_time_cache e !! key with
  | Some t => (Some t, e)
  | None =>
      let w := outside e in
      let calls := api_calls w ++ [(zip1, zip2)] in
      match oracle (length (api_calls w)) zip1 zip2 with
      | StatusOK v =>
          let t := minutes_of v in
          (Some t, {| drive_time_cache := <[key := t]> (drive_time_cache e);
                      outside := {| api_calls := calls; printed := printed w |} |})
      | StatusNotOK =>
          (None, {| drive_time_cache := drive_time_cache e;
                    outside := {| api_calls := calls;
                                  printed := printed w ++ [ApiCallFailed zip1 zip2] |} |})
      end
  end.

(** ** Matching *)

(** One turn of [for rep, details in sales_reps.items()].  [idle] is the
    extra guard of the reassignment pass ([not rep_appointments[rep]]); the
    initial pass has none. *)
Definition closest_rep_step (appt_zip product_id : string) (idle : string → bool)
    (acc : option string * pyfloat * env) (item : string * rep_details)
    : option string * pyfloat * env :=
  let '(closest_rep, min_drive_time, e) := acc in
  let '(rep, details) := item in
  if bool_decide (product_id ∈ scope details) && idle rep then
    match get_drive_time appt_zip (curr_zip details) e with
    | (Some t, e') =>
        if float_lt (Fin t) min_drive_time
        then (Some rep, Fin t, e')
        else (closest_rep, min_drive_time, e')
    | (None, e') => (closest_rep, min_drive_time, e')
    end
  else acc.

Fixpoint closest_rep_loop (appt_zip product_id : string) (idle : string → bool)
    (acc : option string * pyfloat * env) (items : roster)
    : option string * pyfloat * env :=
  match items with
  | [] => acc
  | item :: items' =>
      closest_rep_loop appt_zip product_id idle
        (closest_rep_step appt_zip product_id idle acc item) items'
  end.

(** The search for one appointment, from [closest_rep = None] and
    [min_drive_time = float('inf')]. *)
Definition find_closest_rep (a : appointment datetime) (idle : string → bool)
    (sales_reps : roster) (e : env) : option string * pyfloat * env :=
  closest_rep_loop (Zip a) (productid a) idle (None, Inf, e) sales_reps.

(** [if closest_rep:] a name passes when it is not [None] and not empty. *)
Definition truthy (closest_rep : option string) : option string :=
  match closest_rep with
  | Some rep => if decide (rep = "") then None else Some rep
  | None => None
  end.

(** The mutable locals of [assign_to_closest_rep]. *)
Record locals := Locals {
  rep_appointments : gmap string (list (appointment datetime));
  appointment_assignments : list assignment;
  closure : env
}.

(** [rep_appointments[rep]].  Every name looked up is a key of
    [sales_reps], and the dictionary is created with all of them. *)
Definition appointments_of (ra : gmap string (list (appointment datetime)))
    (rep : string) : list (appointment datetime) := default [] (ra !! rep).

(** The body shared by "Step 1" and "Step 3": search, then record the
    assignment or print the diagnostic [unmatched]. *)
Definition match_appointment (sales_reps : roster) (idle : string → bool)
    (unmatched : Z → string → diagnostic) (a : appointment datetime)
    (s : locals) : locals :=
  let '(closest_rep, min_drive_time, e) :=
    find_closest_rep a idle sales_reps (closure s) in
  match truthy closest_rep with
  | Some rep =>
      {| rep_appointments :=
           <[rep := appointments_of (rep_appointments s) rep ++ [a]]> (rep_appointments s);
         appointment_assignments :=
           appointment_assignments s ++
             [{| appt := a; assigned_to := rep; drive_time := min_drive_time |}];
         closure := e |}
  | None =>
      {| rep_appointments := rep_appointments s;
         appointment_assignments := appointment_assignments s;
         closure := print (unmatched (custnumber a) (Zip a)) e |}
  end.

(** Step 1: initial assignment of appointments by closest rep. *)
Fixpoint initial_pass (sales_reps : roster)
    (filtered_appointments : list (appointment datetime)) (s : locals) : locals :=
  match filtered_appointments with
  | [] => s
  | a :: rest =>
      initial_pass sales_reps rest
        (match_appointment sales_reps (λ _, true) NoEligibleRep a s)
  end.

(** Step 2, inner loop: [for extra_appt in sorted_appts]. *)
Fixpoint remove_extras (sorted_appts : list assignment)
    (unassigned : list (appointment datetime)) (assignments : list assignment)
    : option (list (appointment datetime) * list assignment) :=
  match sorted_appts with
  | [] => Some (unassigned, assignments)
  | extra_appt :: rest =>
      assignments' ← list_remove extra_appt assignments;
      remove_extras rest (unassigned ++ [appt extra_appt]) assignments'
  end.

(** Step 2: [for rep, assigned_appts in rep_appointments.items()]; [reps]
    are the keys in insertion order.  [sorted_appts.pop(0)] raises
    [IndexError] on an empty list. *)
Fixpoint resolve_double_booking (reps : list string)
    (ra : gmap string (list (appointment datetime)))
    (unassigned : list (appointment datetime)) (assignments : list assignment)
    : option (list (appointment datetime) * list assignment) :=
  match reps with
  | [] => Some (unassigned, assignments)
  | rep :: reps' =>
      if decide (1 < length (appointments_of ra rep))%nat then
        match sorted float_lt drive_time
                (filter (λ x, assigned_to x = rep) assignments) with
        | [] => None
        | kept_appointment :: sorted_appts =>
            '(unassigned', assignments') ←
               remove_extras sorted_appts unassigned assignments;
            resolve_double_booking reps' ra unassigned' assignments'
        end
      else resolve_double_booking reps' ra unassigned assignments
  end.

(** Step 3: reassign the displaced appointments to reps that hold none. *)
Fixpoint reassign_pass (sales_reps : roster)
    (unassigned_appointments : list (appointment datetime)) (s : locals) : locals :=
  match unassigned_appointments with
  | [] => s
  | a :: rest =>
      reassign_pass sales_reps rest
        (match_appointment sales_reps
           (λ rep, bool_decide (appointments_of (rep_appointments s) rep = []))
           CouldNotAssign a s)
  end.

(** The conversion loop over [appointments]: a string time stamp is
    replaced, in the dictionary itself, by the parsed [datetime]. *)
Definition convert_apptdate (a : appointment apptdate_value)
    : option (appointment datetime) :=
  match apptdate a with
  | DateStr s => set_apptdate a <$> strptime s
  | DateObj t => Some (set_apptdate a t)
  end.

(** [time_window_start <= appt["apptdate"] <= time_window_end] *)
Definition in_window (time_window_start time_window_end : datetime)
    (a : appointment datetime) : Prop :=
  (time_window_start ≤ apptdate a ∧ apptdate a ≤ time_window_end)%Z.

Global Instance in_window_dec s e a : Decision (in_window s e a).
Proof. unfold in_window. apply _. Defined.

Definition filter_window (time_window_start time_window_end : datetime)
    (appointments : list (appointment datetime)) : list (appointment datetime) :=
  filter (in_window time_window_start time_window_end) appointments.

(** What a call leaves behind: the returned list, the caller's appointment
    dictionaries as the call left them, and the world. *)
Record outcome := Outcome {
  returned : list assignment;
  appointments_after : list (appointment apptdate_value);
  world_after : world
}.

Definition assign_to_closest_rep (appointments : list (appointment apptdate_value))
    (sales_reps : roster) (time_window_start time_window_end : datetime)
    (w : world) : option outcome :=
  let s0 := {| rep_appointments := list_to_map ((λ item, (item.1, [])) <$> sales_reps);
               appointment_assignments := [];
               closure := {| drive_time_cache := ∅; outside := w |} |} in
  converted ← mapM convert_apptdate appointments;
  let filtered_appointments :=
    filter_window time_window_start time_window_end converted in
  let s1 := initial_pass sales_reps filtered_appointments s0 in
  '(unassigned_appointments, assignments) ←
     resolve_double_booking sales_reps.*1 (rep_appointments s1) []
       (appointment_assignments s1);
  let s3 := reassign_pass sales_reps unassigned_appointments
              {| rep_appointments := rep_appointments s1;
                 appointment_assignments := assignments;
                 closure := closure s1 |} in
  Some {| returned := appointment_assignments s3;
          appointments_after := as_stored <$> converted;
          world_after := outside (closure s3) |}.

(** ** Roster update *)

(** Appending to [rep_assignments[rep]], creating the entry on first use;
    the dictionary keeps its keys in order of first use. *)
Fixpoint group_append (rep : string) (a : appointment datetime)
    (rep_assignments : list (string * list (appointment datetime)))
    : list (string * list (appointment datetime)) :=
  match rep_assignments with
  | [] => [(rep, [a])]
  | (r, l) :: rest =>
      if decide (r = rep) then (r, l ++ [a]) :: rest
      else (r, l) :: group_append rep a rest
  end.

Fixpoint group_by_rep (assignments : list assignment)
    (rep_assignments : list (string * list (appointment datetime)))
    : list (string * list (appointment datetime)) :=
  match assignments with
  | [] => rep_assignments
  | x :: rest => group_by_rep rest (group_append (assigned_to x) (appt x) rep_assignments)
  end.

(** [sales_reps[rep]["curr_zip"] = zip]; [KeyError] when [rep] is absent. *)
Fixpoint set_curr_zip (rep zip : string) (sales_reps : roster) : option roster :=
  match sales_reps with
  | [] => None
  | (r, details) :: rest =>
      if decide (r = rep)
      then Some ((r, {| curr_zip := zip; scope := scope details |}) :: rest)
      else ((r, details) ::.) <$> set_curr_zip rep zip rest
  end.

(** [for rep, assignments in rep_assignments.items()];
    [sorted_assignments[-1]] raises [IndexError] on an empty list. *)
Fixpoint update_loop (rep_assignments : list (string * list (appointment datetime)))
    (sales_reps : roster) : option roster :=
  match rep_assignments with
  | [] => Some sales_reps
  | (rep, assignments) :: rest =>
      last_appt ← last (sorted Z.ltb apptdate assignments);
      sales_reps' ← set_curr_zip rep (Zip last_appt) sales_reps;
      update_loop rest sales_reps'
  end.

Definition update_sales_reps_zip (assignments : list assignment)
    (sales_reps : roster) : option roster :=
  update_loop (group_by_rep assignments []) sales_reps.

(** ** Windows *)

(** The geocoder behind [zip_to_city]. *)
Variable zip_to_city : string → string.
(** The interactive roster editor, as a function of what it is called
    with: roster, window number, window bounds. *)
Variable modify_sales_reps : roster → nat → datetime → datetime → roster.

(** A row of [all_results].  The ["Date"] and ["Time"] cells are two
    renderings of the appointment's [apptdate], kept here as the value. *)
Inductive result_row :=
  | WindowTitle (window_number : nat)
  | ResultRow (customer_number : Z) (appt_date : datetime) (city product : string)
      (assigned_rep : string) (drive_time_minutes : pyfloat)
  | BlankRow.

Definition row_of (x : assignment) : result_row :=
  ResultRow (custnumber (appt x)) (apptdate (appt x)) (zip_to_city (Zip (appt x)))
    (productid (appt x)) (assigned_to x) (drive_time x).

(** [process_time_window] adds only console output to
    [assign_to_closest_rep]. *)
Definition process_time_window := assign_to_closest_rep.

Record window_result := WindowResult {
  roster_after : roster;
  results : list result_row;
  store_after : list (appointment apptdate_value);
  world_then : world
}.

Definition run_workflow (appointments : list (appointment apptdate_value))
    (sales_reps : roster) (time_window_start time_window_end : datetime)
    (window_number : nat) (allow_modify_reps : bool) (w : world)
    : option window_result :=
  out ← process_time_window appointments sales_reps time_window_start time_window_end w;
  sales_reps1 ← update_sales_reps_zip (returned out) sales_reps;
  let sales_reps2 :=
    if allow_modify_reps
    then modify_sales_reps sales_reps1 window_number time_window_start time_window_end
    else sales_reps1 in
  Some {| roster_after := sales_reps2;
          results := row_of <$> returned out;
          store_after := appointments_after out;
          world_then := world_after out |}.

(** [min(...)] and [max(...)] over the appointment times; [ValueError] on
    an empty sequence. *)
Definition min_time (l : list datetime) : option datetime :=
  match l with
  | [] => None
  | t :: l' => Some (foldl Z.min t l')
  end.

Definition max_time (l : list datetime) : option datetime :=
  match l with
  | [] => None
  | t :: l' => Some (foldl Z.max t l')
  end.

Definition time_windows (earliest_time last_time : datetime)
    : list (nat * datetime * datetime * bool) :=
  [ (1%nat, earliest_time, (earliest_time + timedelta 2 0)%Z, true);
    (2%nat, (earliest_time + timedelta 2 1)%Z, (earliest_time + timedelta 5 0)%Z, true);
    (3%nat, (earliest_time + timedelta 5 1)%Z, last_time, false) ].

(** [for window_number, start, end, allow_modify_reps in time_windows] *)
Fixpoint run_windows (windows : list (nat * datetime * datetime * bool))
    (appointments : list (appointment apptdate_value)) (sales_reps : roster)
    (all_results : list result_row) (w : world)
    : option (list result_row * roster * world) :=
  match windows with
  | [] => Some (all_results, sales_reps, w)
  | (window_number, start, end_, allow_modify_reps) :: rest =>
      r ← run_workflow appointments sales_reps start end_ window_number
            allow_modify_reps w;
      run_windows rest (store_after r) (roster_after r)
        (all_results ++ [WindowTitle window_number] ++ results r ++ [BlankRow])
        (world_then r)
  end.

(** [main_workflow] up to the export: the rows handed to the spreadsheet
    writer, the roster and the world.  Any exception ends the run without
    an export. *)
Definition main_workflow (appointments : list (appointment apptdate_value))
    (sales_reps : roster) (w : world) : option (list result_row * roster * world) :=
  converted ← mapM convert_apptdate appointments;
  earliest_time ← min_time (apptdate <$> converted);
  last_time ← max_time (apptdate <$> converted);
  run_windows (time_windows earliest_time last_time)
    (as_stored <$> converted) sales_reps [] w.
End engine.

Arguments get_drive_time : simpl never.
Arguments closest_rep_step : simpl never.
Arguments find_closest_rep : simpl never.
Arguments match_appointment : simpl never.
Arguments time_windows : simpl never.

(** ** User input

    Text typed by the user.  A [str] is a [string] whose characters are the
    code points below 256; the [str] methods the program calls are written
    out for them. *)

Definition code (c : ascii) : N := Ascii.N_of_ascii c.

(** [c.isspace()] *)
Definition isspace (c : ascii) : bool :=
  bool_decide (9 ≤ code c ≤ 13 ∨ 28 ≤ code c ≤ 32 ∨ code c = 133 ∨ code c = 160)%N.

(** The characters at which [str.splitlines] breaks a line. *)
Definition is_line_boundary (c : ascii) : bool :=
  bool_decide (10 ≤ code c ≤ 13 ∨ 28 ≤ code c ≤ 30 ∨ code c = 133)%N.

Fixpoint lstrip (s : string) : string :=
  match s with
  | EmptyString => EmptyString
  | String c s' => if isspace c then lstrip s' else s
  end.

Fixpoint rstrip (s : string) : string :=
  match s with
  | EmptyString => EmptyString
  | String c s' =>
      match rstrip s' with
      | EmptyString => if isspace c then EmptyString else String c EmptyString
      | r => String c r
      end
  end.

(** [s.strip()] *)
Definition strip (s : string) : string := rstrip (lstrip s).

Definition lower_char (c : ascii) : ascii :=
  if bool_decide (65 ≤ code c ≤ 90 ∨ 192 ≤ code c ≤ 214 ∨ 216 ≤ code c ≤ 222)%N
  then Ascii.ascii_of_N (code c + 32) else c.

(** [s.lower()] *)
Fixpoint lower (s : string) : string :=
  match s with
  | EmptyString => EmptyString
  | String c s' => String (lower_char c) (lower s')
  end.

(** [s.split(sep)] for a separator of one character: the fields between
    the separators, one more than there are separators. *)
Fixpoint str_split (sep : ascii) (s : string) : list string :=
  match s with
  | EmptyString => [EmptyString]
  | String c s' =>
      if decide (c = sep) then EmptyString :: str_split sep s'
      else match str_split sep s' with
           | [] => [String c EmptyString]
           | field :: fields => String c field :: fields
           end
  end.

(** [s.splitlines()]: a carriage return followed by a line feed is one
    boundary, and a boundary at the very end opens no further line. *)
Fixpoint splitlines (s : string) : list string :=
  match s with
  | EmptyString => []
  | String c s' =>
      if is_line_boundary c then
        match s' with
        | String c' s'' =>
            if decide (c = "013"%char ∧ c' = "010"%char)
            then EmptyString :: splitlines s''
            else EmptyString :: splitlines s'
        | EmptyString => [EmptyString]
        end
      else match splitlines s' with
           | [] => [String c EmptyString]
           | line :: lines => String c line :: lines
           end
  end.

(** A [dict] with [str] keys, kept as an association list in insertion
    order: [d[k] = v] and [del d[k]]. *)
Fixpoint dict_set {V} (k : string) (v : V) (d : list (string * V)) : list (string * V) :=
  match d with
  | [] => [(k, v)]
  | (k', v') :: d' =>
      if decide (k' = k) then (k', v) :: d' else (k', v') :: dict_set k v d'
  end.

Fixpoint dict_del {V} (k : string) (d : list (string * V)) : list (string * V) :=
  match d with
  | [] => []
  | (k', v') :: d' => if decide (k' = k) then d' else (k', v') :: dict_del k d'
  end.

(** The body of the loop of [parse_input_to_sales_reps] for one line;
    [None] is the [ValueError] it raises. *)
Definition parse_line (line : string) : option (string * rep_details) :=
  match strip <$> str_split ","%char line with
  | name :: zip_code :: scope_field :: _ =>
      Some (name, {| curr_zip := zip_code;
                     scope := strip <$> str_split ";"%char (strip scope_field) |})
  | _ => None
  end.

Fixpoint parse_lines (lines : list string) (sales_reps : roster) : option roster :=
  match lines with
  | [] => Some sales_reps
  | line :: lines' =>
      item ← parse_line line;
      parse_lines lines' (dict_set item.1 item.2 sales_reps)
  end.

Definition parse_input_to_sales_reps (input_text : string) : option roster :=
  parse_lines (splitlines input_text) [].

(** The message boxes the program shows. *)
Inductive message :=
  | ShowInfoAdded (name : string)
  | ShowWarningExists (name : string)
  | ShowErrorAdding
  | ShowWarningNoReps
  | ShowInfoRemoved (name : string)
  | ShowWarningNotFound (name : string)
  | ShowErrorInvalidInput
  | ShowErrorSalesRepsRequired
  | ShowErrorUploadAppointments
  | ShowInfoSuccess
  | ShowErrorOccurred.

(** [for name, details in new_reps.items()] of [modify_sales_reps] *)
Fixpoint add_reps (new_reps sales_reps : roster) (shown : list message)
    : roster * list message :=
  match new_reps with
  | [] => (sales_reps, shown)
  | (name, details) :: new_reps' =>
      add_reps new_reps' (dict_set name details sales_reps)
        (shown ++ [if decide (name ∈ sales_reps.*1)
                   then ShowWarningExists name else ShowInfoAdded name])
  end.

(** [for rep in remove_reps] of [modify_sales_reps] *)
Fixpoint remove_reps (names : list string) (sales_reps : roster) (shown : list message)
    : roster * list message :=
  match names with
  | [] => (sales_reps, shown)
  | rep :: names' =>
      if decide (rep ∈ sales_reps.*1)
      then remove_reps names' (dict_del rep sales_reps) (shown ++ [ShowInfoRemoved rep])
      else remove_reps names' sales_reps (shown ++ [ShowWarningNotFound rep])
  end.

(** The loop of [modify_sales_reps], fed with the user's answers to the
    dialogs in the order they come up ([None] is a cancelled dialog).  It
    returns the roster and the message boxes shown; it is [None] when the
    answers end before the user has answered ["no"]: the loop goes on
    asking. *)
Fixpoint modify_sales_reps_dialog (answers : list (option string)) (sales_reps : roster)
    (shown : list message) : option (roster * list message) :=
  match answers with
  | [] => None
  | action :: answers1 =>
      if decide (action = Some "no") then Some (sales_reps, shown)
      else
        match answers1 with
        | [] => None
        | (None | Some EmptyString) :: answers2 =>
            modify_sales_reps_dialog answers2 sales_reps shown
        | Some user_action :: answers2 =>
            if decide (lower (strip user_action) = "add") then
              match answers2 with
              | [] => None
              | (None | Some EmptyString) :: answers3 =>
                  modify_sales_reps_dialog answers3 sales_reps shown
              | Some new_reps_input :: answers3 =>
                  match parse_input_to_sales_reps new_reps_input with
                  | Some new_reps =>
                      let '(sales_reps', shown') := add_reps new_reps sales_reps shown in
                      modify_sales_reps_dialog answers3 sales_reps' shown'
                  | None =>
                      modify_sales_reps_dialog answers3 sales_reps
                        (shown ++ [ShowErrorAdding])
                  end
              end
            else if decide (lower (strip user_action) = "remove") then
              match sales_reps with
              | [] =>
                  modify_sales_reps_dialog answers2 sales_reps
                    (shown ++ [ShowWarningNoReps])
              | _ :: _ =>
                  match answers2 with
                  | [] => None
                  | (None | Some EmptyString) :: answers3 =>
                      modify_sales_reps_dialog answers3 sales_reps shown
                  | Some remove_reps_input :: answers3 =>
                      let '(sales_reps', shown') :=
                        remove_reps (strip <$> str_split ","%char remove_reps_input)
                          sales_reps shown in
                      modify_sales_reps_dialog answers3 sales_reps' shown'
                  end
              end
            else
              modify_sales_reps_dialog answers2 sales_reps
                (shown ++ [ShowErrorInvalidInput])
        end
  end.

Section gui.
Variable oracle : nat → string → string → distance_matrix_result.
Variable strptime : string → option datetime.
Variable zip_to_city : string → string.
Variable modify_sales_reps : roster → nat → datetime → datetime → roster.

(** [on_submit]: [sales_reps_text] is the content of the text field,
    [appointments] the global of that name, [None] while no load has defined
    it.  It gives the message box shown, and what [main_workflow] handed to
    the export, if it got there: [main_workflow] catches its own
    exceptions. *)
Definition on_submit (sales_reps_text : string)
    (appointments : option (list (appointment apptdate_value))) (w : world)
    : message * option (list result_row * roster * world) :=
  let sales_reps_input := strip sales_reps_text in
  if decide (sales_reps_input = "") then (ShowErrorSalesRepsRequired, None)
  else
    match appointments with
    | None => (ShowErrorOccurred, None)
    | Some [] => (ShowErrorUploadAppointments, None)
    | Some appointments =>
        match parse_input_to_sales_reps sales_reps_input with
        | None => (ShowErrorOccurred, None)
        | Some sales_reps =>
            (ShowInfoSuccess,
             main_workflow oracle strptime zip_to_city modify_sales_reps
               appointments sales_reps w)
        end
    end.
End gui.

(** ** The engine on the caller's objects

    The engine above takes of the oracle what the program handles, a status
    and with ["OK"] a duration, and takes the appointments as values.  Here
    the same code is embedded with what that leaves out.
    - A call of the client may raise, and an answer whose status is ["OK"]
      may lack the duration of its element; the exception then leaves
      [get_drive_time], and nothing below [main_workflow] catches it.
    - The appointments are the caller's dictionaries.  A reference is the
      position of a dictionary in the caller's list; the dictionaries are
      distinct objects, as the importer creates them.  Every read of an
      entry goes through the store, and every function hands on the store
      as it leaves it.
    - A [datetime] has an upper end, [datetime.max]; adding a [timedelta]
      beyond it raises [OverflowError]. *)

Module Objects.

(** What a call of [gmaps.distance_matrix] comes to: an answer, of which
    the program reads whether the top-level status is ["OK"] and then the
    duration value of the one element, absent when the element's own status
    is not ["OK"]; or an exception of the client. *)
Inductive client_result :=
  | Answer (status_ok : bool) (duration_value : option Z)
  | ClientError.

Abbreviation ref := nat (only parsing).

(** An entry of [appointment_assignments]; ["appointment"] holds the
    dictionary itself, that is a reference. *)
Record assignment := Assignment {
  appt : ref;
  assigned_to : string;
  drive_time : pyfloat
}.

(** The mutable state of [assign_to_closest_rep]: the caller's
    dictionaries and the locals. *)
Record locals := Locals {
  appointments : list (appointment apptdate_value);
  rep_appointments : gmap string (list ref);
  appointment_assignments : list assignment;
  closure : env
}.

Record outcome := Outcome {
  returned : list assignment;
  appointments_after : list (appointment apptdate_value);
  world_after : world
}.

Record window_result := WindowResult {
  roster_after : roster;
  results : list result_row;
  store_after : list (appointment apptdate_value);
  world_then : world
}.

(** Reading a [datetime] out of an ["apptdate"] entry; on a string the
    comparison with a [datetime], or [strftime], raises. *)
Definition as_datetime (d : apptdate_value) : option datetime :=
  match d with
  | DateObj t => Some t
  | DateStr _ => None
  end.

(** [x == y] on two entries: dictionaries are compared by their content. *)
Definition same_entry (store : list (appointment apptdate_value))
    (x y : assignment) : bool :=
  bool_decide (store !! appt x = store !! appt y
               ∧ assigned_to x = assigned_to y ∧ drive_time x = drive_time y).

(** [l.remove(x)], with the comparison [eqb]. *)
Fixpoint list_remove_by {A} (eqb : A → A → bool) (x : A) (l : list A) : option (list A) :=
  match l with
  | [] => None
  | y :: l' => if eqb y x then Some l' else (y ::.) <$> list_remove_by eqb x l'
  end.

Definition appointments_of (ra : gmap string (list ref)) (rep : string) : list ref :=
  default [] (ra !! rep).

Section engine.
Variable client : nat → string → string → client_result.
Variable strptime : string → option datetime.
(** [datetime.max], on the time line of [strptime]. *)
Variable datetime_max : datetime.
Variable zip_to_city : string → string.
Variable modify_sales_reps : roster → nat → datetime → datetime → roster.

(** The outer [None] is an exception that leaves the function. *)
Definition get_drive_time (zip1 zip2 : string) (e : env) : option (option Qc * env) :=
  let key := cache_key zip1 zip2 in
  match drive_time_cache e !! key with
  | Some t => Some (Some t, e)
  | None =>
      let w := outside e in
      let calls := api_calls w ++ [(zip1, zip2)] in
      match client (length (api_calls w)) zip1 zip2 with
      | ClientError => None
      | Answer true (Some v) =>
          let t := minutes_of v in
          Some (Some t, {| drive_time_cache := <[key := t]> (drive_time_cache e);
                           outside := {| api_calls := calls; printed := printed w |} |})
      | Answer true None => None
      | Answer false _ =>
          Some (None, {| drive_time_cache := drive_time_cache e;
                         outside := {| api_calls := calls;
                                       printed := printed w ++ [ApiCallFailed zip1 zip2] |} |})
      end
  end.

Definition closest_rep_step (appt_zip product_id : string) (idle : string → bool)
    (acc : option string * pyfloat * env) (item : string * rep_details)
    : option (option string * pyfloat * env) :=
  let '(closest_rep, min_drive_time, e) := acc in
  let '(rep, details) := item in
  if bool_decide (product_id ∈ scope details) && idle rep then
    '(found, e') ← get_drive_time appt_zip (curr_zip details) e;
    Some match found with
         | Some t =>
             if float_lt (Fin t) min_drive_time
             then (Some rep, Fin t, e')
             else (closest_rep, min_drive_time, e')
         | None => (closest_rep, min_drive_time, e')
         end
  else Some acc.

Fixpoint closest_rep_loop (appt_zip product_id : string) (idle : string → bool)
    (acc : option string * pyfloat * env) (items : roster)
    : option (option string * pyfloat * env) :=
  match items with
  | [] => Some acc
  | item :: items' =>
      acc' ← closest_rep_step appt_zip product_id idle acc item;
      closest_rep_loop appt_zip product_id idle acc' items'
  end.

(** The body shared by "Step 1" and "Step 3" for the dictionary [r]. *)
Definition match_appointment (sales_reps : roster) (idle : string → bool)
    (unmatched : Z → string → diagnostic) (r : ref) (s : locals) : option locals :=
  a ← appointments s !! r;
  '(closest_rep, min_drive_time, e) ←
     closest_rep_loop (Zip a) (productid a) idle (None, Inf, closure s) sales_reps;
  Some match truthy closest_rep with
       | Some rep =>
           {| appointments := appointments s;
              rep_appointments :=
                <[rep := appointments_of (rep_appointments s) rep ++ [r]]>
                  (rep_appointments s);
              appointment_assignments :=
                appointment_assignments s ++
                  [{| appt := r; assigned_to := rep; drive_time := min_drive_time |}];
              closure := e |}
       | None =>
           {| appointments := appointments s;
              rep_appointments := rep_appointments s;
              appointment_assignments := appointment_assignments s;
              closure := print (unmatched (custnumber a) (Zip a)) e |}
       end.

(** Step 1 *)
Fixpoint initial_pass (sales_reps : roster) (filtered_appointments : list ref)
    (s : locals) : option locals :=
  match filtered_appointments with
  | [] => Some s
  | r :: rest =>
      s' ← match_appointment sales_reps (λ _, true) NoEligibleRep r s;
      initial_pass sales_reps rest s'
  end.

(** Step 2, inner loop *)
Fixpoint remove_extras (store : list (appointment apptdate_value))
    (sorted_appts : list assignment) (unassigned : list ref)
    (assignments : list assignment) : option (list ref * list assignment) :=
  match sorted_appts with
  | [] => Some (unassigned, assignments)
  | extra_appt :: rest =>
      assignments' ← list_remove_by (same_entry store) extra_appt assignments;
      remove_extras store rest (unassigned ++ [appt extra_appt]) assignments'
  end.

(** Step 2 *)
Fixpoint resolve_double_booking (store : list (appointment apptdate_value))
    (reps : list string) (ra : gmap string (list ref))
    (unassigned : list ref) (assignments : list assignment)
    : option (list ref * list assignment) :=
  match reps with
  | [] => Some (unassigned, assignments)
  | rep :: reps' =>
      if decide (1 < length (appointments_of ra rep))%nat then
        match sorted float_lt drive_time
                (filter (λ x, assigned_to x = rep) assignments) with
        | [] => None
        | kept_appointment :: sorted_appts =>
            '(unassigned', assignments') ←
               remove_extras store sorted_appts unassigned assignments;
            resolve_double_booking store reps' ra unassigned' assignments'
        end
      else resolve_double_booking store reps' ra unassigned assignments
  end.

(** Step 3 *)
Fixpoint reassign_pass (sales_reps : roster) (unassigned_appointments : list ref)
    (s : locals) : option locals :=
  match unassigned_appointments with
  | [] => Some s
  | r :: rest =>
      s' ← match_appointment sales_reps
             (λ rep, bool_decide (appointments_of (rep_appointments s) rep = []))
             CouldNotAssign r s;
      reassign_pass sales_reps rest s'
  end.

(** One turn of the conversion loop: the assignment to
    [appointment["apptdate"]], of the parsed [datetime] or of the entry
    itself. *)
Definition convert_in_place (a : appointment apptdate_value)
    : option (appointment apptdate_value) :=
  match apptdate a with
  | DateStr s => t ← strptime s; Some (set_apptdate a (DateObj t))
  | DateObj t => Some (set_apptdate a (DateObj t))
  end.

(** The window filter, over the dictionaries at [refs]. *)
Fixpoint filter_window (time_window_start time_window_end : datetime)
    (store : list (appointment apptdate_value)) (refs : list ref) : option (list ref) :=
  match refs with
  | [] => Some []
  | r :: rest =>
      a ← store !! r;
      t ← as_datetime (apptdate a);
      kept ← filter_window time_window_start time_window_end store rest;
      Some (if decide (time_window_start ≤ t ∧ t ≤ time_window_end)%Z
            then r :: kept else kept)
  end.

Definition assign_to_closest_rep (appointments : list (appointment apptdate_value))
    (sales_reps : roster) (time_window_start time_window_end : datetime)
    (w : world) : option outcome :=
  store ← mapM convert_in_place appointments;
  filtered_appointments ←
    filter_window time_window_start time_window_end store (seq 0 (length store));
  s1 ← initial_pass sales_reps filtered_appointments
         {| appointments := store;
            rep_appointments := list_to_map ((λ item, (item.1, [])) <$> sales_reps);
            appointment_assignments := [];
            closure := {| drive_time_cache := ∅; outside := w |} |};
  '(unassigned_appointments, assignments) ←
     resolve_double_booking (Objects.appointments s1) sales_reps.*1 (rep_appointments s1) []
       (appointment_assignments s1);
  s3 ← reassign_pass sales_reps unassigned_appointments
         {| appointments := Objects.appointments s1;
            rep_appointments := rep_appointments s1;
            appointment_assignments := assignments;
            closure := closure s1 |};
  Some {| returned := appointment_assignments s3;
          appointments_after := Objects.appointments s3;
          world_after := outside (closure s3) |}.

Definition process_time_window := assign_to_closest_rep.

(** Appending to [rep_assignments[rep]]. *)
Fixpoint group_append (rep : string) (r : ref)
    (rep_assignments : list (string * list ref)) : list (string * list ref) :=
  match rep_assignments with
  | [] => [(rep, [r])]
  | (rep', l) :: rest =>
      if decide (rep' = rep) then (rep', l ++ [r]) :: rest
      else (rep', l) :: group_append rep r rest
  end.

Fixpoint group_by_rep (assignments : list assignment)
    (rep_assignments : list (string * list ref)) : list (string * list ref) :=
  match assignments with
  | [] => rep_assignments
  | x :: rest => group_by_rep rest (group_append (assigned_to x) (appt x) rep_assignments)
  end.

(** The ["apptdate"] and the dictionary at [r], for [sorted] and
    [last_appt["Zip"]]. *)
Definition dated (store : list (appointment apptdate_value)) (r : ref)
    : option (datetime * appointment apptdate_value) :=
  a ← store !! r; t ← as_datetime (apptdate a); Some (t, a).

Fixpoint update_loop (store : list (appointment apptdate_value))
    (rep_assignments : list (string * list ref)) (sales_reps : roster) : option roster :=
  match rep_assignments with
  | [] => Some sales_reps
  | (rep, assignments) :: rest =>
      dicts ← mapM (dated store) assignments;
      last_appt ← last (sorted Z.ltb fst dicts);
      sales_reps' ← set_curr_zip rep (Zip last_appt.2) sales_reps;
      update_loop store rest sales_reps'
  end.

Definition update_sales_reps_zip (store : list (appointment apptdate_value))
    (assignments : list assignment) (sales_reps : roster) : option roster :=
  update_loop store (group_by_rep assignments []) sales_reps.

Definition row_of (store : list (appointment apptdate_value)) (x : assignment)
    : option result_row :=
  a ← store !! appt x;
  t ← as_datetime (apptdate a);
  Some (ResultRow (custnumber a) t (zip_to_city (Zip a)) (productid a)
          (assigned_to x) (drive_time x)).

Definition run_workflow (appointments : list (appointment apptdate_value))
    (sales_reps : roster) (time_window_start time_window_end : datetime)
    (window_number : nat) (allow_modify_reps : bool) (w : world)
    : option window_result :=
  out ← process_time_window appointments sales_reps time_window_start time_window_end w;
  sales_reps1 ← update_sales_reps_zip (appointments_after out) (returned out) sales_reps;
  let sales_reps2 :=
    if allow_modify_reps
    then modify_sales_reps sales_reps1 window_number time_window_start time_window_end
    else sales_reps1 in
  results ← mapM (row_of (appointments_after out)) (returned out);
  Some {| roster_after := sales_reps2;
          results := results;
          store_after := appointments_after out;
          world_then := world_after out |}.

(** [t + timedelta(...)] *)
Definition add (t : datetime) (delta : Z) : option datetime :=
  if decide (t + delta ≤ datetime_max)%Z then Some (t + delta)%Z else None.

Definition time_windows (earliest_time last_time : datetime)
    : option (list (nat * datetime * datetime * bool)) :=
  end1 ← add earliest_time (timedelta 2 0);
  start2 ← add earliest_time (timedelta 2 1);
  end2 ← add earliest_time (timedelta 5 0);
  start3 ← add earliest_time (timedelta 5 1);
  Some [ (1%nat, earliest_time, end1, true);
         (2%nat, start2, end2, true);
         (3%nat, start3, last_time, false) ].

Fixpoint run_windows (windows : list (nat * datetime * datetime * bool))
    (appointments : list (appointment apptdate_value)) (sales_reps : roster)
    (all_results : list result_row) (w : world)
    : option (list result_row * roster * world * list (appointment apptdate_value)) :=
  match windows with
  | [] => Some (all_results, sales_reps, w, appointments)
  | (window_number, start, end_, allow_modify_reps) :: rest =>
      r ← run_workflow appointments sales_reps start end_ window_number
            allow_modify_reps w;
      run_windows rest (store_after r) (roster_after r)
        (all_results ++ [WindowTitle window_number] ++ results r ++ [BlankRow])
        (world_then r)
  end.

(** One turn of the conversion loop of [main_workflow]. *)
Definition prepare (a : appointment apptdate_value)
    : option (appointment apptdate_value) :=
  match apptdate a with
  | DateStr s => t ← strptime s; Some (set_apptdate a (DateObj t))
  | DateObj t => Some a
  end.

(** [main_workflow] up to the export: the rows handed to the spreadsheet
    writer, the roster, the world and the caller's dictionaries.  [None]:
    an exception reached the handlers of [main_workflow], and nothing is
    exported. *)
Definition main_workflow (appointments : list (appointment apptdate_value))
    (sales_reps : roster) (w : world)
    : option (list result_row * roster * world * list (appointment apptdate_value)) :=
  store ← mapM prepare appointments;
  times ← mapM (λ a, as_datetime (apptdate a)) store;
  earliest_time ← min_time times;
  last_time ← max_time times;
  windows ← time_windows earliest_time last_time;
  run_windows windows store sales_reps [] w.
End engine.

Arguments get_drive_time : simpl never.
Arguments closest_rep_step : simpl never.
Arguments match_appointment : simpl never.
End Objects.

(** ** A concrete [strptime]

    Reads the zero-padded layout [MM/DD/YYYY HH:MM:SS] that the importer
    writes with [strftime], and counts the seconds since 1970-01-01. *)

Definition digit (c : ascii) : option Z :=
  let n := Z.of_N (Ascii.N_of_ascii c) in
  if decide (48 ≤ n ∧ n ≤ 57)%Z then Some (n - 48)%Z else None.

Definition number (cs : list ascii) : option Z :=
  foldl (λ acc c, n ← acc; d ← digit c; Some (10 * n + d)%Z) (Some 0%Z) cs.

Definition is_leap (y : Z) : bool :=
  bool_decide (y mod 4 = 0 ∧ (y mod 100 ≠ 0 ∨ y mod 400 = 0))%Z.

Definition days_in_month (y m : Z) : Z :=
  if decide (m = 2)%Z then (if is_leap y then 29 else 28)%Z
  else if decide (m = 4 ∨ m = 6 ∨ m = 9 ∨ m = 11)%Z then 30%Z else 31%Z.

Definition days_from_civil (y m d : Z) : Z :=
  let y' := (if decide (m ≤ 2)%Z then y - 1 else y)%Z in
  let era := (y' / 400)%Z in
  let yoe := (y' - era * 400)%Z in
  let mp := (if decide (m ≤ 2)%Z then m + 9 else m - 3)%Z in
  let doy := ((153 * mp + 2) / 5 + d - 1)%Z in
  let doe := (yoe * 365 + yoe / 4 - yoe / 100 + doy)%Z in
  (era * 146097 + doe - 719468)%Z.

Definition strptime_padded (s : string) : option datetime :=
  match String.list_ascii_of_string s with
  | [m1; m2; s1; d1; d2; s2; y1; y2; y3; y4; sp; h1; h2; c1; n1; n2; c2; x1; x2] =>
      if decide (s1 = "/"%char ∧ s2 = "/"%char ∧ sp = " "%char
                 ∧ c1 = ":"%char ∧ c2 = ":"%char) then
        mo ← number [m1; m2]; d ← number [d1; d2]; y ← number [y1; y2; y3; y4];
        h ← number [h1; h2]; mi ← number [n1; n2]; sec ← number [x1; x2];
        if decide (1 ≤ mo ≤ 12 ∧ 1 ≤ d ≤ days_in_month y mo ∧ 1 ≤ y
                   ∧ h < 24 ∧ mi < 60 ∧ sec < 60)%Z
        then Some (days_from_civil y mo d * 86400 + h * 3600 + mi * 60 + sec)%Z
        else None
      else None
  | _ => None
  end.

(** ** Scenarios

    Concrete oracles, rosters and appointment lists on which the engine is
    run below. *)

(** Same place: no drive; elsewhere: twenty minutes. *)
Definition oracle_grid (n : nat) (zip1 zip2 : string) : distance_matrix_result :=
  if decide (zip1 = zip2) then StatusOK 0 else StatusOK 1200.

(** An oracle that fails on every call. *)
Definition oracle_down (n : nat) (zip1 zip2 : string) : distance_matrix_result :=
  StatusNotOK.

(** Traffic builds up: ten minutes on the first call, twenty afterwards. *)
Definition oracle_slowing (n : nat) (zip1 zip2 : string) : distance_matrix_result :=
  if decide (n = 0%nat) then StatusOK 600 else StatusOK 1200.

(** A one-way system: ten minutes one way, twenty the other. *)
Definition oracle_one_way (n : nat) (zip1 zip2 : string) : distance_matrix_result :=
  if String.ltb zip1 zip2 then StatusOK 600 else StatusOK 1200.

(** The user declines to edit the roster. *)
Definition keep_roster (sales_reps : roster) (window_number : nat)
    (t_start t_end : datetime) : roster := sales_reps.

(** A geocoder that names a place by its postal code. *)
Definition city_of (zip : string) : string := zip.

Definition quiet_world : world := {| api_calls := []; printed := [] |}.

Definition two_reps : roster :=
  [ ("R1", {| curr_zip := "zipA"; scope := ["capX"] |});
    ("R2", {| curr_zip := "zipB"; scope := ["capX"] |}) ].

Definition one_rep : roster :=
  [ ("John", {| curr_zip := "98026"; scope := ["Bath"; "Tub"] |}) ].

(** 2024-12-20 09:00:00 and 11:00:00, in seconds. *)
Definition nine_o_clock : datetime := 1734685200%Z.
Definition eleven_o_clock : datetime := 1734692400%Z.

(** Two appointments at the same place, ten minutes apart, as imported. *)
Definition same_place_appointments : list (appointment apptdate_value) :=
  [ Appointment 1%Z (DateStr "12/20/2024 09:00:00") "zipA" "capX" "web";
    Appointment 2%Z (DateStr "12/20/2024 09:10:00") "zipA" "capX" "web" ].

(** The same two with their time stamps parsed. *)
Definition same_place_converted : list (appointment datetime) :=
  [ Appointment 1%Z nine_o_clock "zipA" "capX" "web";
    Appointment 2%Z (nine_o_clock + 600)%Z "zipA" "capX" "web" ].

(** The locals at the start of a call with [two_reps]. *)
Definition fresh_locals : locals :=
  {| rep_appointments := list_to_map [("R1", []); ("R2", [])];
     appointment_assignments := [];
     closure := {| drive_time_cache := ∅; outside := quiet_world |} |}.

(** Two appointments of one representative, the later one elsewhere. *)
Definition two_visits : list assignment :=
  [ {| appt := Appointment 1%Z nine_o_clock "zipA" "capX" "web";
       assigned_to := "R1"; drive_time := Fin (minutes_of 0) |};
    {| appt := Appointment 2%Z (nine_o_clock + 600)%Z "zipC" "capX" "web";
       assigned_to := "R1"; drive_time := Fin (minutes_of 1200) |} ].

(** One appointment in each of the first two windows, at the
    representative's own place. *)
Definition morning_and_noon : list (appointment apptdate_value) :=
  [ Appointment 1%Z (DateStr "12/20/2024 09:00:00") "98026" "Bath" "web";
    Appointment 2%Z (DateStr "12/20/2024 12:00:00") "98026" "Bath" "web" ].

(** As above, with an appointment thirty seconds after the first window
    closes. *)
Definition with_a_straggler : list (appointment apptdate_value) :=
  [ Appointment 1%Z (DateStr "12/20/2024 09:00:00") "98026" "Bath" "web";
    Appointment 2%Z (DateStr "12/20/2024 11:00:30") "98026" "Bath" "web";
    Appointment 3%Z (DateStr "12/20/2024 12:00:00") "98026" "Bath" "web" ].

(** A window that opens after the last appointment of the morning. *)
Definition late_window : datetime * datetime :=
  ((eleven_o_clock + 1)%Z, (eleven_o_clock + 3600)%Z).

(** A roster text of two lines, the second with blanks around its
    fields. *)
Definition two_lines : string :=
  "John, 98026, Bath; Tub" +:+ String "010"%char " Jane ,98004 , Bath ".

(** Two lines for the same name. *)
Definition john_twice : string :=
  "John, 98026, Bath" +:+ String "010"%char "John, 98004, Tub".

(** One line that names a second representative after the first. *)
Definition john_line : string := "John, 98026, Bath".
Definition jane_after : string := " Jane, 98004, Tub".

(** Representatives to add to [two_reps]: one that is there, one that is
    not. *)
Definition newcomers : roster :=
  [ ("R2", {| curr_zip := "zipC"; scope := ["capY"] |});
    ("R3", {| curr_zip := "zipD"; scope := ["capX"] |}) ].

(** The user removes a representative, adds one, and ends the dialog. *)
Definition remove_then_add : list (option string) :=
  [ Some "yes"; Some " Remove "; Some "R1, R9";
    Some "yes"; Some "add"; Some "R3, zipD, capX";
    Some "no" ].

(** An appointment list with a time stamp that does not parse. *)
Definition with_a_bad_stamp : list (appointment apptdate_value) :=
  [ Appointment 1%Z (DateStr "12/20/2024 09:00:00") "98026" "Bath" "web";
    Appointment 2%Z (DateStr "20.12.2024 10:00") "98026" "Bath" "web" ].

(** The client of [oracle_grid]: it answers every call. *)
Definition client_grid (n : nat) (zip1 zip2 : string) : Objects.client_result :=
  if decide (zip1 = zip2) then Objects.Answer true (Some 0%Z)
  else Objects.Answer true (Some 1200%Z).

(** The service is down: every answer has a status other than ["OK"]. *)
Definition client_down (n : nat) (zip1 zip2 : string) : Objects.client_result :=
  Objects.Answer false None.

(** The service cannot place the zip code 00000: with it the answer has the
    status ["OK"] and an element without a duration. *)
Definition client_no_place (n : nat) (zip1 zip2 : string) : Objects.client_result :=
  if decide (zip1 = "00000" ∨ zip2 = "00000") then Objects.Answer true None
  else client_grid n zip1 zip2.

(** The client raises on its first call and answers afterwards. *)
Definition client_times_out_once (n : nat) (zip1 zip2 : string) : Objects.client_result :=
  if decide (n = 0%nat) then Objects.ClientError else client_grid n zip1 zip2.

(** [datetime.max] on the time line of [strptime_padded]:
    9999-12-31 23:59:59. *)
Definition datetime_max_padded : datetime := 253402300799%Z.

(** The morning's appointment, and one at a zip code the service cannot
    place. *)
Definition with_an_unplaced_zip : list (appointment apptdate_value) :=
  [ Appointment 1%Z (DateStr "12/20/2024 09:00:00") "98026" "Bath" "web";
    Appointment 2%Z (DateStr "12/20/2024 09:30:00") "00000" "Bath" "web" ].

(** ** Notions used in the statements *)

(** [e'] extends [e]: cache entries, oracle calls and printed lines are only
    ever added. *)
Definition env_le (e e' : env) : Prop :=
  drive_time_cache e ⊆ drive_time_cache e'
  ∧ api_calls (outside e) `prefix_of` api_calls (outside e')
  ∧ printed (outside e) `prefix_of` printed (outside e').

Global Instance env_le_preorder : PreOrder env_le.
Proof.
  split.
  - intros e. by repeat split.
  - intros e1 e2 e3 (?&?&?) (?&?&?). repeat split; by etrans.
Qed.

(** The drive times one search obtains: for each representative whose scope
    holds the product, in roster order, what [get_drive_time] returns at its
    turn ([None] for a failed lookup). *)
Fixpoint drive_times (oracle : nat → string → string → distance_matrix_result)
    (appt_zip product_id : string) (items : roster) (e : env)
    : list (string * option Qc) :=
  match items with
  | [] => []
  | (rep, details) :: items' =>
      if bool_decide (product_id ∈ scope details) then
        (rep, (get_drive_time oracle appt_zip (curr_zip details) e).1)
          :: drive_times oracle appt_zip product_id items'
               (get_drive_time oracle appt_zip (curr_zip details) e).2
      else drive_times oracle appt_zip product_id items' e
  end.

(** [rep] with drive time [t] is the first least of the drive times [qs]:
    no known drive time is below [t], and every known one before [rep]'s
    turn is above it. *)
Definition first_least (qs : list (string * option Qc)) (rep : string) (t : Qc) : Prop :=
  ∃ i, qs !! i = Some (rep, Some t)
       ∧ (∀ j rep' t', qs !! j = Some (rep', Some t') → (t ≤ t')%Qc)
       ∧ (∀ j rep' t', (j < i)%nat → qs !! j = Some (rep', Some t') → (t < t')%Qc).

(** How many entries of an assignment list name [rep]. *)
Definition booked (rep : string) (assignments : list assignment) : nat :=
  length (filter (λ x, assigned_to x = rep) assignments).

(** What the roster update must achieve from [sales_reps] to [sales_reps'],
    given the window's assignments: same names in the same order, same
    scopes; a representative with no entry keeps its details; one with
    entries stands at the [Zip] of one of its appointments than which none of
    them is later. *)
Definition carried_over (assignments : list assignment)
    (sales_reps sales_reps' : roster) : Prop :=
  sales_reps'.*1 = sales_reps.*1
  ∧ ∀ i rep details, sales_reps !! i = Some (rep, details) →
      ∃ details',
        sales_reps' !! i = Some (rep, details')
        ∧ scope details' = scope details
        ∧ (booked rep assignments = 0%nat → details' = details)
        ∧ ((0 < booked rep assignments)%nat →
             ∃ x, x ∈ assignments ∧ assigned_to x = rep
                  ∧ curr_zip details' = Zip (appt x)
                  ∧ ∀ y, y ∈ assignments → assigned_to y = rep →
                      (apptdate (appt y) ≤ apptdate (appt x))%Z).

(** [after] is [before] with a string time stamp replaced by its parsed
    [datetime], and nothing else changed. *)
Definition converted_in_place (strptime : string → option datetime)
    (before after : appointment apptdate_value) : Prop :=
  custnumber after = custnumber before ∧ Zip after = Zip before
  ∧ productid after = productid before ∧ dsp_id after = dsp_id before
  ∧ match apptdate before with
    | DateStr str => ∃ t, strptime str = Some t ∧ apptdate after = DateObj t
    | DateObj t => apptdate after = DateObj t
    end.

(** [t] lies in one of the three windows of [main_workflow]. *)
Definition in_a_window (earliest_time last_time t : datetime) : Prop :=
  (earliest_time ≤ t ≤ earliest_time + timedelta 2 0
   ∨ earliest_time + timedelta 2 1 ≤ t ≤ earliest_time + timedelta 5 0
   ∨ earliest_time + timedelta 5 1 ≤ t ≤ last_time)%Z.

(** [t] lies strictly between the end of one window and the start of the
    next. *)
Definition in_a_gap (earliest_time t : datetime) : Prop :=
  (earliest_time + timedelta 2 0 < t < earliest_time + timedelta 2 1
   ∨ earliest_time + timedelta 5 0 < t < earliest_time + timedelta 5 1)%Z.

(** ** Notions used in the further properties *)

(** The locals [assign_to_closest_rep] starts from. *)
Definition start_locals (sales_reps : roster) (w : world) : locals :=
  {| rep_appointments := list_to_map ((λ item, (item.1, [])) <$> sales_reps);
     appointment_assignments := [];
     closure := {| drive_time_cache := ∅; outside := w |} |}.

(** The candidate assignments: [appointment_assignments] as the initial pass
    leaves it. *)
Definition candidates (oracle : nat → string → string → distance_matrix_result)
    (sales_reps : roster) (filtered_appointments : list (appointment datetime))
    (w : world) : list assignment :=
  appointment_assignments
    (initial_pass oracle sales_reps filtered_appointments (start_locals sales_reps w)).

(** From call number [base] on, no pair of places is asked of the oracle
    again, in either order, once the oracle has answered it. *)
Definition answered_once (oracle : nat → string → string → distance_matrix_result)
    (base : nat) (calls : list (string * string)) : Prop :=
  ∀ n m zip1 zip2 zip3 zip4 v,
    (base ≤ n)%nat → (n < m)%nat →
    calls !! n = Some (zip1, zip2) → calls !! m = Some (zip3, zip4) →
    oracle n zip1 zip2 = StatusOK v →
    cache_key zip1 zip2 ≠ cache_key zip3 zip4.

(** [x] is the first cheapest of the entries of [l] that name its
    representative: among those entries, in their order, none is cheaper
    and every one before [x] costs more. *)
Definition first_cheapest (x : assignment) (l : list assignment) : Prop :=
  ∃ i, filter (λ y, assigned_to y = assigned_to x) l !! i = Some x
       ∧ (∀ y, y ∈ filter (λ y, assigned_to y = assigned_to x) l →
            float_lt (drive_time y) (drive_time x) = false)
       ∧ (∀ j y, (j < i)%nat →
            filter (λ y, assigned_to y = assigned_to x) l !! j = Some y →
            float_lt (drive_time x) (drive_time y) = true).

(** The ["apptdate"] entry of [a] is a [datetime], or a string that
    [strptime] accepts. *)
Definition parses (strptime : string → option datetime)
    (a : appointment apptdate_value) : Prop :=
  match apptdate a with
  | DateStr s => is_Some (strptime s)
  | DateObj _ => True
  end.

(** [call] asks for the drive from the place of appointment [a] to the
    current place of a representative of the roster whose scope holds the
    appointment's product. *)
Definition asked_for (sales_reps : roster) (a : appointment datetime)
    (call : string * string) : Prop :=
  ∃ rep details, (rep, details) ∈ sales_reps ∧ productid a ∈ scope details
                 ∧ call = (Zip a, curr_zip details).

(** How many times the character [c] occurs in [s]. *)
Fixpoint count_char (c : ascii) (s : string) : nat :=
  match s with
  | EmptyString => 0%nat
  | String c' s' => if decide (c' = c) then S (count_char c s') else count_char c s'
  end.

(** An entry of a parsed roster as the parser leaves it: no blanks around
    the name, the zip code and the products, and at least one product. *)
Definition tidy (item : string * rep_details) : Prop :=
  strip item.1 = item.1
  ∧ strip (curr_zip item.2) = curr_zip item.2
  ∧ scope item.2 ≠ []
  ∧ Forall (λ product, strip product = product) (scope item.2).

(** The message boxes [new] account for the change from [sales_reps] to
    [sales_reps']: a name that came in was announced as added, a name that
    went was announced as removed, details that changed were flagged as
    existing or as added, and with no box at all nothing changed. *)
Definition accounted (sales_reps : roster) (new : list message)
    (sales_reps' : roster) : Prop :=
  (∀ name, name ∈ sales_reps'.*1 →
     name ∈ sales_reps.*1 ∨ ShowInfoAdded name ∈ new)
  ∧ (∀ name, name ∈ sales_reps.*1 →
       name ∈ sales_reps'.*1 ∨ ShowInfoRemoved name ∈ new)
  ∧ (∀ name details details',
       (name, details) ∈ sales_reps → (name, details') ∈ sales_reps' →
       details' = details ∨ ShowWarningExists name ∈ new ∨ ShowInfoAdded name ∈ new)
  ∧ (new = [] → sales_reps' = sales_reps).

(** The customer numbers of the result rows, in order. *)
Definition row_customers (rows : list result_row) : list Z :=
  omap (λ row, match row with
               | ResultRow cust _ _ _ _ _ => Some cust
               | _ => None
               end) rows.

(** * Properties *)

(** ** Lists: sorting and removal *)

Section list_facts.
Context {A K : Type} (lt : K → K → bool) (key : A → K).

Lemma sorted_insert_perm (x : A) (l : list A) :
  sorted_insert lt key x l ≡ₚ x :: l.
Proof.
  induction l as [|y l IH]; simpl; [done|].
  destruct (lt (key y) (key x)); [|done].
  rewrite IH. apply Permutation_swap.
Qed.

Lemma sorted_perm (l : list A) : sorted lt key l ≡ₚ l.
Proof.
  induction l as [|x l IH]; simpl; [done|].
  by rewrite sorted_insert_perm, IH.
Qed.

Context `{EqDecision A}.

Lemma list_remove_perm (x : A) (l l' : list A) :
  list_remove x l = Some l' → l ≡ₚ x :: l'.
Proof.
  revert l'. induction l as [|y l IH]; intros l' Hr; simpl in Hr; [done|].
  destruct (decide (y = x)) as [->|Hne]; [by simplify_eq|].
  destruct (list_remove x l) as [k|] eqn:Hk; simplify_eq/=.
  rewrite (IH k eq_refl). apply Permutation_swap.
Qed.

Lemma list_remove_sublist (x : A) (l l' : list A) :
  list_remove x l = Some l' → l' `sublist_of` l.
Proof.
  revert l'. induction l as [|y l IH]; intros l' Hr; simpl in Hr; [done|].
  destruct (decide (y = x)) as [->|Hne]; [simplify_eq; apply sublist_cons; reflexivity|].
  destruct (list_remove x l) as [k|] eqn:Hk; simplify_eq/=.
  apply sublist_skip. by apply IH.
Qed.

Lemma list_remove_is_Some (x : A) (l : list A) :
  x ∈ l → is_Some (list_remove x l).
Proof.
  induction l as [|y l IH]; intros Hin; [by apply elem_of_nil in Hin|].
  simpl. destruct (decide (y = x)) as [->|Hne]; [eauto|].
  apply elem_of_cons in Hin as [->|Hin]; [done|].
  destruct (IH Hin) as [k ->]. simpl. eauto.
Qed.
End list_facts.

(** ** The cache key *)

Lemma cache_key_sym (zip1 zip2 : string) : cache_key zip1 zip2 = cache_key zip2 zip1.
Proof.
  unfold cache_key, String.ltb.
  rewrite (String.compare_antisym zip2 zip1).
  destruct (String.compare zip1 zip2) eqn:Hc; simpl; try done.
  apply String.compare_eq_iff in Hc. by subst.
Qed.

Section engine_facts.
Variable oracle : nat → string → string → distance_matrix_result.
Variable strptime : string → option datetime.
Variable zip_to_city : string → string.
Variable modify_sales_reps : roster → nat → datetime → datetime → roster.


(** ** [get_drive_time] *)

Lemma get_drive_time_hit zip1 zip2 e t :
  drive_time_cache e !! cache_key zip1 zip2 = Some t →
  get_drive_time oracle zip1 zip2 e = (Some t, e).
Proof. intros H. unfold get_drive_time. by rewrite H. Qed.

Lemma get_drive_time_miss_ok zip1 zip2 e v :
  drive_time_cache e !! cache_key zip1 zip2 = None →
  oracle (length (api_calls (outside e))) zip1 zip2 = StatusOK v →
  get_drive_time oracle zip1 zip2 e =
    (Some (minutes_of v),
     {| drive_time_cache := <[cache_key zip1 zip2 := minutes_of v]> (drive_time_cache e);
        outside := {| api_calls := api_calls (outside e) ++ [(zip1, zip2)];
                      printed := printed (outside e) |} |}).
Proof. intros H1 H2. unfold get_drive_time. by rewrite H1, H2. Qed.

Lemma get_drive_time_miss_fail zip1 zip2 e :
  drive_time_cache e !! cache_key zip1 zip2 = None →
  oracle (length (api_calls (outside e))) zip1 zip2 = StatusNotOK →
  get_drive_time oracle zip1 zip2 e =
    (None,
     {| drive_time_cache := drive_time_cache e;
        outside := {| api_calls := api_calls (outside e) ++ [(zip1, zip2)];
                      printed := printed (outside e) ++ [ApiCallFailed zip1 zip2] |} |}).
Proof. intros H1 H2. unfold get_drive_time. by rewrite H1, H2. Qed.

(** The three ways a call can go. *)
Lemma get_drive_time_cases zip1 zip2 e :
  (∃ t, drive_time_cache e !! cache_key zip1 zip2 = Some t
        ∧ get_drive_time oracle zip1 zip2 e = (Some t, e))
  ∨ (∃ v, drive_time_cache e !! cache_key zip1 zip2 = None
        ∧ oracle (length (api_calls (outside e))) zip1 zip2 = StatusOK v
        ∧ get_drive_time oracle zip1 zip2 e =
            (Some (minutes_of v),
             {| drive_time_cache :=
                  <[cache_key zip1 zip2 := minutes_of v]> (drive_time_cache e);
                outside := {| api_calls := api_calls (outside e) ++ [(zip1, zip2)];
                              printed := printed (outside e) |} |}))
  ∨ (drive_time_cache e !! cache_key zip1 zip2 = None
        ∧ oracle (length (api_calls (outside e))) zip1 zip2 = StatusNotOK
        ∧ get_drive_time oracle zip1 zip2 e =
            (None,
             {| drive_time_cache := drive_time_cache e;
                outside := {| api_calls := api_calls (outside e) ++ [(zip1, zip2)];
                              printed := printed (outside e)
                                           ++ [ApiCallFailed zip1 zip2] |} |})).
Proof.
  destruct (drive_time_cache e !! cache_key zip1 zip2) as [t|] eqn:Hc.
  - left. eauto using get_drive_time_hit.
  - right.
    destruct (oracle (length (api_calls (outside e))) zip1 zip2) as [v|] eqn:Ho.
    + left. eauto using get_drive_time_miss_ok.
    + right. eauto using get_drive_time_miss_fail.
Qed.

(** A call only ever adds to the cache, to the calls and to the output. *)
Lemma get_drive_time_grows zip1 zip2 e r e' :
  get_drive_time oracle zip1 zip2 e = (r, e') →
  drive_time_cache e ⊆ drive_time_cache e'
  ∧ api_calls (outside e) `prefix_of` api_calls (outside e')
  ∧ printed (outside e) `prefix_of` printed (outside e').
Proof.
  intros Hg.
  destruct (get_drive_time_cases zip1 zip2 e)
    as [(t & Hc & Hr)|[(v & Hc & Ho & Hr)|(Hc & Ho & Hr)]];
    rewrite Hr in Hg; simplify_eq/=.
  - done.
  - split_and!; [by apply insert_subseteq|by apply prefix_app_r|done].
  - split_and!; [done|by apply prefix_app_r|by apply prefix_app_r].
Qed.

(** A successful call leaves its value in the cache. *)
Lemma get_drive_time_cached zip1 zip2 e t e' :
  get_drive_time oracle zip1 zip2 e = (Some t, e') →
  drive_time_cache e' !! cache_key zip1 zip2 = Some t.
Proof.
  intros Hg.
  destruct (get_drive_time_cases zip1 zip2 e)
    as [(t' & Hc & Hr)|[(v & Hc & Ho & Hr)|(Hc & Ho & Hr)]];
    rewrite Hr in Hg; simplify_eq/=; [done|].
  apply lookup_insert_eq.
Qed.

Lemma get_drive_time_env_le zip1 zip2 e :
  env_le e (get_drive_time oracle zip1 zip2 e).2.
Proof.
  destruct (get_drive_time oracle zip1 zip2 e) as [r e'] eqn:Hg.
  by apply get_drive_time_grows in Hg.
Qed.

Lemma print_env_le d e : env_le e (print d e).
Proof. repeat split; simpl; [done|done|by apply prefix_app_r]. Qed.

(** ** The search loop *)

Lemma closest_rep_step_spec z p idle c m e item c' m' e' :
  closest_rep_step oracle z p idle (c, m, e) item = (c', m', e') →
  env_le e e'
  ∧ ((c' = c ∧ m' = m)
     ∨ ∃ t, c' = Some item.1 ∧ m' = Fin t
            ∧ p ∈ scope item.2 ∧ idle item.1 = true).
Proof.
  destruct item as [rep details]. unfold closest_rep_step. simpl.
  destruct (bool_decide (p ∈ scope details)) eqn:Hs; simpl;
    [|intros; simplify_eq; split; [done|by left]].
  destruct (idle rep) eqn:Hi; simpl; [|intros; simplify_eq; split; [done|by left]].
  apply bool_decide_eq_true in Hs.
  pose proof (get_drive_time_env_le z (curr_zip details) e) as Hle.
  destruct (get_drive_time oracle z (curr_zip details) e) as [[t|] e1]; simpl in Hle.
  - destruct (float_lt (Fin t) m); intros; simplify_eq; split; eauto 10.
  - intros; simplify_eq. eauto.
Qed.

Lemma closest_rep_loop_spec z p idle items : ∀ c m e c' m' e',
  closest_rep_loop oracle z p idle (c, m, e) items = (c', m', e') →
  env_le e e'
  ∧ ((c' = c ∧ m' = m)
     ∨ ∃ rep details t, c' = Some rep ∧ m' = Fin t ∧ (rep, details) ∈ items
            ∧ p ∈ scope details ∧ idle rep = true).
Proof.
  induction items as [|item items IH]; intros c m e c' m' e' Hl; simpl in Hl.
  - simplify_eq. split; [done|by left].
  - destruct (closest_rep_step oracle z p idle (c, m, e) item) as [[c1 m1] e1] eqn:Hs.
    apply closest_rep_step_spec in Hs as [Hle1 Hs].
    apply IH in Hl as [Hle2 Hl]. split; [by etrans|].
    destruct Hl as [[-> ->]|(rep & details & t & -> & -> & Hin & ? & ?)].
    + destruct Hs as [[-> ->]|(t & -> & -> & ? & ?)]; [by left|].
      right. exists item.1, item.2, t. split_and!; try done.
      destruct item; simpl. apply elem_of_cons; by left.
    + right. exists rep, details, t. split_and!; try done.
      apply elem_of_cons; by right.
Qed.

Lemma find_closest_rep_spec a idle sales_reps e c m e' :
  find_closest_rep oracle a idle sales_reps e = (c, m, e') →
  env_le e e'
  ∧ ((c = None ∧ m = Inf)
     ∨ ∃ rep details t, c = Some rep ∧ m = Fin t ∧ (rep, details) ∈ sales_reps
            ∧ productid a ∈ scope details ∧ idle rep = true).
Proof. apply closest_rep_loop_spec. Qed.

(** What one turn of a matching pass does to the locals. *)
Lemma match_appointment_spec sales_reps idle unmatched a s :
  let s' := match_appointment oracle sales_reps idle unmatched a s in
  env_le (closure s) (closure s')
  ∧ ((∃ rep details t,
        (rep, details) ∈ sales_reps ∧ productid a ∈ scope details
        ∧ idle rep = true
        ∧ rep_appointments s' =
            <[rep := appointments_of (rep_appointments s) rep ++ [a]]> (rep_appointments s)
        ∧ appointment_assignments s' =
            appointment_assignments s ++ [Assignment a rep (Fin t)])
     ∨ (rep_appointments s' = rep_appointments s
        ∧ appointment_assignments s' = appointment_assignments s
        ∧ unmatched (custnumber a) (Zip a) ∈ printed (outside (closure s')))).
Proof.
  unfold match_appointment.
  destruct (find_closest_rep oracle a idle sales_reps (closure s)) as [[c m] e'] eqn:Hf.
  apply find_closest_rep_spec in Hf as [Hle Hf].
  destruct Hf as [[-> ->]|(rep & details & t & -> & -> & Hin & Hs & Hi)]; simpl.
  - split; [etrans; [done|apply print_env_le]|]. right. split_and!; try done.
    apply elem_of_app. right. by apply list_elem_of_singleton.
  - destruct (decide (rep = "")) as [->|Hne]; simpl.
    + split; [etrans; [done|apply print_env_le]|]. right. split_and!; try done.
      apply elem_of_app. right. by apply list_elem_of_singleton.
    + split; [done|]. left. exists rep, details, t. by split_and!.
Qed.

(** ** Counting bookings *)

Lemma booked_app rep l1 l2 : booked rep (l1 ++ l2) = (booked rep l1 + booked rep l2)%nat.
Proof. unfold booked. by rewrite filter_app, length_app. Qed.

Lemma booked_nil rep : booked rep [] = 0%nat.
Proof. done. Qed.

Lemma booked_singleton rep x :
  booked rep [x] = if decide (assigned_to x = rep) then 1%nat else 0%nat.
Proof.
  unfold booked. rewrite filter_cons, filter_nil.
  by destruct (decide (assigned_to x = rep)).
Qed.

Lemma booked_pos rep l : (0 < booked rep l)%nat ↔ ∃ x, x ∈ l ∧ assigned_to x = rep.
Proof.
  unfold booked. split.
  - intros Hpos. destruct (filter _ l) as [|x k] eqn:Hf; simpl in Hpos; [lia|].
    assert (x ∈ filter (λ x, assigned_to x = rep) l) as Hx
      by (rewrite Hf; apply elem_of_cons; by left).
    apply list_elem_of_filter in Hx as [? ?]. eauto.
  - intros (x & Hin & Hr).
    assert (x ∈ filter (λ x, assigned_to x = rep) l) as Hx
      by by apply list_elem_of_filter.
    destruct (filter _ l); [by apply elem_of_nil in Hx|simpl; lia].
Qed.

Lemma filter_rep_nil rep (l : list assignment) :
  (∀ y, y ∈ l → assigned_to y ≠ rep) → filter (λ y, assigned_to y = rep) l = [].
Proof.
  intros Hne. destruct (filter _ l) as [|x k] eqn:Hf; [done|].
  assert (x ∈ filter (λ y, assigned_to y = rep) l) as Hx
    by (rewrite Hf; apply elem_of_cons; by left).
  apply list_elem_of_filter in Hx as [? Hx]. by apply Hne in Hx.
Qed.

Lemma booked_le_1_NoDup l : (∀ rep, booked rep l ≤ 1)%nat → NoDup (assigned_to <$> l).
Proof.
  induction l as [|x l IH]; intros Hb; [constructor|].
  rewrite fmap_cons. apply NoDup_cons. split.
  - intros Hin. apply list_elem_of_fmap in Hin as (y & Heq & Hy).
    specialize (Hb (assigned_to x)).
    change (x :: l) with ([x] ++ l) in Hb.
    rewrite booked_app, booked_singleton, decide_True in Hb by done.
    assert (0 < booked (assigned_to x) l)%nat; [|lia].
    apply booked_pos. eauto.
  - apply IH. intros rep. specialize (Hb rep).
    change (x :: l) with ([x] ++ l) in Hb. rewrite booked_app in Hb. lia.
Qed.

Lemma appointments_of_insert ra rep v r :
  appointments_of (<[rep := v]> ra) r
  = if decide (rep = r) then v else appointments_of ra r.
Proof.
  unfold appointments_of. destruct (decide (rep = r)) as [->|Hne].
  - by rewrite lookup_insert_eq.
  - by rewrite lookup_insert_ne.
Qed.

(** ** A matching pass

    Both passes run [match_appointment] over a list; they differ in the guard
    [idle_of s], read off the locals at each turn, and in the diagnostic. *)

Lemma matching_pass_spec sales_reps idle_of unmatched l : ∀ s,
  let s' := foldl (λ s a, match_appointment oracle sales_reps (idle_of s) unmatched a s) s l in
  env_le (closure s) (closure s')
  ∧ ∃ new,
      appointment_assignments s' = appointment_assignments s ++ new
      ∧ (appt <$> new) `sublist_of` l
      ∧ Forall (λ x, ∃ details t, (assigned_to x, details) ∈ sales_reps
                       ∧ productid (appt x) ∈ scope details
                       ∧ drive_time x = Fin t) new
      ∧ (∀ r, length (appointments_of (rep_appointments s') r)
              = length (appointments_of (rep_appointments s) r) + booked r new)%nat
      ∧ (∀ a, a ∈ l → a ∈ appt <$> new
              ∨ unmatched (custnumber a) (Zip a) ∈ printed (outside (closure s')))
      ∧ (∀ i x, new !! i = Some x →
           ∃ s_mid, idle_of s_mid (assigned_to x) = true
             ∧ ∀ r, length (appointments_of (rep_appointments s_mid) r)
                    = length (appointments_of (rep_appointments s) r)
                      + booked r (take i new))%nat.
Proof.
  induction l as [|a l IH]; intros s; simpl.
  - split; [done|]. exists []. rewrite app_nil_r. split_and!; try done.
    + intros a Ha. by apply elem_of_nil in Ha.
  - set (s1 := match_appointment oracle sales_reps (idle_of s) unmatched a s).
    destruct (match_appointment_spec sales_reps (idle_of s) unmatched a s) as [Hle1 Hstep].
    fold s1 in Hle1, Hstep.
    destruct (IH s1) as (Hle2 & new & Hasg & Hsub & Hel & Hlen & Hcov & Hidle).
    split; [by etrans|].
    assert (∀ d, d ∈ printed (outside (closure s1)) →
      d ∈ printed (outside (closure (foldl (λ s a, match_appointment oracle sales_reps
                      (idle_of s) unmatched a s) s1 l)))) as Hmono.
    { intros d Hd. destruct Hle2 as (_ & _ & Hp). by eapply elem_of_prefix. }
    destruct Hstep as [(rep & details & t & Hin & Hsc & Hi & Hra & Has)|(Hra & Has & Hd)].
    + exists (Assignment a rep (Fin t) :: new). split_and!.
      * rewrite Hasg, Has. by rewrite <-app_assoc.
      * rewrite fmap_cons. simpl. by apply sublist_skip.
      * constructor; [simpl; eauto|done].
      * intros r. rewrite Hlen, Hra, appointments_of_insert.
        change (Assignment a rep (Fin t) :: new) with ([Assignment a rep (Fin t)] ++ new).
        rewrite booked_app, booked_singleton. simpl.
        destruct (decide (rep = r)) as [->|]; [rewrite length_app; simpl|]; lia.
      * intros a' Ha'. apply elem_of_cons in Ha' as [->|Ha'].
        -- left. rewrite fmap_cons. apply elem_of_cons. by left.
        -- destruct (Hcov a' Ha') as [?|?]; [left|by right].
           rewrite fmap_cons. apply elem_of_cons. by right.
      * intros [|i] x Hx; simpl in Hx.
        -- simplify_eq. exists s. split; [done|]. intros r. rewrite booked_nil. lia.
        -- destruct (Hidle i x Hx) as (s_mid & Hmid & Hl). exists s_mid. split; [done|].
           intros r. rewrite Hl, Hra, appointments_of_insert. simpl.
           change (Assignment a rep (Fin t) :: take i new)
             with ([Assignment a rep (Fin t)] ++ take i new).
           rewrite booked_app, booked_singleton. simpl.
           destruct (decide (rep = r)) as [->|]; [rewrite length_app; simpl|]; lia.
    + exists new. split_and!.
      * by rewrite Hasg, Has.
      * by apply sublist_cons.
      * done.
      * intros r. by rewrite Hlen, Hra.
      * intros a' Ha'. apply elem_of_cons in Ha' as [->|Ha']; [right; by apply Hmono|].
        by apply Hcov.
      * intros i x Hx. destruct (Hidle i x Hx) as (s_mid & Hmid & Hl).
        exists s_mid. split; [done|]. intros r. by rewrite Hl, Hra.
Qed.

Lemma initial_pass_foldl sales_reps l : ∀ s,
  initial_pass oracle sales_reps l s
  = foldl (λ s a, match_appointment oracle sales_reps (λ _, true) NoEligibleRep a s) s l.
Proof. induction l as [|a l IH]; intros s; simpl; [done|apply IH]. Qed.

Lemma reassign_pass_foldl sales_reps l : ∀ s,
  reassign_pass oracle sales_reps l s
  = foldl (λ s a, match_appointment oracle sales_reps
                    (λ rep, bool_decide (appointments_of (rep_appointments s) rep = []))
                    CouldNotAssign a s) s l.
Proof. induction l as [|a l IH]; intros s; simpl; [done|apply IH]. Qed.

(** ** Double-booking resolution *)

Lemma booked_perm rep l1 l2 : l1 ≡ₚ l2 → booked rep l1 = booked rep l2.
Proof. intros Hp. unfold booked. by rewrite Hp. Qed.

Lemma booked_all rep l : Forall (λ x, assigned_to x = rep) l → booked rep l = length l.
Proof.
  induction 1 as [|x l Hx _ IH]; [done|].
  change (x :: l) with ([x] ++ l).
  rewrite booked_app, booked_singleton, decide_True by done. simpl. by rewrite IH.
Qed.

Lemma booked_none rep r l :
  r ≠ rep → Forall (λ x, assigned_to x = rep) l → booked r l = 0%nat.
Proof.
  intros Hne. induction 1 as [|x l Hx _ IH]; [done|].
  change (x :: l) with ([x] ++ l).
  rewrite booked_app, booked_singleton, decide_False by congruence. by rewrite IH.
Qed.

Lemma remove_extras_spec extras : ∀ unassigned assignments,
  extras ⊆+ assignments →
  ∃ assignments',
    remove_extras extras unassigned assignments
      = Some (unassigned ++ (appt <$> extras), assignments')
    ∧ assignments ≡ₚ extras ++ assignments'
    ∧ assignments' `sublist_of` assignments.
Proof.
  induction extras as [|x extras IH]; intros u asg Hsub; simpl.
  - exists asg. by rewrite app_nil_r.
  - assert (x ∈ asg) as Hin.
    { eapply elem_of_submseteq; [|done]. apply elem_of_cons; by left. }
    destruct (list_remove_is_Some x asg Hin) as [asg1 Hrm]. rewrite Hrm. simpl.
    pose proof (list_remove_perm _ _ _ Hrm) as Hp1.
    pose proof (list_remove_sublist _ _ _ Hrm) as Hs1.
    apply submseteq_cons_l in Hsub as (k & Hk & Hsub).
    assert (asg1 ≡ₚ k) as Hk1.
    { apply (Permutation_cons_inv (a := x)). by rewrite <-Hp1, <-Hk. }
    rewrite <-Hk1 in Hsub.
    destruct (IH (u ++ [appt x]) asg1 Hsub) as (asg' & -> & Hp & Hs).
    exists asg'. split_and!.
    + by rewrite <-app_assoc.
    + by rewrite Hp1, Hp.
    + by etrans.
Qed.

Lemma resolve_double_booking_spec ra reps : ∀ unassigned assignments,
  (∀ r, 1 < length (appointments_of ra r) → 0 < booked r assignments)%nat →
  ∃ displaced assignments',
    resolve_double_booking reps ra unassigned assignments
      = Some (unassigned ++ displaced, assignments')
    ∧ assignments' `sublist_of` assignments
    ∧ appt <$> assignments ≡ₚ (appt <$> assignments') ++ displaced
    ∧ (∀ r, booked r assignments' = booked r assignments ∨ booked r assignments' = 1%nat)
    ∧ (∀ r, r ∈ reps → (1 < length (appointments_of ra r))%nat →
            booked r assignments' = 1%nat).
Proof.
  induction reps as [|rep reps IH]; intros u asg Hpre; simpl.
  - exists [], asg. rewrite !app_nil_r. split_and!; try done.
    + by left.
    + intros r Hr. by apply elem_of_nil in Hr.
  - destruct (decide (1 < length (appointments_of ra rep))%nat) as [Hlen|Hlen].
    + pose proof (sorted_perm float_lt drive_time
                    (filter (λ x, assigned_to x = rep) asg)) as Hsp.
      destruct (sorted float_lt drive_time (filter (λ x, assigned_to x = rep) asg))
        as [|kept extras] eqn:Hsorted.
      { specialize (Hpre rep Hlen). unfold booked in Hpre.
        apply Permutation_length in Hsp. simpl in Hsp. lia. }
      assert (Forall (λ x, assigned_to x = rep) (kept :: extras)) as Hall.
      { apply Forall_forall. intros x Hx. rewrite Hsp in Hx.
        by apply list_elem_of_filter in Hx as [? _]. }
      assert (extras ⊆+ asg) as Hsub.
      { trans (kept :: extras); [by apply submseteq_cons|].
        rewrite Hsp. apply sublist_submseteq, sublist_filter. }
      destruct (remove_extras_spec extras u asg Hsub) as (asg1 & -> & Hp1 & Hs1). simpl.
      assert (booked rep asg1 = 1%nat) as Hb1.
      { pose proof (booked_perm rep _ _ Hp1) as Hb. rewrite booked_app in Hb.
        rewrite (booked_all rep extras) in Hb by by inversion Hall.
        assert (booked rep asg = S (length extras)) as Hba.
        { unfold booked. by rewrite <-(Permutation_length Hsp). }
        lia. }
      assert (∀ r, r ≠ rep → booked r asg1 = booked r asg) as Hbo.
      { intros r Hr. rewrite (booked_perm r _ _ Hp1), booked_app.
        rewrite (booked_none rep r extras) by (done || by inversion Hall). done. }
      destruct (IH (u ++ (appt <$> extras)) asg1) as (disp & asg' & -> & Hs & Hp & Hb & Hr).
      { intros r Hl. destruct (decide (r = rep)) as [->|Hne]; [lia|].
        rewrite Hbo by done. by apply Hpre. }
      exists ((appt <$> extras) ++ disp), asg'. split_and!.
      * by rewrite <-app_assoc.
      * by etrans.
      * rewrite Hp1, fmap_app, Hp.
        rewrite (assoc (++)), (comm (++) (appt <$> extras)), <-(assoc (++)). done.
      * intros r. destruct (decide (r = rep)) as [->|Hne].
        -- right. destruct (Hb rep); lia.
        -- rewrite <-(Hbo r) by done. apply Hb.
      * intros r Hin Hl. apply elem_of_cons in Hin as [->|Hin]; [|by apply Hr].
        destruct (Hb rep); lia.
    + destruct (IH u asg Hpre) as (disp & asg' & -> & Hs & Hp & Hb & Hr).
      exists disp, asg'. split_and!; try done.
      intros r Hin Hl. apply elem_of_cons in Hin as [->|Hin]; [done|by apply Hr].
Qed.

(** ** The whole call *)

Lemma booked_sublist rep l1 l2 : l1 `sublist_of` l2 → (booked rep l1 ≤ booked rep l2)%nat.
Proof.
  induction 1 as [|x l1 l2 _ IH|x l1 l2 _ IH]; [done| |].
  - change (x :: l1) with ([x] ++ l1). change (x :: l2) with ([x] ++ l2).
    rewrite !booked_app. lia.
  - change (x :: l2) with ([x] ++ l2). rewrite booked_app. lia.
Qed.

Lemma appointments_of_fresh (sales_reps : roster) rep :
  appointments_of (list_to_map ((λ item, (item.1, [])) <$> sales_reps)) rep = [].
Proof.
  unfold appointments_of.
  destruct (list_to_map _ !! rep) as [v|] eqn:Hl; [|done]. simpl.
  apply elem_of_list_to_map_2 in Hl.
  apply list_elem_of_fmap in Hl as (item & Heq & _). by simplify_eq.
Qed.

(** Entries that each name a rep not named before name every rep at most
    once. *)
Lemma booked_fresh_le_1 (l : list assignment) :
  (∀ i x, l !! i = Some x → booked (assigned_to x) (take i l) = 0%nat) →
  ∀ rep, (booked rep l ≤ 1)%nat.
Proof.
  induction l as [|x l IH] using rev_ind; intros Hfresh rep; [rewrite booked_nil; lia|].
  rewrite booked_app, booked_singleton.
  assert (booked rep l ≤ 1)%nat as Hl.
  { apply IH. intros i y Hy.
    specialize (Hfresh i y). rewrite lookup_app_l in Hfresh by by eapply lookup_lt_Some.
    rewrite take_app_le in Hfresh by (apply lookup_lt_Some in Hy; lia). by apply Hfresh. }
  destruct (decide (assigned_to x = rep)) as [<-|]; [|lia].
  specialize (Hfresh (length l) x).
  rewrite list_lookup_middle, take_app_length in Hfresh by done.
  rewrite Hfresh by done. lia.
Qed.

Lemma assign_to_closest_rep_spec appointments sales_reps t_start t_end w converted :
  mapM (convert_apptdate strptime) appointments = Some converted →
  ∃ out,
    assign_to_closest_rep oracle strptime appointments sales_reps t_start t_end w = Some out
    ∧ appointments_after out = as_stored <$> converted
    ∧ (appt <$> returned out) ⊆+ filter_window t_start t_end converted
    ∧ (∀ rep, booked rep (returned out) ≤ 1)%nat
    ∧ Forall (λ x, ∃ details t, (assigned_to x, details) ∈ sales_reps
                     ∧ productid (appt x) ∈ scope details
                     ∧ drive_time x = Fin t) (returned out)
    ∧ (∀ a, a ∈ filter_window t_start t_end converted →
         a ∈ appt <$> returned out
         ∨ NoEligibleRep (custnumber a) (Zip a) ∈ printed (world_after out)
         ∨ CouldNotAssign (custnumber a) (Zip a) ∈ printed (world_after out))
    ∧ api_calls w `prefix_of` api_calls (world_after out)
    ∧ printed w `prefix_of` printed (world_after out).
Proof.
  intros Hconv. unfold assign_to_closest_rep. rewrite Hconv. simpl.
  set (filtered := filter_window t_start t_end converted).
  set (s0 := {| rep_appointments := list_to_map ((λ item, (item.1, [])) <$> sales_reps);
                appointment_assignments := [];
                closure := {| drive_time_cache := ∅; outside := w |} |}).
  (* Step 1 *)
  destruct (matching_pass_spec sales_reps (λ _ _, true) NoEligibleRep filtered s0)
    as (Hle1 & new1 & Hasg1 & Hsub1 & Hel1 & Hlen1 & Hcov1 & _).
  rewrite <-initial_pass_foldl in Hle1, Hasg1, Hlen1, Hcov1.
  set (s1 := initial_pass oracle sales_reps filtered s0) in *.
  simpl in Hasg1.
  assert (∀ r, length (appointments_of (rep_appointments s1) r) = booked r new1) as Hlen1'.
  { intros r. rewrite Hlen1. unfold s0; simpl. by rewrite appointments_of_fresh. }
  (* Step 2 *)
  destruct (resolve_double_booking_spec (rep_appointments s1) sales_reps.*1 []
              (appointment_assignments s1))
    as (disp & asg2 & Hres & Hsub2 & Hperm2 & Hb2 & Hk2).
  { intros r. rewrite Hlen1', Hasg1. lia. }
  rewrite Hres. simpl.
  rewrite Hasg1 in Hsub2, Hperm2, Hb2.
  assert (Forall (λ x, ∃ details t, (assigned_to x, details) ∈ sales_reps
                     ∧ productid (appt x) ∈ scope details
                     ∧ drive_time x = Fin t) asg2) as Hel2.
  { rewrite Forall_forall in Hel1. apply Forall_forall. intros x Hx. apply Hel1.
    eapply elem_of_submseteq; [done|by apply sublist_submseteq]. }
  assert (∀ r, booked r asg2 ≤ 1)%nat as Hb2'.
  { intros r. destruct (decide (booked r new1 ≤ 1)%nat) as [?|Hgt].
    - destruct (Hb2 r); lia.
    - rewrite Hk2; [done| |rewrite Hlen1'; lia].
      assert (0 < booked r new1)%nat as Hpos by lia.
      apply booked_pos in Hpos as (x & Hx & <-).
      rewrite Forall_forall in Hel1. destruct (Hel1 x Hx) as (details & ? & Hin & _).
      apply list_elem_of_fmap. by exists (assigned_to x, details). }
  (* Step 3 *)
  set (s2 := {| rep_appointments := rep_appointments s1;
                appointment_assignments := asg2;
                closure := closure s1 |}).
  destruct (matching_pass_spec sales_reps
              (λ s rep, bool_decide (appointments_of (rep_appointments s) rep = []))
              CouldNotAssign disp s2)
    as (Hle3 & new3 & Hasg3 & Hsub3 & Hel3 & Hlen3 & Hcov3 & Hidle3).
  rewrite <-reassign_pass_foldl in Hle3, Hasg3, Hlen3, Hcov3.
  set (s3 := reassign_pass oracle sales_reps disp s2) in *.
  simpl in Hasg3, Hle3.
  eexists. split; [reflexivity|]. simpl. rewrite Hasg3.
  assert (∀ i x, new3 !! i = Some x →
            booked (assigned_to x) new1 = 0 ∧ booked (assigned_to x) (take i new3) = 0)%nat
    as Hfresh.
  { intros i x Hx. destruct (Hidle3 i x Hx) as (s_mid & Hmid & Hl).
    apply bool_decide_eq_true in Hmid. specialize (Hl (assigned_to x)).
    rewrite Hmid in Hl. simpl in Hl. rewrite Hlen1' in Hl. lia. }
  split_and!.
  - done.
  - rewrite fmap_app.
    trans ((appt <$> asg2) ++ disp).
    { apply submseteq_skips_l. by apply sublist_submseteq. }
    rewrite <-Hperm2. by apply sublist_submseteq.
  - intros rep. rewrite booked_app.
    assert (booked rep new3 ≤ 1)%nat as H3.
    { apply booked_fresh_le_1. intros i x Hx. by apply Hfresh in Hx as [_ ?]. }
    destruct (decide (booked rep new3 = 0)%nat) as [->|Hne]; [specialize (Hb2' rep); lia|].
    assert (0 < booked rep new3)%nat as Hpos by lia.
    apply booked_pos in Hpos as (x & Hx & <-).
    apply list_elem_of_lookup in Hx as [i Hi]. apply Hfresh in Hi as [H1 _].
    pose proof (booked_sublist (assigned_to x) _ _ Hsub2). lia.
  - apply Forall_app. by split.
  - intros a Ha. destruct (Hcov1 a Ha) as [Hin|Hd].
    + assert (a ∈ (appt <$> asg2) ++ disp) as Hin' by by rewrite <-Hperm2.
      apply elem_of_app in Hin' as [Hin'|Hin'].
      * left. rewrite fmap_app. apply elem_of_app. by left.
      * destruct (Hcov3 a Hin') as [?|?]; [left|by right; right].
        rewrite fmap_app. apply elem_of_app. by right.
    + right; left. destruct Hle3 as (_ & _ & Hp). by eapply elem_of_prefix.
  - destruct Hle1 as (_ & Hp1 & _), Hle3 as (_ & Hp3 & _). by etrans.
  - destruct Hle1 as (_ & _ & Hp1), Hle3 as (_ & _ & Hp3). by etrans.
Qed.

(** ** The search picks the first least drive time *)

Lemma float_lt_Fin a b : float_lt (Fin a) (Fin b) = bool_decide (a < b)%Qc.
Proof. done. Qed.

Lemma closest_rep_loop_drive_times z p items : ∀ c m e c' m' e',
  closest_rep_loop oracle z p (λ _, true) (c, m, e) items = (c', m', e') →
  (c' = c ∧ m' = m
   ∧ ∀ j rep t, drive_times oracle z p items e !! j = Some (rep, Some t) →
       float_lt (Fin t) m = false)
  ∨ ∃ i rep t,
      drive_times oracle z p items e !! i = Some (rep, Some t)
      ∧ c' = Some rep ∧ m' = Fin t ∧ float_lt (Fin t) m = true
      ∧ (∀ j rep' t', drive_times oracle z p items e !! j = Some (rep', Some t') →
           (t ≤ t')%Qc)
      ∧ (∀ j rep' t', (j < i)%nat →
           drive_times oracle z p items e !! j = Some (rep', Some t') → (t < t')%Qc).
Proof.
  induction items as [|[rep details] items IH]; intros c m e c' m' e' Hl; simpl in Hl.
  - simplify_eq. left. by split_and!.
  - unfold closest_rep_step in Hl. simpl. rewrite andb_true_r in Hl.
    destruct (bool_decide (p ∈ scope details)) eqn:Hs; [|by eapply IH].
    destruct (get_drive_time oracle z (curr_zip details) e) as [[t|] e1] eqn:Hg; simpl.
    + destruct (float_lt (Fin t) m) eqn:Hlt.
      * (* the new rep is closer than all before *)
        apply IH in Hl as [(-> & -> & Hrest)|(i & r & t1 & Hi & -> & -> & Hlt1 & Hmin & Hfirst)].
        -- right. exists 0%nat, rep, t. split_and!; try done.
           ++ intros [|j] rep' t' Hj; simpl in Hj; [by simplify_eq|].
              apply Hrest in Hj. rewrite float_lt_Fin in Hj.
              apply bool_decide_eq_false in Hj. by apply Qcle_ngt.
           ++ intros j rep' t' Hj. lia.
        -- rewrite float_lt_Fin in Hlt1. apply bool_decide_eq_true in Hlt1.
           right. exists (S i), r, t1. split_and!; try done.
           ++ destruct m as [mq|]; [|done].
              rewrite !float_lt_Fin in *. apply bool_decide_eq_true in Hlt.
              apply bool_decide_eq_true. by etrans.
           ++ intros [|j] rep' t' Hj; simpl in Hj; [|by eapply Hmin].
              simplify_eq. by apply Qclt_le_weak.
           ++ intros [|j] rep' t' Hji Hj; simpl in Hj; [by simplify_eq|].
              eapply Hfirst; [|done]. lia.
      * (* the new rep is not closer *)
        apply IH in Hl as [(-> & -> & Hrest)|(i & r & t1 & Hi & -> & -> & Hlt1 & Hmin & Hfirst)].
        -- left. split_and!; try done.
           intros [|j] rep' t' Hj; simpl in Hj; [by simplify_eq|by eapply Hrest].
        -- assert (t1 < t)%Qc as Hless.
           { destruct m as [mq|]; [|done]. rewrite !float_lt_Fin in *.
             apply bool_decide_eq_true in Hlt1. apply bool_decide_eq_false in Hlt.
             eapply Qclt_le_trans; [done|]. by apply Qcle_ngt. }
           right. exists (S i), r, t1. split_and!; try done.
           ++ intros [|j] rep' t' Hj; simpl in Hj; [|by eapply Hmin].
              simplify_eq. by apply Qclt_le_weak.
           ++ intros [|j] rep' t' Hji Hj; simpl in Hj; [by simplify_eq|].
              eapply Hfirst; [|done]. lia.
    + (* the lookup failed: the rep is passed over *)
      apply IH in Hl as [(-> & -> & Hrest)|(i & r & t1 & Hi & -> & -> & Hlt1 & Hmin & Hfirst)].
      * left. split_and!; try done.
        intros [|j] rep' t' Hj; simpl in Hj; [by simplify_eq|by eapply Hrest].
      * right. exists (S i), r, t1. split_and!; try done.
        -- intros [|j] rep' t' Hj; simpl in Hj; [by simplify_eq|by eapply Hmin].
        -- intros [|j] rep' t' Hji Hj; simpl in Hj; [by simplify_eq|].
           eapply Hfirst; [|done]. lia.
Qed.

Lemma truthy_Some c rep : truthy c = Some rep → c = Some rep.
Proof.
  destruct c as [r|]; simpl; [|done]. by destruct (decide (r = "")); intros; simplify_eq.
Qed.

(** Every entry the initial pass adds comes from the search run for its
    appointment, in the state the pass had reached. *)
Lemma initial_pass_candidates sales_reps l : ∀ s x,
  x ∈ appointment_assignments (initial_pass oracle sales_reps l s) →
  x ∈ appointment_assignments s
  ∨ ∃ pre post e',
      l = pre ++ appt x :: post
      ∧ find_closest_rep oracle (appt x) (λ _, true) sales_reps
          (closure (initial_pass oracle sales_reps pre s))
        = (Some (assigned_to x), drive_time x, e').
Proof.
  induction l as [|a l IH]; intros s x Hx; simpl in Hx; [by left|].
  apply IH in Hx as [Hx|(pre & post & e' & -> & Hf)].
  - unfold match_appointment in Hx.
    destruct (find_closest_rep oracle a (λ _, true) sales_reps (closure s))
      as [[c m] e1] eqn:Hf.
    destruct (truthy c) as [rep|] eqn:Ht; simpl in Hx; [|by left].
    apply truthy_Some in Ht as ->.
    apply elem_of_app in Hx as [Hx|Hx]; [by left|].
    apply list_elem_of_singleton in Hx as ->. right.
    exists [], l, e1. by split.
  - right. exists (a :: pre), post, e'. by split.
Qed.

(** ** Sorting by time *)

Lemma sorted_insert_by_time (x : appointment datetime) l :
  StronglySorted (λ a b, apptdate a ≤ apptdate b)%Z l →
  StronglySorted (λ a b, apptdate a ≤ apptdate b)%Z (sorted_insert Z.ltb apptdate x l).
Proof.
  induction 1 as [|y l Hs IH Hy]; simpl; [by repeat constructor|].
  destruct (_ <? _)%Z eqn:Hlt;
    [apply Z.ltb_lt in Hlt|apply Z.ltb_ge in Hlt].
  - constructor; [done|]. apply Forall_forall. intros b Hb.
    rewrite sorted_insert_perm in Hb. apply elem_of_cons in Hb as [->|Hb]; [lia|].
    rewrite Forall_forall in Hy. by apply Hy.
  - constructor; [by constructor|]. constructor; [done|].
    eapply Forall_impl; [done|]. simpl. intros. lia.
Qed.

Lemma sorted_by_time (l : list (appointment datetime)) :
  StronglySorted (λ a b, apptdate a ≤ apptdate b)%Z (sorted Z.ltb apptdate l).
Proof.
  induction l as [|x l IH]; simpl; [constructor|]. by apply sorted_insert_by_time.
Qed.

Lemma last_by_time (l : list (appointment datetime)) a :
  StronglySorted (λ a b, apptdate a ≤ apptdate b)%Z l →
  last l = Some a → ∀ b, b ∈ l → (apptdate b ≤ apptdate a)%Z.
Proof.
  induction 1 as [|y l Hs IH Hy]; intros Hl b Hb; [done|].
  destruct l as [|y' l'].
  - simpl in Hl. simplify_eq. by apply list_elem_of_singleton in Hb as ->.
  - change (last (y' :: l') = Some a) in Hl.
    apply elem_of_cons in Hb as [->|Hb]; [|by apply IH].
    rewrite Forall_forall in Hy. apply Hy. by eapply last_Some_elem_of.
Qed.

(** The last of the sorted group is one of the group, and none is later. *)
Lemma last_sorted_latest (l : list (appointment datetime)) :
  l ≠ [] →
  ∃ a, last (sorted Z.ltb apptdate l) = Some a ∧ a ∈ l
       ∧ ∀ b, b ∈ l → (apptdate b ≤ apptdate a)%Z.
Proof.
  intros Hne. pose proof (sorted_perm Z.ltb apptdate l) as Hp.
  destruct (last (sorted Z.ltb apptdate l)) as [a|] eqn:Hl.
  - exists a. split; [done|]. split.
    + rewrite <-Hp. by eapply last_Some_elem_of.
    + intros b Hb. eapply last_by_time; [apply sorted_by_time|done|by rewrite Hp].
  - apply last_None in Hl. rewrite Hl in Hp. apply Permutation_nil_l in Hp. done.
Qed.

(** ** Grouping by representative *)

Lemma group_append_keys rep a groups :
  (group_append rep a groups).*1
  = if decide (rep ∈ groups.*1) then groups.*1 else groups.*1 ++ [rep].
Proof.
  induction groups as [|[r0 l0] groups IH]; [done|].
  rewrite fmap_cons. cbn [group_append fst].
  destruct (decide (r0 = rep)) as [->|Hne].
  - rewrite fmap_cons. cbn [fst]. rewrite decide_True; [done|]. apply elem_of_cons; by left.
  - rewrite fmap_cons, IH. cbn [fst].
    destruct (decide (rep ∈ groups.*1)) as [Hin|Hnin].
    + rewrite decide_True; [done|]. apply elem_of_cons; by right.
    + rewrite decide_False; [done|]. intros [?|?]%elem_of_cons; done.
Qed.

Lemma group_append_elem_of rep a groups r l :
  NoDup groups.*1 →
  (r, l) ∈ group_append rep a groups →
  (r ≠ rep ∧ (r, l) ∈ groups)
  ∨ (r = rep ∧ ∃ l0, (rep, l0) ∈ groups ∧ l = l0 ++ [a])
  ∨ (r = rep ∧ (rep ∉ groups.*1) ∧ l = [a]).
Proof.
  induction groups as [|[r0 l0] groups IH]; simpl; intros Hnd Hin.
  - apply list_elem_of_singleton in Hin. simplify_eq.
    right; right. split_and!; try done. apply not_elem_of_nil.
  - apply NoDup_cons in Hnd as [Hr0 Hnd].
    destruct (decide (r0 = rep)) as [->|Hne].
    + apply elem_of_cons in Hin as [Heq|Hin].
      * simplify_eq. right; left. split; [done|]. exists l0.
        split; [apply elem_of_cons; by left|done].
      * left. split; [|apply elem_of_cons; by right].
        intros ->. apply Hr0. apply list_elem_of_fmap. by exists (rep, l).
    + apply elem_of_cons in Hin as [Heq|Hin].
      * simplify_eq. left. split; [done|apply elem_of_cons; by left].
      * destruct (IH Hnd Hin) as [[? ?]|[(-> & l1 & ? & ->)|(-> & ? & ->)]].
        -- left. split; [done|apply elem_of_cons; by right].
        -- right; left. split; [done|]. exists l1.
           split; [apply elem_of_cons; by right|done].
        -- right; right. split_and!; try done.
           simpl. intros [?|?]%elem_of_cons; done.
Qed.

(** [groups] is the grouping of the entries [done_]. *)
Lemma group_by_rep_spec assignments : ∀ groups done_,
  NoDup groups.*1 →
  (∀ r l, (r, l) ∈ groups →
     l ≠ [] ∧ l = appt <$> filter (λ y, assigned_to y = r) done_) →
  (∀ y, y ∈ done_ → assigned_to y ∈ groups.*1) →
  NoDup (group_by_rep assignments groups).*1
  ∧ (∀ r l, (r, l) ∈ group_by_rep assignments groups →
       l ≠ [] ∧ l = appt <$> filter (λ y, assigned_to y = r) (done_ ++ assignments))
  ∧ (∀ y, y ∈ done_ ++ assignments →
       assigned_to y ∈ (group_by_rep assignments groups).*1).
Proof.
  induction assignments as [|x asg IH]; intros groups done_ Hnd Hgr Hin; simpl.
  - by rewrite app_nil_r.
  - replace (done_ ++ x :: asg) with ((done_ ++ [x]) ++ asg) by by rewrite <-app_assoc.
    assert (∀ r, r ≠ assigned_to x →
      filter (λ y, assigned_to y = r) (done_ ++ [x])
      = filter (λ y, assigned_to y = r) done_) as Hother.
    { intros r Hr. rewrite filter_app, filter_cons, filter_nil.
      rewrite decide_False by done. by rewrite app_nil_r. }
    assert (filter (λ y, assigned_to y = assigned_to x) (done_ ++ [x])
      = filter (λ y, assigned_to y = assigned_to x) done_ ++ [x]) as Hsame.
    { rewrite filter_app, filter_cons, filter_nil. by rewrite decide_True. }
    apply IH.
    + rewrite group_append_keys. destruct (decide _) as [?|Hnin]; [done|].
      apply NoDup_app. split_and!; [done| |apply NoDup_singleton].
      intros r Hr ->%list_elem_of_singleton. done.
    + intros r l Hrl.
      apply group_append_elem_of in Hrl; [|done].
      destruct Hrl as [[Hne Hrl]|[(-> & l0 & Hrl & ->)|(-> & Hnin & ->)]].
      * rewrite Hother by done. by apply Hgr.
      * destruct (Hgr _ _ Hrl) as [? Hl0]. split; [by destruct l0|].
        by rewrite Hsame, fmap_app, <-Hl0.
      * split; [done|]. rewrite Hsame.
        replace (filter _ done_) with (@nil assignment); [done|].
        symmetry. apply filter_rep_nil. intros y Hy Heq.
        apply Hnin. rewrite <-Heq. by apply Hin.
    + intros y Hy. rewrite group_append_keys.
      apply elem_of_app in Hy as [Hy|Hy].
      * apply Hin in Hy. destruct (decide _); [done|]. apply elem_of_app; by left.
      * apply list_elem_of_singleton in Hy as ->. destruct (decide _); [done|].
        apply elem_of_app; right. by apply list_elem_of_singleton.
Qed.

(** ** Updating the roster *)

Lemma set_curr_zip_total rep zip (sales_reps : roster) :
  rep ∈ sales_reps.*1 →
  ∃ sales_reps', set_curr_zip rep zip sales_reps = Some sales_reps'
                 ∧ sales_reps'.*1 = sales_reps.*1.
Proof.
  induction sales_reps as [|[r d] sr IH]; intros Hin; [by apply elem_of_nil in Hin|].
  simpl. destruct (decide (r = rep)) as [->|Hne]; [eauto|].
  rewrite fmap_cons in Hin. apply elem_of_cons in Hin as [?|Hin]; [done|].
  destruct (IH Hin) as (sr' & -> & Hk). simpl. eexists. split; [done|].
  by rewrite !fmap_cons, Hk.
Qed.

Lemma set_curr_zip_keys rep zip (sales_reps sales_reps' : roster) :
  set_curr_zip rep zip sales_reps = Some sales_reps' → sales_reps'.*1 = sales_reps.*1.
Proof.
  revert sales_reps'.
  induction sales_reps as [|[r d] sr IH]; intros sr' Hs; simpl in Hs; [done|].
  destruct (decide (r = rep)) as [->|Hne]; [by simplify_eq|].
  destruct (set_curr_zip rep zip sr) as [sr1|] eqn:Hs1; simplify_eq/=.
  by rewrite (IH sr1).
Qed.

Lemma set_curr_zip_lookup rep zip (sales_reps sales_reps' : roster) :
  NoDup sales_reps.*1 →
  set_curr_zip rep zip sales_reps = Some sales_reps' →
  ∀ i r d, sales_reps !! i = Some (r, d) →
    sales_reps' !! i
    = Some (r, if decide (r = rep) then {| curr_zip := zip; scope := scope d |} else d).
Proof.
  revert sales_reps'.
  induction sales_reps as [|[r0 d0] sr IH]; intros sr' Hnd Hs i r d Hi; [done|].
  rewrite fmap_cons in Hnd. apply NoDup_cons in Hnd as [Hr0 Hnd]. simpl in Hs.
  destruct (decide (r0 = rep)) as [->|Hne].
  - simplify_eq. destruct i as [|i]; simpl in *.
    + simplify_eq. by rewrite decide_True.
    + rewrite Hi. rewrite decide_False; [done|]. intros ->. apply Hr0.
      apply list_elem_of_fmap. exists (rep, d). split; [done|].
      by eapply list_elem_of_lookup_2.
  - destruct (set_curr_zip rep zip sr) as [sr1|] eqn:Hs1; simplify_eq/=.
    destruct i as [|i]; simpl in *.
    + simplify_eq. by rewrite decide_False.
    + by eapply IH.
Qed.

Lemma update_loop_total groups : ∀ sales_reps : roster,
  (∀ r l, (r, l) ∈ groups → l ≠ [] ∧ r ∈ sales_reps.*1) →
  ∃ sales_reps', update_loop groups sales_reps = Some sales_reps'
                 ∧ sales_reps'.*1 = sales_reps.*1.
Proof.
  induction groups as [|[rep l] groups IH]; intros sr Hg; simpl; [eauto|].
  destruct (Hg rep l) as [Hl Hin]; [apply elem_of_cons; by left|].
  destruct (last_sorted_latest l Hl) as (a & -> & _). simpl.
  destruct (set_curr_zip_total rep (Zip a) sr Hin) as (sr1 & -> & Hk1). simpl.
  destruct (IH sr1) as (sr' & -> & Hk).
  - intros r l' Hrl. rewrite Hk1. apply Hg. apply elem_of_cons; by right.
  - exists sr'. split; [done|]. by rewrite Hk.
Qed.

Lemma update_loop_lookup groups : ∀ sales_reps sales_reps' : roster,
  NoDup groups.*1 → NoDup sales_reps.*1 →
  update_loop groups sales_reps = Some sales_reps' →
  ∀ i r d, sales_reps !! i = Some (r, d) →
    ∃ d', sales_reps' !! i = Some (r, d') ∧ scope d' = scope d
      ∧ (((r ∉ groups.*1) ∧ d' = d)
         ∨ ∃ l a, (r, l) ∈ groups ∧ last (sorted Z.ltb apptdate l) = Some a
                  ∧ curr_zip d' = Zip a).
Proof.
  induction groups as [|[rep l] groups IH]; intros sr sr' Hndg Hnd Hu i r d Hi; simpl in Hu.
  - simplify_eq. exists d. split_and!; try done. left. split; [apply not_elem_of_nil|done].
  - rewrite fmap_cons in Hndg. apply NoDup_cons in Hndg as [Hrep Hndg].
    destruct (last (sorted Z.ltb apptdate l)) as [a|] eqn:Hl; simplify_eq/=.
    destruct (set_curr_zip rep (Zip a) sr) as [sr1|] eqn:Hs; simplify_eq/=.
    pose proof (set_curr_zip_lookup _ _ _ _ Hnd Hs i r d Hi) as Hi1.
    pose proof (set_curr_zip_keys _ _ _ _ Hs) as Hk1.
    destruct (IH sr1 sr' Hndg) with (i := i) (r := r)
      (d := if decide (r = rep) then {| curr_zip := Zip a; scope := scope d |} else d)
      as (d' & Hi' & Hsc & Hd'); [by rewrite Hk1|done|done|].
    exists d'. split; [done|]. split; [rewrite Hsc; by destruct (decide (r = rep))|].
    destruct Hd' as [[Hnin ->]|(l' & a' & Hrl & Hl' & Hz)].
    + destruct (decide (r = rep)) as [->|Hne].
      * right. exists l, a. split_and!; [apply elem_of_cons; by left|done|done].
      * left. split; [|done]. intros [?|?]%elem_of_cons; done.
    + right. exists l', a'. split_and!; [apply elem_of_cons; by right|done|done].
Qed.

(** ** Conversion of the time stamps *)

Lemma convert_apptdate_fields a b :
  convert_apptdate strptime a = Some b →
  custnumber b = custnumber a ∧ Zip b = Zip a ∧ productid b = productid a
  ∧ dsp_id b = dsp_id a
  ∧ match apptdate a with
    | DateStr str => strptime str = Some (apptdate b)
    | DateObj t => apptdate b = t
    end.
Proof.
  unfold convert_apptdate. destruct (apptdate a) as [str|t] eqn:Ha.
  - destruct (strptime str) as [t|]; intros; simplify_eq/=. done.
  - intros; simplify_eq/=. done.
Qed.

Lemma convert_apptdate_stored b : convert_apptdate strptime (as_stored b) = Some b.
Proof. by destruct b. Qed.

Lemma mapM_convert_stored converted :
  mapM (convert_apptdate strptime) (as_stored <$> converted) = Some converted.
Proof.
  apply mapM_Some. apply Forall2_fmap_l, Forall_Forall2_diag, Forall_forall.
  intros b _. apply convert_apptdate_stored.
Qed.

Lemma convert_custnumbers appointments converted :
  mapM (convert_apptdate strptime) appointments = Some converted →
  custnumber <$> converted = custnumber <$> appointments.
Proof.
  intros Hc%mapM_Some. induction Hc as [|a b l k Hab _ IH]; [done|].
  rewrite !fmap_cons, IH. f_equal. by apply convert_apptdate_fields in Hab as [-> _].
Qed.

Lemma assign_to_closest_rep_converted appointments sales_reps t_start t_end w out :
  assign_to_closest_rep oracle strptime appointments sales_reps t_start t_end w = Some out →
  ∃ converted, mapM (convert_apptdate strptime) appointments = Some converted.
Proof.
  unfold assign_to_closest_rep.
  destruct (mapM (convert_apptdate strptime) appointments) as [converted|]; [eauto|done].
Qed.

(** ** The roster update as a whole *)

Lemma group_by_rep_all assignments :
  NoDup (group_by_rep assignments []).*1
  ∧ (∀ r l, (r, l) ∈ group_by_rep assignments [] →
       l ≠ [] ∧ l = appt <$> filter (λ y, assigned_to y = r) assignments)
  ∧ (∀ y, y ∈ assignments → assigned_to y ∈ (group_by_rep assignments []).*1).
Proof.
  apply (group_by_rep_spec assignments [] []).
  - constructor.
  - intros r l Hrl. by apply elem_of_nil in Hrl.
  - intros y Hy. by apply elem_of_nil in Hy.
Qed.

Lemma update_sales_reps_zip_total assignments (sales_reps : roster) :
  (∀ x, x ∈ assignments → assigned_to x ∈ sales_reps.*1) →
  ∃ sales_reps', update_sales_reps_zip assignments sales_reps = Some sales_reps'
                 ∧ sales_reps'.*1 = sales_reps.*1.
Proof.
  intros Hin. destruct (group_by_rep_all assignments) as (_ & Hgr & _).
  apply update_loop_total. intros r l Hrl. destruct (Hgr r l Hrl) as [Hne Hl].
  split; [done|]. destruct l as [|a l]; [done|].
  destruct (filter (λ y, assigned_to y = r) assignments) as [|y k] eqn:Hf; [done|].
  assert (y ∈ filter (λ y, assigned_to y = r) assignments) as Hy
    by (rewrite Hf; apply elem_of_cons; by left).
  apply list_elem_of_filter in Hy as [<- Hy]. by apply Hin.
Qed.

(** ** Windows *)

Lemma run_workflow_spec appointments sales_reps t_start t_end n allow w converted :
  mapM (convert_apptdate strptime) appointments = Some converted →
  ∃ r xs,
    run_workflow oracle strptime zip_to_city modify_sales_reps appointments sales_reps
      t_start t_end n allow w = Some r
    ∧ store_after r = as_stored <$> converted
    ∧ results r = row_of zip_to_city <$> xs
    ∧ Forall (λ x, in_window t_start t_end (appt x) ∧ appt x ∈ converted) xs.
Proof.
  intros Hconv. unfold run_workflow, process_time_window.
  destruct (assign_to_closest_rep_spec appointments sales_reps t_start t_end w converted Hconv)
    as (out & -> & Hafter & Hsub & _ & Hel & _). simpl.
  destruct (update_sales_reps_zip_total (returned out) sales_reps) as (sr1 & -> & _).
  { intros x Hx. rewrite Forall_forall in Hel.
    destruct (Hel x Hx) as (details & _ & Hin & _).
    apply list_elem_of_fmap. by exists (assigned_to x, details). }
  simpl. eexists _, (returned out). split; [done|]. simpl. split_and!; try done.
  apply Forall_forall. intros x Hx.
  assert (appt x ∈ filter_window t_start t_end converted) as Ha.
  { eapply elem_of_submseteq; [|done]. apply list_elem_of_fmap. eauto. }
  by apply list_elem_of_filter in Ha.
Qed.

Lemma run_windows_spec converted windows : ∀ appointments sales_reps all_results w,
  mapM (convert_apptdate strptime) appointments = Some converted →
  ∃ blocks sales_reps' w',
    run_windows oracle strptime zip_to_city modify_sales_reps windows appointments
      sales_reps all_results w = Some (all_results ++ concat blocks, sales_reps', w')
    ∧ Forall2 (λ win block, ∃ xs,
         block = WindowTitle win.1.1.1 :: (row_of zip_to_city <$> xs) ++ [BlankRow]
         ∧ Forall (λ x, in_window win.1.1.2 win.1.2 (appt x) ∧ appt x ∈ converted) xs)
       windows blocks.
Proof.
  induction windows as [|[[[n t_start] t_end] allow] windows IH];
    intros appointments sales_reps all_results w Hconv; simpl.
  - exists [], sales_reps, w. simpl. rewrite app_nil_r. split; [done|constructor].
  - destruct (run_workflow_spec appointments sales_reps t_start t_end n allow w converted Hconv)
      as (r & xs & -> & Hstore & Hres & Hxs). simpl.
    destruct (IH (store_after r) (roster_after r)
                (all_results ++ WindowTitle n :: results r ++ [BlankRow]) (world_then r))
      as (blocks & sr' & w' & -> & Hblocks).
    { rewrite Hstore. apply mapM_convert_stored. }
    exists ((WindowTitle n :: results r ++ [BlankRow]) :: blocks), sr', w'. split.
    + rewrite concat_cons. by rewrite (assoc (++) all_results).
    + constructor; [|done]. exists xs. simpl. by rewrite Hres.
Qed.

(** * The claims *)

(** C1. The list returned by [assign_to_closest_rep] for a window names no
    representative twice; and, the appointments having distinct customer
    numbers as the importer's contract says, it holds no appointment twice. *)
Theorem C1_final_assignments_injective appointments sales_reps t_start t_end w out :
  assign_to_closest_rep oracle strptime appointments sales_reps t_start t_end w = Some out →
  NoDup (assigned_to <$> returned out)
  ∧ (NoDup (custnumber <$> appointments) → NoDup (appt <$> returned out)).
Proof.
  intros Hrun.
  destruct (assign_to_closest_rep_converted _ _ _ _ _ _ Hrun) as [converted Hconv].
  destruct (assign_to_closest_rep_spec appointments sales_reps t_start t_end w converted Hconv)
    as (out' & Hrun' & _ & Hsub & Hbooked & _).
  rewrite Hrun in Hrun'. simplify_eq. split.
  - by apply booked_le_1_NoDup.
  - intros Hnd. rewrite <-(convert_custnumbers _ _ Hconv) in Hnd.
    apply NoDup_fmap_1 in Hnd.
    assert (appt <$> returned out' ⊆+ converted) as Hsub'.
    { etrans; [done|]. apply sublist_submseteq, sublist_filter. }
    apply submseteq_Permutation in Hsub' as [k Hk]. rewrite Hk in Hnd.
    by apply NoDup_app in Hnd as [? _].
Qed.

(** C2. Every entry of the list returned by [assign_to_closest_rep], whether
    it was made by the initial pass or by the reassignment pass, names a
    representative of the roster whose scope holds the appointment's
    [productid]. *)
Theorem C2_assigned_rep_in_scope appointments sales_reps t_start t_end w out :
  assign_to_closest_rep oracle strptime appointments sales_reps t_start t_end w = Some out →
  ∀ x, x ∈ returned out →
    ∃ details, (assigned_to x, details) ∈ sales_reps
               ∧ productid (appt x) ∈ scope details.
Proof.
  intros Hrun x Hx.
  destruct (assign_to_closest_rep_converted _ _ _ _ _ _ Hrun) as [converted Hconv].
  destruct (assign_to_closest_rep_spec appointments sales_reps t_start t_end w converted Hconv)
    as (out' & Hrun' & _ & _ & _ & Hel & _).
  rewrite Hrun in Hrun'. simplify_eq.
  rewrite Forall_forall in Hel. destruct (Hel x Hx) as (details & t & ? & ? & _). eauto.
Qed.

(** C3. In the initial pass, an entry added for an appointment carries the
    least of the drive times the search obtained for that appointment from
    the representatives whose scope holds its product (failed lookups
    apart), and names the first representative, in roster order, with that
    drive time. *)
Theorem C3_initial_pass_greedy sales_reps filtered s x :
  appointment_assignments s = [] →
  x ∈ appointment_assignments (initial_pass oracle sales_reps filtered s) →
  ∃ pre post t,
    filtered = pre ++ appt x :: post
    ∧ drive_time x = Fin t
    ∧ first_least
        (drive_times oracle (Zip (appt x)) (productid (appt x)) sales_reps
           (closure (initial_pass oracle sales_reps pre s)))
        (assigned_to x) t.
Proof.
  intros Hempty Hx.
  apply initial_pass_candidates in Hx as [Hx|(pre & post & e' & Hl & Hf)].
  { rewrite Hempty in Hx. by apply elem_of_nil in Hx. }
  unfold find_closest_rep in Hf.
  apply closest_rep_loop_drive_times in Hf
    as [(? & _)|(i & rep & t & Hi & Hrep & Hm & _ & Hmin & Hfirst)]; [done|].
  simplify_eq. exists pre, post, t. rewrite Hm. split_and!; try done.
  exists i. by split_and!.
Qed.

(** C4. [update_sales_reps_zip], run on an assignment list whose
    representatives are all in the roster, leaves the roster's names, order
    and scopes as they were; a representative with an entry in the list gets
    as [curr_zip] the [Zip] of one of its appointments in the list than which
    none of them is later; a representative with no entry keeps its details
    unchanged. *)
Theorem C4_update_sales_reps_zip assignments (sales_reps : roster) :
  NoDup sales_reps.*1 →
  (∀ x, x ∈ assignments → assigned_to x ∈ sales_reps.*1) →
  ∃ sales_reps',
    update_sales_reps_zip assignments sales_reps = Some sales_reps'
    ∧ carried_over assignments sales_reps sales_reps'.
Proof.
  intros Hnd Hin.
  destruct (update_sales_reps_zip_total assignments sales_reps Hin) as (sr' & Hu & Hk).
  exists sr'. split; [done|]. split; [done|].
  intros i rep details Hi.
  destruct (group_by_rep_all assignments) as (Hndg & Hgr & Hcov).
  destruct (update_loop_lookup _ _ _ Hndg Hnd Hu i rep details Hi)
    as (d' & Hi' & Hsc & Hd').
  exists d'. split_and!; try done.
  - intros Hzero. destruct Hd' as [[_ ->]|(l & a & Hrl & _ & _)]; [done|].
    destruct (Hgr rep l Hrl) as [Hne Hl]. exfalso. apply Hne. rewrite Hl.
    unfold booked in Hzero. apply nil_length_inv in Hzero. by rewrite Hzero.
  - intros Hpos. apply booked_pos in Hpos as (y0 & Hy0 & Hrep0).
    destruct Hd' as [[Hnin _]|(l & a & Hrl & Hlast & Hzip)].
    { exfalso. apply Hnin. rewrite <-Hrep0. by apply Hcov. }
    destruct (Hgr rep l Hrl) as [Hne Hl].
    destruct (last_sorted_latest l Hne) as (a' & Hlast' & Ha & Hmax).
    rewrite Hlast in Hlast'. simplify_eq.
    apply list_elem_of_fmap in Ha as (x & -> & Hx).
    apply list_elem_of_filter in Hx as [Hxr Hx].
    exists x. split_and!; try done.
    intros y Hy Hyr. apply Hmax. apply list_elem_of_fmap. exists y. split; [done|].
    by apply list_elem_of_filter.
Qed.

(** C5, as amended.  The cache is keyed by the unordered pair, so once an
    entry is there both orders of a pair read it, with no oracle call and no
    change of state; a successful lookup stores its value, so the next lookup
    of the pair in either order returns the same value without another oracle
    call.  A failed lookup stores nothing: the cache is as before, and the
    next lookup of the pair calls the oracle again. *)
Theorem C5_lookup_symmetric_once_stored zip1 zip2 e :
  (∀ t, drive_time_cache e !! cache_key zip1 zip2 = Some t →
     get_drive_time oracle zip1 zip2 e = (Some t, e)
     ∧ get_drive_time oracle zip2 zip1 e = (Some t, e))
  ∧ (∀ t e1, get_drive_time oracle zip1 zip2 e = (Some t, e1) →
       get_drive_time oracle zip1 zip2 e1 = (Some t, e1)
       ∧ get_drive_time oracle zip2 zip1 e1 = (Some t, e1)
       ∧ (length (api_calls (outside e1)) ≤ S (length (api_calls (outside e))))%nat)
  ∧ (∀ e1, get_drive_time oracle zip1 zip2 e = (None, e1) →
       drive_time_cache e1 = drive_time_cache e
       ∧ api_calls (outside e1) = api_calls (outside e) ++ [(zip1, zip2)]
       ∧ api_calls (outside (get_drive_time oracle zip1 zip2 e1).2)
         = api_calls (outside e1) ++ [(zip1, zip2)]).
Proof.
  split_and!.
  - intros t Ht. split; apply get_drive_time_hit; [done|by rewrite cache_key_sym].
  - intros t e1 Hg. pose proof (get_drive_time_cached _ _ _ _ _ Hg) as Hc.
    split_and!; [by apply get_drive_time_hit
                |apply get_drive_time_hit; by rewrite cache_key_sym|].
    destruct (get_drive_time_cases zip1 zip2 e)
      as [(t' & _ & Hr)|[(v & _ & _ & Hr)|(_ & _ & Hr)]];
      rewrite Hr in Hg; simplify_eq/=; [lia|]. rewrite length_app. simpl. lia.
  - intros e1 Hg.
    destruct (get_drive_time_cases zip1 zip2 e)
      as [(t' & _ & Hr)|[(v & _ & _ & Hr)|(Hmiss & _ & Hr)]];
      rewrite Hr in Hg; simplify_eq/=.
    split_and!; try done.
    match goal with |- context [get_drive_time oracle zip1 zip2 ?e1] =>
      destruct (get_drive_time_cases zip1 zip2 e1)
        as [(t' & Hhit & _)|[(v & _ & _ & ->)|(_ & _ & ->)]]; simpl in *
    end; [by rewrite Hmiss in Hhit|done|done].
Qed.

(** A status other than ["OK"] is handled: [get_drive_time] returns
    [None], leaves the cache as it was and prints a diagnostic, and a
    representative whose lookup returned [None] leaves the search's choice
    as it was. *)
Lemma status_not_ok_is_handled :
  (∀ zip1 zip2 e,
     drive_time_cache e !! cache_key zip1 zip2 = None →
     oracle (length (api_calls (outside e))) zip1 zip2 = StatusNotOK →
     ∃ e', get_drive_time oracle zip1 zip2 e = (None, e')
           ∧ drive_time_cache e' = drive_time_cache e
           ∧ printed (outside e') = printed (outside e) ++ [ApiCallFailed zip1 zip2])
  ∧ (∀ appt_zip product_id idle closest_rep min_drive_time e rep details e',
       get_drive_time oracle appt_zip (curr_zip details) e = (None, e') →
       (closest_rep_step oracle appt_zip product_id idle
          (closest_rep, min_drive_time, e) (rep, details)).1
       = (closest_rep, min_drive_time)).
Proof.
  split.
  - intros zip1 zip2 e Hmiss Hfail. eexists.
    split; [by apply get_drive_time_miss_fail|done].
  - intros z p idle c m e rep details e' Hg. unfold closest_rep_step.
    destruct (bool_decide (p ∈ scope details) && idle rep); [|done]. by rewrite Hg.
Qed.

(** C9. The window filter returns the appointments whose [apptdate] lies
    between the window's start and end, both included, in the order of the
    input: it is a sublist of the input, all of it lies in the window, and
    every sublist of the input that lies in the window is a sublist of it. *)
Theorem C9_filter_window_exact t_start t_end (appointments : list (appointment datetime)) :
  filter_window t_start t_end appointments `sublist_of` appointments
  ∧ Forall (λ a, t_start ≤ apptdate a ∧ apptdate a ≤ t_end)%Z
      (filter_window t_start t_end appointments)
  ∧ (∀ a, a ∈ appointments → (t_start ≤ apptdate a ∧ apptdate a ≤ t_end)%Z →
        a ∈ filter_window t_start t_end appointments)
  ∧ (∀ l, l `sublist_of` appointments →
        Forall (λ a, t_start ≤ apptdate a ∧ apptdate a ≤ t_end)%Z l →
        l `sublist_of` filter_window t_start t_end appointments).
Proof.
  unfold filter_window. split_and!.
  - apply sublist_filter.
  - apply Forall_forall. intros a Ha. by apply list_elem_of_filter in Ha as [? _].
  - intros a Ha Hw. by apply list_elem_of_filter.
  - intros l Hl. induction Hl as [|a l1 l2 _ IH|a l1 l2 _ IH]; intros Hall.
    + done.
    + apply Forall_cons in Hall as [Ha Hall].
      rewrite filter_cons, decide_True by done. apply sublist_skip. by apply IH.
    + rewrite filter_cons. destruct (decide _); [apply sublist_cons|]; by apply IH.
Qed.

(** C10. [main_workflow] runs the windows
    [earliest, earliest + 2h], [earliest + 2h 1min, earliest + 5h] and
    [earliest + 5h 1min, last].  Every result row has its appointment time in
    one of them; so an appointment whose time lies strictly between the end
    of one window and the start of the next is returned by no window's call
    and has no row; and when the last appointment time is before
    [earliest + 5h 1min] the third window contributes its title and blank row
    only. *)
Theorem C10_gaps_between_windows appointments sales_reps w rows sales_reps' w' :
  main_workflow oracle strptime zip_to_city modify_sales_reps appointments sales_reps w
    = Some (rows, sales_reps', w') →
  ∃ converted earliest_time last_time,
    mapM (convert_apptdate strptime) appointments = Some converted
    ∧ min_time (apptdate <$> converted) = Some earliest_time
    ∧ max_time (apptdate <$> converted) = Some last_time
    ∧ (∀ cust t city product rep dt,
         ResultRow cust t city product rep dt ∈ rows →
         in_a_window earliest_time last_time t)
    ∧ (∀ a, a ∈ converted → in_a_gap earliest_time (apptdate a) →
         (∀ n t_start t_end allow sales_reps0 w0 out,
            (n, t_start, t_end, allow) ∈ time_windows earliest_time last_time →
            process_time_window oracle strptime (as_stored <$> converted) sales_reps0
              t_start t_end w0 = Some out →
            a ∉ appt <$> returned out)
         ∧ ∀ cust city product rep dt,
             ResultRow cust (apptdate a) city product rep dt ∉ rows)
    ∧ ((last_time < earliest_time + timedelta 5 1)%Z →
         ∃ rows12, rows = rows12 ++ [WindowTitle 3; BlankRow]).
Proof.
  unfold main_workflow, in_a_window, in_a_gap. intros Hrun.
  destruct (mapM (convert_apptdate strptime) appointments) as [converted|] eqn:Hconv;
    [|done].
  cbn -[run_windows min_time max_time] in Hrun.
  destruct (min_time (apptdate <$> converted)) as [t0|] eqn:Hmin; [|done].
  cbn -[run_windows min_time max_time] in Hrun.
  destruct (max_time (apptdate <$> converted)) as [t1|] eqn:Hmax; [|done].
  cbn -[run_windows] in Hrun.
  exists converted, t0, t1.
  destruct (run_windows_spec converted (time_windows t0 t1) (as_stored <$> converted)
              sales_reps [] w (mapM_convert_stored converted))
    as (blocks & sr1 & w1 & Hrun' & Hblocks).
  rewrite Hrun in Hrun'. simplify_eq/=.
  unfold time_windows in Hblocks.
  apply Forall2_cons_inv_l in Hblocks as (b1 & ? & (xs1 & -> & Hxs1) & Hblocks & ->).
  apply Forall2_cons_inv_l in Hblocks as (b2 & ? & (xs2 & -> & Hxs2) & Hblocks & ->).
  apply Forall2_cons_inv_l in Hblocks as (b3 & ? & (xs3 & -> & Hxs3) & Hblocks & ->).
  apply Forall2_nil_inv_l in Hblocks as ->.
  rewrite Forall_forall in Hxs1, Hxs2, Hxs3.
  unfold in_window, timedelta in *. simpl in *.
  assert (∀ cust t city product rep dt,
    ResultRow cust t city product rep dt
      ∈ WindowTitle 1 :: ((row_of zip_to_city <$> xs1) ++ [BlankRow])
        ++ (WindowTitle 2 :: (row_of zip_to_city <$> xs2) ++ [BlankRow])
        ++ (WindowTitle 3 :: (row_of zip_to_city <$> xs3) ++ [BlankRow]) ++ [] →
    (t0 ≤ t ≤ t0 + (2 * 3600 + 0 * 60)
     ∨ t0 + (2 * 3600 + 1 * 60) ≤ t ≤ t0 + (5 * 3600 + 0 * 60)
     ∨ t0 + (5 * 3600 + 1 * 60) ≤ t ≤ t1)%Z) as Hrows.
  { intros cust t city product rep dt Hrow.
    repeat match goal with
           | H : _ ∈ _ :: _ |- _ => apply elem_of_cons in H as [?|H]; [done|]
           | H : _ ∈ _ ++ _ |- _ => apply elem_of_app in H as [H|H]
           | H : _ ∈ [] |- _ => by apply elem_of_nil in H
           | H : _ ∈ _ <$> _ |- _ => apply list_elem_of_fmap in H as (? & ? & ?)
           end;
      unfold row_of in *; simplify_eq;
      match goal with
      | Hall : ∀ x, x ∈ ?xs → _, Hin : ?x ∈ ?xs |- _ => destruct (Hall x Hin) as [[? ?] _]
      end; lia. }
  split_and!; try done.
  - intros a Ha Hgap. split.
    + intros n t_start t_end allow sr0 w0 out Hwin Hcall Hin.
      unfold process_time_window in Hcall.
      destruct (assign_to_closest_rep_spec (as_stored <$> converted) sr0 t_start t_end w0
                  converted (mapM_convert_stored converted))
        as (out' & Hcall' & _ & Hsub & _).
      rewrite Hcall in Hcall'. simplify_eq.
      assert (a ∈ filter_window t_start t_end converted) as Hf
        by by eapply elem_of_submseteq.
      apply list_elem_of_filter in Hf as [[? ?] _].
      unfold time_windows, timedelta in *.
      repeat (apply elem_of_cons in Hwin as [?|Hwin]; [simplify_eq; lia|]).
      by apply elem_of_nil in Hwin.
    + intros cust city product rep dt Hrow. apply Hrows in Hrow. lia.
  - intros Hlast. destruct xs3 as [|x xs3].
    + exists (WindowTitle 1 :: ((row_of zip_to_city <$> xs1) ++ [BlankRow])
                ++ WindowTitle 2 :: (row_of zip_to_city <$> xs2) ++ [BlankRow]).
      simpl. rewrite <-!app_assoc. simpl. by rewrite <-!app_assoc.
    + destruct (Hxs3 x) as [[? ?] _]; [apply elem_of_cons; by left|]. lia.
Qed.
End engine_facts.

(** * The scenarios, run *)

(** Settles a closed decidable statement by evaluation. *)
Ltac by_evaluation := apply (bool_decide_unpack _); vm_compute; exact I.

(** The example of the specification: two appointments, two representatives,
    each appointment at a representative's place. *)
Example each_to_the_rep_on_site :
  (λ out, (λ x, (custnumber (appt x), assigned_to x)) <$> returned out)
    <$> assign_to_closest_rep oracle_grid strptime_padded
          [ Appointment 1%Z (DateStr "12/20/2024 09:00:00") "zipA" "capX" "web";
            Appointment 2%Z (DateStr "12/20/2024 09:30:00") "zipB" "capX" "web" ]
          two_reps nine_o_clock eleven_o_clock quiet_world
  = Some [(1%Z, "R1"); (2%Z, "R2")].
Proof. vm_compute. reflexivity. Qed.

(** Both appointments first go to [R1]; the second is displaced and goes to
    the idle [R2]. *)
Example displaced_goes_to_idle_rep :
  (λ out, (λ x, (custnumber (appt x), assigned_to x)) <$> returned out)
    <$> assign_to_closest_rep oracle_grid strptime_padded same_place_appointments
          two_reps nine_o_clock eleven_o_clock quiet_world
  = Some [(1%Z, "R1"); (2%Z, "R2")].
Proof. vm_compute. reflexivity. Qed.

(** With a single representative the displaced appointment stays
    unassigned, and the call says so. *)
Example displaced_stays_unassigned :
  (λ out, ((λ x, (custnumber (appt x), assigned_to x)) <$> returned out,
           printed (world_after out)))
    <$> assign_to_closest_rep oracle_grid strptime_padded same_place_appointments
          [("R1", {| curr_zip := "zipA"; scope := ["capX"] |})]
          nine_o_clock eleven_o_clock quiet_world
  = Some ([(1%Z, "R1")], [CouldNotAssign 2 "zipA"]).
Proof. vm_compute. reflexivity. Qed.

(** Both ends of the window are included. *)
Example window_ends_included :
  custnumber <$> filter_window nine_o_clock eleven_o_clock
    [ Appointment 1%Z (nine_o_clock - 1)%Z "zipA" "capX" "web";
      Appointment 2%Z nine_o_clock "zipA" "capX" "web";
      Appointment 3%Z eleven_o_clock "zipA" "capX" "web";
      Appointment 4%Z (eleven_o_clock + 1)%Z "zipA" "capX" "web" ]
  = [2%Z; 3%Z].
Proof. reflexivity. Qed.

(** Two rows that agree in every field, which the importer's contract
    excludes: [remove] drops the first of two equal entries, and the
    appointment is returned twice.  The condition on customer numbers in C1
    is needed. *)
Example equal_rows_are_returned_twice :
  (λ out, (λ x, (custnumber (appt x), assigned_to x)) <$> returned out)
    <$> assign_to_closest_rep oracle_grid strptime_padded
          [ Appointment 1%Z (DateStr "12/20/2024 09:00:00") "zipA" "capX" "web";
            Appointment 1%Z (DateStr "12/20/2024 09:00:00") "zipA" "capX" "web" ]
          two_reps nine_o_clock eleven_o_clock quiet_world
  = Some [(1%Z, "R1"); (1%Z, "R2")].
Proof. vm_compute. reflexivity. Qed.

(** The representative moves to the place of the later of its two visits. *)
Example moves_to_later_visit :
  update_sales_reps_zip two_visits two_reps
  = Some [ ("R1", {| curr_zip := "zipC"; scope := ["capX"] |});
           ("R2", {| curr_zip := "zipB"; scope := ["capX"] |}) ].
Proof. reflexivity. Qed.

(** The straggler of 11:00:30 has no row. *)
Example straggler_has_no_row :
  (λ r : list result_row * roster * world,
     (λ row, match row with
                 | ResultRow cust _ _ _ _ _ => Some cust
                 | _ => None
                 end) <$> r.1.1)
    <$> main_workflow oracle_grid strptime_padded city_of keep_roster
          with_a_straggler one_rep quiet_world
  = Some [None; Some 1%Z; None; None; Some 3%Z; None; None; None].
Proof. vm_compute. reflexivity. Qed.

(** C1 on the two appointments at one place, with two representatives. *)
Lemma C1_witness :
  ∃ out,
    assign_to_closest_rep oracle_grid strptime_padded same_place_appointments
      two_reps nine_o_clock eleven_o_clock quiet_world = Some out
    ∧ NoDup (custnumber <$> same_place_appointments)
    ∧ NoDup (assigned_to <$> returned out)
    ∧ NoDup (appt <$> returned out).
Proof.
  destruct (assign_to_closest_rep oracle_grid strptime_padded same_place_appointments
              two_reps nine_o_clock eleven_o_clock quiet_world) as [out|] eqn:Hrun;
    [|vm_compute in Hrun; discriminate].
  assert (NoDup (custnumber <$> same_place_appointments)) as Hnd
    by by_evaluation.
  destruct (C1_final_assignments_injective _ _ _ _ _ _ _ _ Hrun) as [H1 H2].
  exists out. split_and!; auto.
Defined.

(** C2 on the same call. *)
Lemma C2_witness :
  ∃ out,
    assign_to_closest_rep oracle_grid strptime_padded same_place_appointments
      two_reps nine_o_clock eleven_o_clock quiet_world = Some out
    ∧ ∀ x, x ∈ returned out →
        ∃ details, (assigned_to x, details) ∈ two_reps
                   ∧ productid (appt x) ∈ scope details.
Proof.
  destruct (assign_to_closest_rep oracle_grid strptime_padded same_place_appointments
              two_reps nine_o_clock eleven_o_clock quiet_world) as [out|] eqn:Hrun;
    [|vm_compute in Hrun; discriminate].
  exists out. split; [done|]. exact (C2_assigned_rep_in_scope _ _ _ _ _ _ _ _ Hrun).
Defined.

(** C3 on the initial pass over the same two appointments. *)
Lemma C3_witness :
  ∃ x pre post t,
    appointment_assignments fresh_locals = []
    ∧ x ∈ appointment_assignments
            (initial_pass oracle_grid two_reps same_place_converted fresh_locals)
    ∧ same_place_converted = pre ++ appt x :: post
    ∧ drive_time x = Fin t
    ∧ first_least
        (drive_times oracle_grid (Zip (appt x)) (productid (appt x)) two_reps
           (closure (initial_pass oracle_grid two_reps pre fresh_locals)))
        (assigned_to x) t.
Proof.
  destruct (appointment_assignments
              (initial_pass oracle_grid two_reps same_place_converted fresh_locals))
    as [|x l] eqn:Hpass; [vm_compute in Hpass; discriminate|].
  assert (x ∈ appointment_assignments
                (initial_pass oracle_grid two_reps same_place_converted fresh_locals))
    as Hx by (rewrite Hpass; apply elem_of_cons; by left).
  destruct (C3_initial_pass_greedy oracle_grid two_reps same_place_converted
              fresh_locals x eq_refl Hx) as (pre & post & t & ? & ? & ?).
  exists x, pre, post, t. rewrite <-Hpass. by split_and!.
Defined.

(** C4 on a representative with two visits. *)
Lemma C4_witness :
  NoDup two_reps.*1
  ∧ (∀ x, x ∈ two_visits → assigned_to x ∈ two_reps.*1)
  ∧ ∃ sales_reps',
      update_sales_reps_zip two_visits two_reps = Some sales_reps'
      ∧ carried_over two_visits two_reps sales_reps'.
Proof.
  assert (NoDup two_reps.*1) as Hnd
    by by_evaluation.
  assert (∀ x, x ∈ two_visits → assigned_to x ∈ two_reps.*1) as Hin.
  { apply Forall_forall. by_evaluation. }
  split_and!; [done|done|]. by apply C4_update_sales_reps_zip.
Defined.

(** C5, counterexample.  With the oracle down, two lookups of the same pair
    issue two oracle calls. *)
Lemma C5_counterexample :
  let e0 := {| drive_time_cache := ∅; outside := quiet_world |} in
  let lookup1 := get_drive_time oracle_down "zipA" "zipB" e0 in
  let lookup2 := get_drive_time oracle_down "zipA" "zipB" lookup1.2 in
  lookup1.1 = None ∧ lookup2.1 = None
  ∧ api_calls (outside lookup2.2) = [("zipA", "zipB"); ("zipA", "zipB")].
Proof. vm_compute. done. Qed.

(** On a miss the oracle is asked in the order of the arguments: from an
    empty cache the two orders of a pair can get different drive times.  The
    first one stored is what both orders read afterwards. *)
Example first_lookup_follows_argument_order :
  let e0 := {| drive_time_cache := ∅; outside := quiet_world |} in
  (get_drive_time oracle_one_way "zipA" "zipB" e0).1 = Some (minutes_of 600)
  ∧ (get_drive_time oracle_one_way "zipB" "zipA" e0).1 = Some (minutes_of 1200)
  ∧ (get_drive_time oracle_one_way "zipB" "zipA"
       (get_drive_time oracle_one_way "zipA" "zipB" e0).2).1 = Some (minutes_of 600).
Proof. vm_compute. done. Qed.

(** C5, as amended, on a first lookup that succeeds. *)
Lemma C5_witness :
  ∃ t e1,
    get_drive_time oracle_grid "zipA" "zipB"
      {| drive_time_cache := ∅; outside := quiet_world |} = (Some t, e1)
    ∧ get_drive_time oracle_grid "zipA" "zipB" e1 = (Some t, e1)
    ∧ get_drive_time oracle_grid "zipB" "zipA" e1 = (Some t, e1)
    ∧ (length (api_calls (outside e1)) ≤ 1)%nat.
Proof.
  destruct (get_drive_time oracle_grid "zipA" "zipB"
              {| drive_time_cache := ∅; outside := quiet_world |})
    as [[t|] e1] eqn:Hg; [|vm_compute in Hg; discriminate].
  destruct (C5_lookup_symmetric_once_stored oracle_grid "zipA" "zipB"
              {| drive_time_cache := ∅; outside := quiet_world |}) as (_ & Hagain & _).
  destruct (Hagain t e1 Hg) as (? & ? & ?).
  exists t, e1. by split_and!.
Defined.

(** C6 (a defect of the code).  The cache is created anew by every call of
    [assign_to_closest_rep], once per window: in this run the pair
    (98026, 98026), looked up with success in the first window, is asked of
    the oracle again in the second, and the run reports two different drive
    times for it. *)
Theorem C6_cache_rebuilt_each_window :
  main_workflow oracle_slowing strptime_padded city_of keep_roster
    morning_and_noon one_rep quiet_world
  = Some ([ WindowTitle 1;
            ResultRow 1 nine_o_clock "98026" "Bath" "John" (Fin (minutes_of 600));
            BlankRow;
            WindowTitle 2;
            ResultRow 2 (nine_o_clock + 10800) "98026" "Bath" "John"
              (Fin (minutes_of 1200));
            BlankRow;
            WindowTitle 3; BlankRow ],
          one_rep,
          {| api_calls := [("98026", "98026"); ("98026", "98026")]; printed := [] |}).
Proof. vm_compute. reflexivity. Qed.

(** C8, counterexample.  The two appointments come in with strings under
    ["apptdate"]; after the call the same dictionaries hold [datetime]
    objects there. *)
Lemma C8_counterexample :
  apptdate <$> same_place_appointments
  = [DateStr "12/20/2024 09:00:00"; DateStr "12/20/2024 09:10:00"]
  ∧ (λ out, apptdate <$> appointments_after out)
      <$> assign_to_closest_rep oracle_grid strptime_padded same_place_appointments
            two_reps nine_o_clock eleven_o_clock quiet_world
    = Some [DateObj 1734685200%Z; DateObj 1734685800%Z].
Proof. split; [reflexivity|]. vm_compute. reflexivity. Qed.

(** C10 on a run with an appointment thirty seconds after the first window. *)
Lemma C10_witness :
  ∃ rows sales_reps' w',
    main_workflow oracle_grid strptime_padded city_of keep_roster
      with_a_straggler one_rep quiet_world = Some (rows, sales_reps', w')
    ∧ ∃ converted earliest_time last_time,
        mapM (convert_apptdate strptime_padded) with_a_straggler = Some converted
        ∧ min_time (apptdate <$> converted) = Some earliest_time
        ∧ max_time (apptdate <$> converted) = Some last_time
        ∧ (∀ cust t city product rep dt,
             ResultRow cust t city product rep dt ∈ rows →
             in_a_window earliest_time last_time t)
        ∧ (∀ a, a ∈ converted → in_a_gap earliest_time (apptdate a) →
             (∀ n t_start t_end allow sales_reps0 w0 out,
                (n, t_start, t_end, allow) ∈ time_windows earliest_time last_time →
                process_time_window oracle_grid strptime_padded (as_stored <$> converted)
                  sales_reps0 t_start t_end w0 = Some out →
                a ∉ appt <$> returned out)
             ∧ ∀ cust city product rep dt,
                 ResultRow cust (apptdate a) city product rep dt ∉ rows)
        ∧ ((last_time < earliest_time + timedelta 5 1)%Z →
             ∃ rows12, rows = rows12 ++ [WindowTitle 3; BlankRow]).
Proof.
  destruct (main_workflow oracle_grid strptime_padded city_of keep_roster
              with_a_straggler one_rep quiet_world) as [[[rows sales_reps'] w']|] eqn:Hrun;
    [|vm_compute in Hrun; discriminate].
  exists rows, sales_reps', w'. split; [done|].
  exact (C10_gaps_between_windows _ _ _ _ _ _ _ _ _ _ Hrun).
Defined.


(** * Further properties of the engine *)

Section engine_more.
Variable oracle : nat → string → string → distance_matrix_result.
Variable strptime : string → option datetime.
Variable zip_to_city : string → string.
Variable modify_sales_reps : roster → nat → datetime → datetime → roster.

(** ** What every lookup and every printed line preserves *)

Section preserved.
Variable P : env → Prop.
Hypothesis P_lookup : ∀ zip1 zip2 e, P e → P (get_drive_time oracle zip1 zip2 e).2.
Hypothesis P_print : ∀ d e, P e → P (print d e).

Lemma closest_rep_loop_preserves z p idle items : ∀ c m e,
  P e → P (closest_rep_loop oracle z p idle (c, m, e) items).2.
Proof.
  induction items as [|[rep details] items IH]; intros c m e He; [done|].
  simpl. unfold closest_rep_step.
  destruct (bool_decide (p ∈ scope details) && idle rep); [|by apply IH].
  pose proof (P_lookup z (curr_zip details) e He) as He'.
  destruct (get_drive_time oracle z (curr_zip details) e) as [[t|] e']; simpl in He'.
  - destruct (float_lt (Fin t) m); by apply IH.
  - by apply IH.
Qed.

Lemma match_appointment_preserves sales_reps idle unmatched a s :
  P (closure s) → P (closure (match_appointment oracle sales_reps idle unmatched a s)).
Proof.
  intros He. unfold match_appointment, find_closest_rep.
  pose proof (closest_rep_loop_preserves (Zip a) (productid a) idle sales_reps
                None Inf (closure s) He) as He'.
  destruct (closest_rep_loop oracle (Zip a) (productid a) idle (None, Inf, closure s)
              sales_reps) as [[c m] e']. simpl in He'.
  destruct (truthy c); simpl; [done|by apply P_print].
Qed.

Lemma initial_pass_preserves sales_reps l : ∀ s,
  P (closure s) → P (closure (initial_pass oracle sales_reps l s)).
Proof.
  induction l as [|a l IH]; intros s He; [done|].
  simpl. by apply IH, match_appointment_preserves.
Qed.

Lemma reassign_pass_preserves sales_reps l : ∀ s,
  P (closure s) → P (closure (reassign_pass oracle sales_reps l s)).
Proof.
  induction l as [|a l IH]; intros s He; [done|].
  simpl. by apply IH, match_appointment_preserves.
Qed.
End preserved.

(** ** The cache within one call *)

(** Within a call, from call number [base] on: the answered pairs are in
    the cache, and no answered pair has been asked again. *)
Lemma get_drive_time_answered_once base zip1 zip2 e :
  (base ≤ length (api_calls (outside e)))%nat
  ∧ (∀ n a b v, (base ≤ n)%nat → api_calls (outside e) !! n = Some (a, b) →
       oracle n a b = StatusOK v → is_Some (drive_time_cache e !! cache_key a b))
  ∧ answered_once oracle base (api_calls (outside e)) →
  (base ≤ length (api_calls (outside (get_drive_time oracle zip1 zip2 e).2)))%nat
  ∧ (∀ n a b v, (base ≤ n)%nat →
       api_calls (outside (get_drive_time oracle zip1 zip2 e).2) !! n = Some (a, b) →
       oracle n a b = StatusOK v →
       is_Some (drive_time_cache (get_drive_time oracle zip1 zip2 e).2 !! cache_key a b))
  ∧ answered_once oracle base (api_calls (outside (get_drive_time oracle zip1 zip2 e).2)).
Proof.
  intros (Hbase & Hcached & Honce).
  destruct (get_drive_time_cases oracle zip1 zip2 e)
    as [(t & Hc & ->)|[(v & Hmiss & Ho & ->)|(Hmiss & Ho & ->)]]; simpl; [done| |].
  - split_and!.
    + rewrite length_app. lia.
    + intros n a b v' Hn Hl Hok. apply lookup_app_Some in Hl as [Hl|[Hlen Hl]].
      * destruct (Hcached n a b v' Hn Hl Hok) as [t Ht].
        destruct (decide (cache_key zip1 zip2 = cache_key a b)) as [<-|Hne].
        -- rewrite lookup_insert_eq. eauto.
        -- rewrite lookup_insert_ne by done. eauto.
      * apply list_lookup_singleton_Some in Hl as [_ Heq]. simplify_eq.
        rewrite lookup_insert_eq. eauto.
    + intros n m a b c d v' Hn Hnm Hl1 Hl2 Hok.
      apply lookup_app_Some in Hl2 as [Hl2|[Hlen Hl2]].
      * apply lookup_app_Some in Hl1 as [Hl1|[Hlen1 _]]; [by eapply Honce|].
        apply lookup_lt_Some in Hl2. lia.
      * apply list_lookup_singleton_Some in Hl2 as [Hm Heq]. simplify_eq.
        apply lookup_app_Some in Hl1 as [Hl1|[Hlen1 Hl1]].
        -- intros Hkey. destruct (Hcached n a b v' Hn Hl1 Hok) as [t Ht].
           rewrite Hkey in Ht. by rewrite Hmiss in Ht.
        -- apply list_lookup_singleton_Some in Hl1 as [? _]. lia.
  - split_and!.
    + rewrite length_app. lia.
    + intros n a b v' Hn Hl Hok. apply lookup_app_Some in Hl as [Hl|[Hlen Hl]].
      * by eapply Hcached.
      * apply list_lookup_singleton_Some in Hl as [Hz Heq]. simplify_eq.
        assert (n = length (api_calls (outside e))) as -> by lia. by rewrite Ho in Hok.
    + intros n m a b c d v' Hn Hnm Hl1 Hl2 Hok.
      apply lookup_app_Some in Hl2 as [Hl2|[Hlen Hl2]].
      * apply lookup_app_Some in Hl1 as [Hl1|[Hlen1 _]]; [by eapply Honce|].
        apply lookup_lt_Some in Hl2. lia.
      * apply list_lookup_singleton_Some in Hl2 as [Hm Heq]. simplify_eq.
        apply lookup_app_Some in Hl1 as [Hl1|[Hlen1 Hl1]].
        -- intros Hkey. destruct (Hcached n a b v' Hn Hl1 Hok) as [t Ht].
           rewrite Hkey in Ht. by rewrite Hmiss in Ht.
        -- apply list_lookup_singleton_Some in Hl1 as [? _]. lia.
Qed.

(** X1. Within one call of [assign_to_closest_rep] the cache does its work:
    of the oracle calls the call issues, none asks for a pair, in either
    order, that the oracle has answered earlier in the call. *)
Theorem X1_no_pair_asked_again_within_a_call appointments sales_reps t_start t_end w out :
  assign_to_closest_rep oracle strptime appointments sales_reps t_start t_end w = Some out →
  answered_once oracle (length (api_calls w)) (api_calls (world_after out)).
Proof.
  intros Hrun. unfold assign_to_closest_rep in Hrun.
  destruct (mapM (convert_apptdate strptime) appointments) as [converted|];
    simpl in Hrun; [|done].
  destruct (resolve_double_booking _ _ _ _) as [[u asg]|]; simpl in Hrun; [|done].
  simplify_eq/=.
  set (P := λ e : env,
    (length (api_calls w) ≤ length (api_calls (outside e)))%nat
    ∧ (∀ n a b v, (length (api_calls w) ≤ n)%nat →
         api_calls (outside e) !! n = Some (a, b) →
         oracle n a b = StatusOK v → is_Some (drive_time_cache e !! cache_key a b))
    ∧ answered_once oracle (length (api_calls w)) (api_calls (outside e))).
  assert (∀ zip1 zip2 e, P e → P (get_drive_time oracle zip1 zip2 e).2) as Hlookup
    by (intros; by apply get_drive_time_answered_once).
  assert (∀ d e, P e → P (print d e)) as Hprint by (by intros d e He).
  eapply (reassign_pass_preserves P Hlookup Hprint). simpl.
  apply (initial_pass_preserves P Hlookup Hprint). simpl.
  split_and!; [done| |].
  - intros n a b v Hn Hl. simpl in Hl. apply lookup_lt_Some in Hl. lia.
  - intros n m a b c d v Hn Hnm Hl. simpl in Hl. apply lookup_lt_Some in Hl. lia.
Qed.

(** X2. Every entry [assign_to_closest_rep] returns carries a finite drive
    time, and its appointment is one of the caller's appointments, with its
    time in the window. *)
Theorem X2_returned_entries_are_sound appointments sales_reps t_start t_end w out :
  assign_to_closest_rep oracle strptime appointments sales_reps t_start t_end w = Some out →
  ∀ x, x ∈ returned out →
    (∃ t, drive_time x = Fin t)
    ∧ (t_start ≤ apptdate (appt x) ≤ t_end)%Z
    ∧ as_stored (appt x) ∈ appointments_after out.
Proof.
  intros Hrun x Hx.
  destruct (assign_to_closest_rep_converted _ _ _ _ _ _ _ _ Hrun) as [converted Hconv].
  destruct (assign_to_closest_rep_spec oracle strptime appointments sales_reps t_start
              t_end w converted Hconv) as (out' & Hrun' & Hafter & Hsub & _ & Hel & _).
  rewrite Hrun in Hrun'. simplify_eq.
  rewrite Forall_forall in Hel. destruct (Hel x Hx) as (_ & t & _ & _ & Ht).
  assert (appt x ∈ filter_window t_start t_end converted) as Hf.
  { eapply elem_of_submseteq; [|done]. apply list_elem_of_fmap. eauto. }
  apply list_elem_of_filter in Hf as [[? ?] Hin].
  split_and!; [eauto|done|done|].
  rewrite Hafter. apply list_elem_of_fmap. eauto.
Qed.

(** ** What the resolution keeps *)

Lemma float_lt_asym a b : float_lt a b = true → float_lt b a = false.
Proof.
  destruct a as [a|], b as [b|]; try done. rewrite !float_lt_Fin.
  intros Hab%bool_decide_eq_true. apply bool_decide_eq_false.
  apply Qcle_not_lt. by apply Qclt_le_weak.
Qed.

Lemma float_lt_negtrans a b c :
  float_lt a b = false → float_lt b c = false → float_lt a c = false.
Proof.
  destruct a as [a|], b as [b|], c as [c|]; try done. rewrite !float_lt_Fin.
  intros Hab%bool_decide_eq_false Hbc%bool_decide_eq_false.
  apply bool_decide_eq_false. apply Qcle_not_lt.
  etrans; by apply Qcnot_lt_le.
Qed.

(** The head of a stable sort is the first least element. *)
Lemma sorted_head {A K} (lt : K → K → bool) (key : A → K) :
  (∀ a b, lt a b = true → lt b a = false) →
  (∀ a b c, lt a b = false → lt b c = false → lt a c = false) →
  ∀ l h t, sorted lt key l = h :: t →
    ∃ i, l !! i = Some h
         ∧ (∀ y, y ∈ l → lt (key y) (key h) = false)
         ∧ (∀ j y, (j < i)%nat → l !! j = Some y → lt (key h) (key y) = true).
Proof.
  intros Hasym Hneg.
  assert (∀ a, lt a a = false) as Hirr.
  { intros a. destruct (lt a a) eqn:Ha; [by apply Hasym in Ha as Ha'; congruence|done]. }
  induction l as [|x l IH]; intros h t Hs; simpl in Hs; [done|].
  destruct (sorted lt key l) as [|h' t'] eqn:Hl.
  - simpl in Hs. simplify_eq.
    pose proof (sorted_perm lt key l) as Hp. rewrite Hl in Hp.
    apply Permutation_nil_l in Hp as <-.
    exists 0%nat. split_and!; [done| |intros; lia].
    intros y ->%list_elem_of_singleton. apply Hirr.
  - destruct (IH h' t' eq_refl) as (i & Hi & Hmin & Hfirst). simpl in Hs.
    destruct (lt (key h') (key x)) eqn:Hlt; simplify_eq.
    + exists (S i). split_and!; [done| |].
      * intros y [->|Hy]%elem_of_cons; [by apply Hasym|by apply Hmin].
      * intros [|j] y Hj Hy; simpl in Hy; [by simplify_eq|].
        eapply Hfirst; [|done]. lia.
    + exists 0%nat. split_and!; [done| |intros; lia].
      intros y [->|Hy]%elem_of_cons; [apply Hirr|].
      eapply Hneg; [by apply Hmin|done].
Qed.

Lemma list_remove_filter `{EqDecision A} (P : A → Prop) `{!∀ x, Decision (P x)}
    (x : A) (l l' : list A) :
  list_remove x l = Some l' → ¬ P x → filter P l' = filter P l.
Proof.
  revert l'. induction l as [|y l IH]; intros l' Hr HP; simpl in Hr; [done|].
  destruct (decide (y = x)) as [->|Hne].
  - simplify_eq. by rewrite filter_cons, decide_False.
  - destruct (list_remove x l) as [k|] eqn:Hk; simplify_eq/=.
    rewrite !filter_cons, (IH k) by done. done.
Qed.

Lemma remove_extras_Some extras : ∀ unassigned assignments unassigned' assignments',
  remove_extras extras unassigned assignments = Some (unassigned', assignments') →
  unassigned' = unassigned ++ (appt <$> extras)
  ∧ assignments ≡ₚ extras ++ assignments'
  ∧ assignments' `sublist_of` assignments
  ∧ ∀ (P : assignment → Prop) `{!∀ x, Decision (P x)},
      Forall (λ x, ¬ P x) extras → filter P assignments' = filter P assignments.
Proof.
  induction extras as [|x extras IH]; intros u asg u' asg' Hr; simpl in Hr.
  - simplify_eq. rewrite app_nil_r. by split_and!.
  - destruct (list_remove x asg) as [asg1|] eqn:Hrm; simpl in Hr; [|done].
    destruct (IH _ _ _ _ Hr) as (-> & Hp & Hs & Hf).
    split_and!.
    + by rewrite <-app_assoc.
    + rewrite (list_remove_perm _ _ _ Hrm), Hp. done.
    + etrans; [done|]. by eapply list_remove_sublist.
    + intros P ? [Hx Hall]%Forall_cons. rewrite Hf by done.
      by eapply list_remove_filter.
Qed.

Lemma first_cheapest_filter x l1 l2 :
  filter (λ y, assigned_to y = assigned_to x) l1
  = filter (λ y, assigned_to y = assigned_to x) l2 →
  first_cheapest x l1 → first_cheapest x l2.
Proof. unfold first_cheapest. by intros ->. Qed.

Lemma resolve_double_booking_kept ra reps : NoDup reps →
  ∀ unassigned assignments unassigned' assignments',
  resolve_double_booking reps ra unassigned assignments
    = Some (unassigned', assignments') →
  assignments' `sublist_of` assignments
  ∧ (∃ displaced, unassigned' = unassigned ++ displaced
        ∧ appt <$> assignments ≡ₚ (appt <$> assignments') ++ displaced)
  ∧ (∀ r, r ∈ reps → (1 < length (appointments_of ra r))%nat →
       ∃ kept, filter (λ y, assigned_to y = r) assignments' = [kept]
               ∧ first_cheapest kept assignments)
  ∧ (∀ r, r ∉ reps ∨ (length (appointments_of ra r) ≤ 1)%nat →
       filter (λ y, assigned_to y = r) assignments'
       = filter (λ y, assigned_to y = r) assignments).
Proof.
  induction 1 as [|rep reps Hrep Hnd IH]; intros u asg u' asg' Hres; simpl in Hres.
  - simplify_eq. split_and!; try done.
    + exists []. by rewrite !app_nil_r.
    + intros r Hr. by apply elem_of_nil in Hr.
  - destruct (decide (1 < length (appointments_of ra rep))%nat) as [Hlen|Hlen].
    + pose proof (sorted_perm float_lt drive_time
                    (filter (λ x, assigned_to x = rep) asg)) as Hsp.
      destruct (sorted_head float_lt drive_time float_lt_asym float_lt_negtrans
                  (filter (λ x, assigned_to x = rep) asg)) with
        (h := hd (Assignment (Appointment 0%Z 0%Z "" "" "") "" Inf)
                (sorted float_lt drive_time (filter (λ x, assigned_to x = rep) asg)))
        (t := tail (sorted float_lt drive_time (filter (λ x, assigned_to x = rep) asg)))
        as (i & Hi & Hmin & Hfirst).
      { by destruct (sorted float_lt drive_time _). }
      destruct (sorted float_lt drive_time (filter (λ x, assigned_to x = rep) asg))
        as [|kept extras] eqn:Hsorted; [done|]. simpl in Hi, Hmin, Hfirst.
      destruct (remove_extras extras u asg) as [[u1 asg1]|] eqn:Hrm; simpl in Hres; [|done].
      destruct (remove_extras_Some _ _ _ _ _ Hrm) as (-> & Hp1 & Hs1 & Hf1).
      assert (Forall (λ x, assigned_to x = rep) (kept :: extras)) as Hall.
      { apply Forall_forall. intros x Hx. rewrite Hsp in Hx.
        by apply list_elem_of_filter in Hx as [? _]. }
      apply Forall_cons in Hall as [Hkept Hextras].
      assert (filter (λ y, assigned_to y = rep) asg1 = [kept]) as Hone.
      { symmetry. apply Permutation_singleton_l.
        apply (Permutation_app_inv_l extras).
        rewrite (comm (++) extras [kept]). simpl. rewrite Hsp, Hp1, filter_app.
        f_equiv. clear -Hextras. induction Hextras as [|x l Hx _ IH]; [done|].
        by rewrite filter_cons, decide_True, IH. }
      assert (first_cheapest kept asg) as Hcheap.
      { exists i. rewrite Hkept. by split_and!. }
      assert (∀ r, r ≠ rep → filter (λ y, assigned_to y = r) asg1
                               = filter (λ y, assigned_to y = r) asg) as Hother.
      { intros r Hr. apply Hf1. eapply Forall_impl; [done|]. simpl. congruence. }
      destruct (IH _ _ _ _ Hres) as (Hs & (disp & -> & Hp) & Hk & Hu).
      split_and!.
      * by etrans.
      * exists ((appt <$> extras) ++ disp). split; [by rewrite <-app_assoc|].
        rewrite Hp1, fmap_app, Hp.
        rewrite (assoc (++)), (comm (++) (appt <$> extras)), <-(assoc (++)). done.
      * intros r [->|Hr]%elem_of_cons Hl.
        -- exists kept. split; [|done]. rewrite Hu by by left. done.
        -- destruct (Hk r Hr Hl) as (k & Hfk & Hck). exists k. split; [done|].
           assert (assigned_to k = r) as Hkr.
           { assert (k ∈ filter (λ y, assigned_to y = r) asg') as Hin
               by (rewrite Hfk; apply elem_of_cons; by left).
             by apply list_elem_of_filter in Hin as [? _]. }
           eapply first_cheapest_filter; [|done]. rewrite Hkr. apply Hother.
           intros ->. done.
      * intros r Hr. assert (r ≠ rep) as Hne.
        { intros ->. destruct Hr as [Hr|Hr]; [|lia]. apply Hr. apply elem_of_cons; by left. }
        rewrite Hu, Hother; [done|done|].
        destruct Hr as [Hr|Hr]; [left|by right].
        intros Hin. apply Hr. apply elem_of_cons; by right.
    + destruct (IH _ _ _ _ Hres) as (Hs & Hd & Hk & Hu). split_and!; try done.
      * intros r [->|Hr]%elem_of_cons Hl; [done|by apply Hk].
      * intros r Hr. apply Hu. destruct Hr as [Hr|Hr]; [left|by right].
        intros Hin. apply Hr. apply elem_of_cons; by right.
Qed.

(** X3. How the three steps of [assign_to_closest_rep] compose.  The
    returned list is the candidates that survive the resolution, followed by
    the reassignments.  Of each representative's candidates exactly one
    survives, the first cheapest.  A reassignment goes to a representative
    that had no candidate at all, and is of an appointment that was a
    candidate. *)
Theorem X3_kept_cheapest_then_reassigned appointments sales_reps t_start t_end w out :
  NoDup sales_reps.*1 →
  assign_to_closest_rep oracle strptime appointments sales_reps t_start t_end w = Some out →
  ∃ converted kept reassigned,
    mapM (convert_apptdate strptime) appointments = Some converted
    ∧ returned out = kept ++ reassigned
    ∧ kept `sublist_of`
        candidates oracle sales_reps (filter_window t_start t_end converted) w
    ∧ (∀ x, x ∈ kept →
         first_cheapest x
           (candidates oracle sales_reps (filter_window t_start t_end converted) w))
    ∧ (∀ rep,
         (0 < booked rep
                (candidates oracle sales_reps (filter_window t_start t_end converted) w))%nat →
         booked rep kept = 1%nat)
    ∧ (∀ x, x ∈ reassigned →
         booked (assigned_to x)
           (candidates oracle sales_reps (filter_window t_start t_end converted) w) = 0%nat
         ∧ appt x ∈ appt <$>
             candidates oracle sales_reps (filter_window t_start t_end converted) w).
Proof.
  intros Hnd Hrun. unfold assign_to_closest_rep in Hrun.
  destruct (mapM (convert_apptdate strptime) appointments) as [converted|];
    simpl in Hrun; [|done].
  exists converted.
  set (filtered := filter_window t_start t_end converted) in *.
  fold (start_locals sales_reps w) in Hrun.
  destruct (matching_pass_spec oracle sales_reps (λ _ _, true) NoEligibleRep filtered
              (start_locals sales_reps w))
    as (_ & new1 & Hasg1 & _ & Hel1 & Hlen1 & _).
  rewrite <-initial_pass_foldl in Hasg1, Hlen1.
  unfold candidates.
  set (s1 := initial_pass oracle sales_reps filtered (start_locals sales_reps w)) in *.
  simpl in Hasg1.
  assert (∀ r, length (appointments_of (rep_appointments s1) r)
               = booked r (appointment_assignments s1)) as Hlen1'.
  { intros r. rewrite Hlen1, Hasg1. unfold start_locals; simpl.
    by rewrite appointments_of_fresh. }
  rewrite <-Hasg1 in Hel1. clear Hasg1 Hlen1 new1.
  destruct (resolve_double_booking _ _ _ _) as [[disp asg2]|] eqn:Hres;
    simpl in Hrun; [|done].
  destruct (resolve_double_booking_kept _ _ Hnd _ _ _ _ Hres)
    as (Hsub2 & (disp' & Hd & Hperm2) & Hkept & Hsame).
  simpl in Hd. subst disp'.
  set (s2 := {| rep_appointments := rep_appointments s1;
                appointment_assignments := asg2;
                closure := closure s1 |}) in *.
  destruct (matching_pass_spec oracle sales_reps
              (λ s rep, bool_decide (appointments_of (rep_appointments s) rep = []))
              CouldNotAssign disp s2)
    as (_ & new3 & Hasg3 & Hsub3 & _ & _ & _ & Hidle3).
  rewrite <-reassign_pass_foldl in Hasg3. simpl in Hasg3.
  simplify_eq/=. exists asg2, new3.
  assert (∀ x, x ∈ appointment_assignments s1 → assigned_to x ∈ sales_reps.*1) as Hkeys.
  { intros x Hx. rewrite Forall_forall in Hel1.
    destruct (Hel1 x Hx) as (details & _ & Hin & _).
    apply list_elem_of_fmap. by exists (assigned_to x, details). }
  assert (∀ x, x ∈ asg2 → x ∈ appointment_assignments s1) as Hin2.
  { intros x Hx. eapply elem_of_submseteq; [done|by apply sublist_submseteq]. }
  split_and!; try done.
  - intros x Hx.
    destruct (decide (1 < length (appointments_of (rep_appointments s1) (assigned_to x)))%nat)
      as [Hlen|Hlen].
    + destruct (Hkept (assigned_to x)) as (k & Hk & Hcheap); [by apply Hkeys, Hin2|done|].
      assert (x ∈ filter (λ y, assigned_to y = assigned_to x) asg2) as Hxf
        by by apply list_elem_of_filter.
      rewrite Hk in Hxf. by apply list_elem_of_singleton in Hxf as ->.
    + assert (filter (λ y, assigned_to y = assigned_to x) (appointment_assignments s1) = [x])
        as Hone.
      { rewrite <-Hsame by (right; lia).
        assert (x ∈ filter (λ y, assigned_to y = assigned_to x) asg2) as Hxf
          by by apply list_elem_of_filter.
        assert (length (filter (λ y, assigned_to y = assigned_to x) asg2) ≤ 1)%nat as Hle.
        { rewrite Hsame by (right; lia). fold (booked (assigned_to x)
            (appointment_assignments s1)). rewrite <-Hlen1'. lia. }
        destruct (filter _ asg2) as [|y [|z l]]; simpl in Hle;
          [by apply elem_of_nil in Hxf| |lia].
        by apply list_elem_of_singleton in Hxf as ->. }
      exists 0%nat. rewrite Hone. split_and!; [done| |intros; lia].
      intros y ->%list_elem_of_singleton.
      destruct (float_lt (drive_time x) (drive_time x)) eqn:Hxx; [|done].
      apply float_lt_asym in Hxx as Hxx'. congruence.
  - intros rep Hpos.
    destruct (decide (1 < length (appointments_of (rep_appointments s1) rep))%nat)
      as [Hlen|Hlen].
    + destruct (Hkept rep) as (k & Hk & _); [|done|].
      * apply booked_pos in Hpos as (x & Hx & <-). by apply Hkeys.
      * unfold booked. by rewrite Hk.
    + unfold booked. rewrite Hsame by (right; lia).
      fold (booked rep (appointment_assignments s1)). rewrite <-Hlen1' in Hpos |- *. lia.
  - intros x Hx. apply list_elem_of_lookup in Hx as [i Hi].
    destruct (Hidle3 i x Hi) as (s_mid & Hmid & Hl).
    apply bool_decide_eq_true in Hmid. specialize (Hl (assigned_to x)).
    rewrite Hmid in Hl. simpl in Hl. rewrite Hlen1' in Hl. split; [lia|].
    assert (appt x ∈ disp) as Hd.
    { eapply elem_of_submseteq; [|by apply sublist_submseteq].
      apply list_elem_of_fmap. exists x. split; [done|by eapply list_elem_of_lookup_2]. }
    rewrite Hperm2. apply elem_of_app. by right.
Qed.

(** ** When the roster update fails, and running it twice *)

Lemma set_curr_zip_Some_elem rep zip (sales_reps sales_reps' : roster) :
  set_curr_zip rep zip sales_reps = Some sales_reps' → rep ∈ sales_reps.*1.
Proof.
  revert sales_reps'.
  induction sales_reps as [|[r d] sr IH]; intros sr' Hs; simpl in Hs; [done|].
  rewrite fmap_cons. simpl.
  destruct (decide (r = rep)) as [->|Hne]; [apply elem_of_cons; by left|].
  destruct (set_curr_zip rep zip sr) as [sr1|] eqn:Hs1; simplify_eq/=.
  apply elem_of_cons; right. by eapply IH.
Qed.

Lemma update_loop_Some_keys groups : ∀ sales_reps sales_reps' : roster,
  update_loop groups sales_reps = Some sales_reps' →
  sales_reps'.*1 = sales_reps.*1 ∧ ∀ r, r ∈ groups.*1 → r ∈ sales_reps.*1.
Proof.
  induction groups as [|[rep l] groups IH]; intros sr sr' Hu; simpl in Hu.
  - simplify_eq. split; [done|]. intros r Hr. by apply elem_of_nil in Hr.
  - destruct (last (sorted Z.ltb apptdate l)) as [a|]; simplify_eq/=.
    destruct (set_curr_zip rep (Zip a) sr) as [sr1|] eqn:Hs; simplify_eq/=.
    destruct (IH _ _ Hu) as [Hk Hin].
    pose proof (set_curr_zip_keys _ _ _ _ Hs) as Hk1.
    split; [by rewrite Hk|].
    intros r [->|Hr]%elem_of_cons; [by eapply set_curr_zip_Some_elem|].
    rewrite <-Hk1. by apply Hin.
Qed.

Lemma update_sales_reps_zip_Some_keys assignments (sales_reps sales_reps' : roster) :
  update_sales_reps_zip assignments sales_reps = Some sales_reps' →
  sales_reps'.*1 = sales_reps.*1
  ∧ ∀ x, x ∈ assignments → assigned_to x ∈ sales_reps.*1.
Proof.
  intros Hu. apply update_loop_Some_keys in Hu as [Hk Hin]. split; [done|].
  intros x Hx. apply Hin. by apply group_by_rep_all.
Qed.

(** X4. [update_sales_reps_zip] raises ([KeyError]) exactly when some entry
    of the assignment list names a representative that is not in the
    roster; an empty assignment list, in particular, never fails. *)
Theorem X4_update_fails_on_unknown_rep assignments (sales_reps : roster) :
  update_sales_reps_zip assignments sales_reps = None
  ↔ ∃ x, x ∈ assignments ∧ assigned_to x ∉ sales_reps.*1.
Proof.
  split.
  - intros Hnone.
    destruct (decide (Forall (λ x, assigned_to x ∈ sales_reps.*1) assignments))
      as [Hall|Hnot].
    + rewrite Forall_forall in Hall.
      destruct (update_sales_reps_zip_total assignments sales_reps Hall) as (sr' & Hu & _).
      by rewrite Hu in Hnone.
    + apply not_Forall_Exists in Hnot; [|apply _].
      apply Exists_exists in Hnot as (x & Hx & Hnin). eauto.
  - intros (x & Hx & Hnin).
    destruct (update_sales_reps_zip assignments sales_reps) as [sr'|] eqn:Hu; [|done].
    apply update_sales_reps_zip_Some_keys in Hu as [_ Hin]. by apply Hin in Hx.
Qed.

Lemma groups_lookup_unique {V} (groups : list (string * V)) r l1 l2 :
  NoDup groups.*1 → (r, l1) ∈ groups → (r, l2) ∈ groups → l1 = l2.
Proof.
  intros Hnd [i Hi]%list_elem_of_lookup [j Hj]%list_elem_of_lookup.
  assert (i = j) as ->.
  { apply (NoDup_lookup groups.*1 i j r Hnd).
    - by rewrite list_lookup_fmap, Hi.
    - by rewrite list_lookup_fmap, Hj. }
  congruence.
Qed.

(** X5. The roster update is idempotent: run again with the same assignment
    list on the roster it returned, it returns that roster unchanged. *)
Theorem X5_update_twice_is_update_once assignments (sales_reps sales_reps' : roster) :
  NoDup sales_reps.*1 →
  update_sales_reps_zip assignments sales_reps = Some sales_reps' →
  update_sales_reps_zip assignments sales_reps' = Some sales_reps'.
Proof.
  intros Hnd Hu.
  destruct (update_sales_reps_zip_Some_keys _ _ _ Hu) as [Hk Hin].
  destruct (update_sales_reps_zip_total assignments sales_reps') as (sr2 & Hu2 & Hk2).
  { intros x Hx. rewrite Hk. by apply Hin. }
  rewrite Hu2. f_equal.
  destruct (group_by_rep_all assignments) as (Hndg & _ & _).
  assert (NoDup sales_reps'.*1) as Hnd' by by rewrite Hk.
  apply list_eq. intros i.
  destruct (sales_reps' !! i) as [[r d']|] eqn:Hi'.
  - unfold update_sales_reps_zip in Hu, Hu2.
    destruct (update_loop_lookup _ _ _ Hndg Hnd' Hu2 i r d' Hi')
      as (d2 & Hi2 & Hsc2 & Hcase2).
    etrans; [exact Hi2|]. symmetry. etrans; [exact Hi'|]. f_equal. f_equal. symmetry.
    destruct Hcase2 as [[_ ->]|(l2 & a2 & Hl2 & Hlast2 & Hz2)]; [done|].
    assert (is_Some (sales_reps !! i)) as [[r0 d] Hi].
    { apply lookup_lt_is_Some. apply lookup_lt_Some in Hi'.
      by rewrite <-(length_fmap fst sales_reps), <-Hk, length_fmap. }
    destruct (update_loop_lookup _ _ _ Hndg Hnd Hu i r0 d Hi)
      as (d1 & Hi1 & Hsc1 & Hcase1).
    rewrite Hi' in Hi1. simplify_eq.
    destruct Hcase1 as [[Hnin _]|(l1 & a1 & Hl1 & Hlast1 & Hz1)].
    + exfalso. apply Hnin. apply list_elem_of_fmap. by exists (r0, l2).
    + rewrite (groups_lookup_unique _ _ _ _ Hndg Hl1 Hl2) in Hlast1.
      rewrite Hlast1 in Hlast2. simplify_eq.
      destruct d1, d2; simpl in *. congruence.
  - etrans; [|symmetry; exact Hi']. apply lookup_ge_None. apply lookup_ge_None in Hi'.
    by rewrite <-(length_fmap fst sr2), Hk2, length_fmap.
Qed.


(** ** When a call returns *)

Lemma convert_apptdate_is_Some a :
  is_Some (convert_apptdate strptime a) ↔ parses strptime a.
Proof.
  unfold convert_apptdate, parses. destruct (apptdate a) as [str|t].
  - by rewrite fmap_is_Some.
  - split; [done|eauto].
Qed.

Lemma mapM_convert_is_Some appointments :
  is_Some (mapM (convert_apptdate strptime) appointments)
  ↔ Forall (parses strptime) appointments.
Proof.
  rewrite mapM_is_Some. apply Forall_proper; [|done].
  intros a. apply convert_apptdate_is_Some.
Qed.

(** ** The representative with the empty name *)

Lemma truthy_nonempty c rep : truthy c = Some rep → rep ≠ "".
Proof.
  destruct c as [r|]; simpl; [|done].
  destruct (decide (r = "")); intros; by simplify_eq.
Qed.

Lemma match_appointment_nonempty sales_reps idle unmatched a s :
  Forall (λ x, assigned_to x ≠ "") (appointment_assignments s) →
  Forall (λ x, assigned_to x ≠ "")
    (appointment_assignments (match_appointment oracle sales_reps idle unmatched a s)).
Proof.
  intros Hs. unfold match_appointment.
  destruct (find_closest_rep oracle a idle sales_reps (closure s)) as [[c m] e'].
  destruct (truthy c) as [rep|] eqn:Hc; simpl; [|done].
  apply Forall_app. split; [done|]. apply Forall_singleton. simpl.
  by eapply truthy_nonempty.
Qed.

Lemma initial_pass_nonempty sales_reps l : ∀ s,
  Forall (λ x, assigned_to x ≠ "") (appointment_assignments s) →
  Forall (λ x, assigned_to x ≠ "")
    (appointment_assignments (initial_pass oracle sales_reps l s)).
Proof.
  induction l as [|a l IH]; intros s Hs; [done|].
  simpl. by apply IH, match_appointment_nonempty.
Qed.

Lemma reassign_pass_nonempty sales_reps l : ∀ s,
  Forall (λ x, assigned_to x ≠ "") (appointment_assignments s) →
  Forall (λ x, assigned_to x ≠ "")
    (appointment_assignments (reassign_pass oracle sales_reps l s)).
Proof.
  induction l as [|a l IH]; intros s Hs; [done|].
  simpl. by apply IH, match_appointment_nonempty.
Qed.

Lemma resolve_double_booking_sublist ra reps :
  ∀ unassigned assignments unassigned' assignments',
  resolve_double_booking reps ra unassigned assignments
    = Some (unassigned', assignments') →
  assignments' `sublist_of` assignments.
Proof.
  induction reps as [|rep reps IH]; intros u asg u' asg' Hres; simpl in Hres.
  - by simplify_eq.
  - destruct (decide (1 < length (appointments_of ra rep))%nat); [|by eapply IH].
    destruct (sorted float_lt drive_time _) as [|kept extras]; [done|].
    destruct (remove_extras extras u asg) as [[u1 asg1]|] eqn:Hrm; simpl in Hres; [|done].
    apply remove_extras_Some in Hrm as (_ & _ & Hs1 & _).
    etrans; [by eapply IH|done].
Qed.

(** X9. A representative whose name is the empty string is never assigned
    an appointment: [if closest_rep:] takes the empty name for no
    representative at all. *)
Theorem X9_empty_name_is_never_assigned appointments sales_reps t_start t_end w out :
  assign_to_closest_rep oracle strptime appointments sales_reps t_start t_end w = Some out →
  ∀ x, x ∈ returned out → assigned_to x ≠ "".
Proof.
  intros Hrun. apply Forall_forall. unfold assign_to_closest_rep in Hrun.
  destruct (mapM (convert_apptdate strptime) appointments) as [converted|];
    simpl in Hrun; [|done].
  destruct (resolve_double_booking _ _ _ _) as [[disp asg2]|] eqn:Hres;
    simpl in Hrun; [|done].
  simplify_eq/=. apply reassign_pass_nonempty. simpl.
  apply resolve_double_booking_sublist in Hres.
  apply Forall_forall. intros x Hx.
  apply sublist_submseteq in Hres. pose proof (elem_of_submseteq _ _ _ Hx Hres) as Hx1.
  pose proof (initial_pass_nonempty sales_reps (filter_window t_start t_end converted)
                (start_locals sales_reps w) (Forall_nil_2 _)) as Hall.
  rewrite Forall_forall in Hall. by apply Hall.
Qed.


(** ** A window without appointments *)

Lemma resolve_double_booking_fresh ra reps : ∀ unassigned assignments,
  (∀ r, appointments_of ra r = []) →
  resolve_double_booking reps ra unassigned assignments = Some (unassigned, assignments).
Proof.
  induction reps as [|rep reps IH]; intros u asg Hra; simpl; [done|].
  rewrite Hra. simpl. by apply IH.
Qed.

(** X10. A call for a window in which no appointment lies returns the empty
    list, asks nothing of the oracle and prints nothing, whatever the
    roster. *)
Theorem X10_empty_window_costs_nothing appointments converted sales_reps t_start t_end w :
  mapM (convert_apptdate strptime) appointments = Some converted →
  filter_window t_start t_end converted = [] →
  assign_to_closest_rep oracle strptime appointments sales_reps t_start t_end w
  = Some {| returned := []; appointments_after := as_stored <$> converted;
            world_after := w |}.
Proof.
  intros Hconv Hempty. unfold assign_to_closest_rep. rewrite Hconv. simpl.
  rewrite Hempty. simpl.
  rewrite resolve_double_booking_fresh by apply appointments_of_fresh. done.
Qed.

(** ** What the oracle is asked *)

Lemma closest_rep_loop_calls z p idle items : ∀ c m e,
  ∃ new,
    api_calls (outside (closest_rep_loop oracle z p idle (c, m, e) items).2)
      = api_calls (outside e) ++ new
    ∧ Forall (λ call, ∃ rep details, (rep, details) ∈ items ∧ p ∈ scope details
                        ∧ call = (z, curr_zip details)) new.
Proof.
  induction items as [|[rep details] items IH]; intros c m e; simpl.
  - exists []. by rewrite app_nil_r.
  - assert (∀ new1 c1 m1 e1,
      api_calls (outside e1) = api_calls (outside e) ++ new1 →
      Forall (λ call, ∃ rep0 details0, (rep0, details0) ∈ (rep, details) :: items
                        ∧ p ∈ scope details0 ∧ call = (z, curr_zip details0)) new1 →
      ∃ new,
        api_calls (outside (closest_rep_loop oracle z p idle (c1, m1, e1) items).2)
          = api_calls (outside e) ++ new
        ∧ Forall (λ call, ∃ rep0 details0, (rep0, details0) ∈ (rep, details) :: items
                            ∧ p ∈ scope details0 ∧ call = (z, curr_zip details0)) new)
      as Hnext.
    { intros new1 c1 m1 e1 Hcalls Hnew1.
      destruct (IH c1 m1 e1) as (new2 & -> & Hnew2).
      exists (new1 ++ new2). rewrite Hcalls, <-app_assoc. split; [done|].
      apply Forall_app. split; [done|].
      eapply Forall_impl; [done|]. intros call (r0 & d0 & ? & ? & ?).
      exists r0, d0. split_and!; try done. apply elem_of_cons; by right. }
    unfold closest_rep_step.
    destruct (bool_decide (p ∈ scope details)) eqn:Hs; simpl;
      [|apply (Hnext []); [by rewrite app_nil_r|constructor]].
    destruct (idle rep); simpl; [|apply (Hnext []); [by rewrite app_nil_r|constructor]].
    apply bool_decide_eq_true in Hs.
    assert (Forall (λ call, ∃ rep0 details0, (rep0, details0) ∈ (rep, details) :: items
                      ∧ p ∈ scope details0 ∧ call = (z, curr_zip details0))
              [(z, curr_zip details)]) as Hone.
    { apply Forall_singleton. exists rep, details. split_and!; try done.
      apply elem_of_cons; by left. }
    destruct (get_drive_time_cases oracle z (curr_zip details) e)
      as [(t & _ & ->)|[(v & _ & _ & ->)|(_ & _ & ->)]].
    + destruct (float_lt (Fin t) m);
        (apply (Hnext []); [by rewrite app_nil_r|constructor]).
    + destruct (float_lt (Fin (minutes_of v)) m); by apply (Hnext [(z, curr_zip details)]).
    + by apply (Hnext [(z, curr_zip details)]).
Qed.

Lemma match_appointment_calls sales_reps idle unmatched a s :
  ∃ new,
    api_calls (outside (closure (match_appointment oracle sales_reps idle unmatched a s)))
      = api_calls (outside (closure s)) ++ new
    ∧ Forall (asked_for sales_reps a) new.
Proof.
  unfold match_appointment, find_closest_rep.
  destruct (closest_rep_loop_calls (Zip a) (productid a) idle sales_reps None Inf
              (closure s)) as (new & Hcalls & Hnew).
  destruct (closest_rep_loop oracle (Zip a) (productid a) idle (None, Inf, closure s)
              sales_reps) as [[c m] e']. simpl in Hcalls.
  exists new. split; [by destruct (truthy c)|done].
Qed.

Lemma matching_pass_calls sales_reps idle_of unmatched l : ∀ s,
  ∃ new,
    api_calls (outside (closure
      (foldl (λ s a, match_appointment oracle sales_reps (idle_of s) unmatched a s) s l)))
      = api_calls (outside (closure s)) ++ new
    ∧ Forall (λ call, ∃ a, a ∈ l ∧ asked_for sales_reps a call) new.
Proof.
  induction l as [|a l IH]; intros s; simpl.
  - exists []. by rewrite app_nil_r.
  - destruct (match_appointment_calls sales_reps (idle_of s) unmatched a s)
      as (new1 & Hcalls1 & Hnew1).
    destruct (IH (match_appointment oracle sales_reps (idle_of s) unmatched a s))
      as (new2 & -> & Hnew2).
    exists (new1 ++ new2). rewrite Hcalls1, <-app_assoc. split; [done|].
    apply Forall_app. split.
    + eapply Forall_impl; [done|]. intros call Hcall. exists a.
      split; [apply elem_of_cons; by left|done].
    + eapply Forall_impl; [done|]. intros call (a' & Ha' & Hcall). exists a'.
      split; [apply elem_of_cons; by right|done].
Qed.

Lemma remove_extras_displaced extras : ∀ unassigned assignments unassigned' assignments',
  remove_extras extras unassigned assignments = Some (unassigned', assignments') →
  ∀ a, a ∈ unassigned' → a ∈ unassigned ∨ a ∈ appt <$> assignments.
Proof.
  intros u asg u' asg' Hrm a Ha.
  apply remove_extras_Some in Hrm as (-> & Hp & _ & _).
  apply elem_of_app in Ha as [?|Ha]; [by left|]. right.
  rewrite Hp, fmap_app. apply elem_of_app. by left.
Qed.

Lemma resolve_double_booking_displaced ra reps :
  ∀ unassigned assignments unassigned' assignments',
  resolve_double_booking reps ra unassigned assignments
    = Some (unassigned', assignments') →
  ∀ a, a ∈ unassigned' → a ∈ unassigned ∨ a ∈ appt <$> assignments.
Proof.
  induction reps as [|rep reps IH]; intros u asg u' asg' Hres a Ha; simpl in Hres.
  - simplify_eq. by left.
  - destruct (decide (1 < length (appointments_of ra rep))%nat); [|by eapply IH].
    destruct (sorted float_lt drive_time _) as [|kept extras]; [done|].
    destruct (remove_extras extras u asg) as [[u1 asg1]|] eqn:Hrm; simpl in Hres; [|done].
    destruct (IH _ _ _ _ Hres a Ha) as [Hu1|Hin].
    + by eapply remove_extras_displaced.
    + right. apply remove_extras_Some in Hrm as (_ & _ & Hs1 & _).
      eapply elem_of_submseteq; [done|].
      by apply fmap_submseteq, sublist_submseteq.
Qed.

(** X11. What a call of [assign_to_closest_rep] asks of the oracle: the
    calls it adds all go from the place of an appointment of the window to
    the current place of a representative whose scope holds that
    appointment's product.  Appointments outside the window and
    representatives out of scope cost no call. *)
Theorem X11_oracle_asked_only_for_eligible_pairs appointments sales_reps t_start t_end w out :
  assign_to_closest_rep oracle strptime appointments sales_reps t_start t_end w = Some out →
  ∃ converted new,
    mapM (convert_apptdate strptime) appointments = Some converted
    ∧ api_calls (world_after out) = api_calls w ++ new
    ∧ ∀ call, call ∈ new →
        ∃ a, a ∈ filter_window t_start t_end converted ∧ asked_for sales_reps a call.
Proof.
  intros Hrun. unfold assign_to_closest_rep in Hrun.
  destruct (mapM (convert_apptdate strptime) appointments) as [converted|];
    simpl in Hrun; [|done].
  exists converted.
  set (filtered := filter_window t_start t_end converted) in *.
  fold (start_locals sales_reps w) in Hrun.
  destruct (matching_pass_spec oracle sales_reps (λ _ _, true) NoEligibleRep filtered
              (start_locals sales_reps w)) as (_ & new1 & Hasg1 & Hsub1 & _).
  destruct (matching_pass_calls sales_reps (λ _ _, true) NoEligibleRep filtered
              (start_locals sales_reps w)) as (calls1 & Hcalls1 & Hfor1).
  rewrite <-initial_pass_foldl in Hasg1, Hcalls1.
  set (s1 := initial_pass oracle sales_reps filtered (start_locals sales_reps w)) in *.
  simpl in Hasg1, Hcalls1.
  destruct (resolve_double_booking _ _ _ _) as [[disp asg2]|] eqn:Hres;
    simpl in Hrun; [|done].
  pose proof (resolve_double_booking_displaced _ _ _ _ _ _ Hres) as Hdisp.
  set (s2 := {| rep_appointments := rep_appointments s1;
                appointment_assignments := asg2;
                closure := closure s1 |}) in *.
  destruct (matching_pass_calls sales_reps
              (λ s rep, bool_decide (appointments_of (rep_appointments s) rep = []))
              CouldNotAssign disp s2) as (calls3 & Hcalls3 & Hfor3).
  rewrite <-reassign_pass_foldl in Hcalls3. simpl in Hcalls3.
  simplify_eq/=. exists (calls1 ++ calls3).
  split; [done|]. split; [by rewrite Hcalls3, Hcalls1, <-app_assoc|].
  rewrite Forall_forall in Hfor1, Hfor3.
  intros call [Hc|Hc]%elem_of_app; [by apply Hfor1|].
  destruct (Hfor3 call Hc) as (a & Ha & Hcall). exists a. split; [|done].
  destruct (Hdisp a Ha) as [Hnil|Hin]; [by apply elem_of_nil in Hnil|].
  eapply elem_of_submseteq; [done|by apply sublist_submseteq].
Qed.


(** ** How many calls a window costs *)

Lemma closest_rep_loop_calls_length z p idle items : ∀ c m e,
  (length (api_calls (outside (closest_rep_loop oracle z p idle (c, m, e) items).2))
   ≤ length (api_calls (outside e)) + length items)%nat.
Proof.
  induction items as [|[rep details] items IH]; intros c m e; simpl; [lia|].
  unfold closest_rep_step.
  destruct (bool_decide (p ∈ scope details) && idle rep);
    [|specialize (IH c m e); lia].
  destruct (get_drive_time_cases oracle z (curr_zip details) e)
    as [(t & _ & ->)|[(v & _ & _ & ->)|(_ & _ & ->)]].
  - destruct (float_lt (Fin t) m); [specialize (IH (Some rep) (Fin t) e)
                                   |specialize (IH c m e)]; lia.
  - destruct (float_lt (Fin (minutes_of v)) m);
      match goal with
      | |- context [closest_rep_loop oracle z p idle (?c1, ?m1, ?e1) items] =>
          specialize (IH c1 m1 e1)
      end; simpl in IH; rewrite length_app in IH; simpl in IH; lia.
  - match goal with
    | |- context [closest_rep_loop oracle z p idle (?c1, ?m1, ?e1) items] =>
        specialize (IH c1 m1 e1)
    end; simpl in IH; rewrite length_app in IH; simpl in IH; lia.
Qed.

Lemma match_appointment_calls_length (sales_reps : roster) idle unmatched a s :
  (length (api_calls (outside (closure
     (match_appointment oracle sales_reps idle unmatched a s))))
   ≤ length (api_calls (outside (closure s))) + length sales_reps)%nat.
Proof.
  unfold match_appointment, find_closest_rep.
  pose proof (closest_rep_loop_calls_length (Zip a) (productid a) idle sales_reps
                None Inf (closure s)) as Hlen.
  destruct (closest_rep_loop oracle (Zip a) (productid a) idle (None, Inf, closure s)
              sales_reps) as [[c m] e']. simpl in Hlen.
  by destruct (truthy c).
Qed.

Lemma matching_pass_calls_length (sales_reps : roster) idle_of unmatched l : ∀ s,
  (length (api_calls (outside (closure
     (foldl (λ s a, match_appointment oracle sales_reps (idle_of s) unmatched a s) s l))))
   ≤ length (api_calls (outside (closure s))) + length l * length sales_reps)%nat.
Proof.
  induction l as [|a l IH]; intros s; simpl; [lia|].
  pose proof (match_appointment_calls_length sales_reps (idle_of s) unmatched a s).
  specialize (IH (match_appointment oracle sales_reps (idle_of s) unmatched a s)). lia.
Qed.

Lemma remove_extras_length extras : ∀ unassigned assignments unassigned' assignments',
  remove_extras extras unassigned assignments = Some (unassigned', assignments') →
  (length unassigned' + length assignments' = length unassigned + length assignments)%nat.
Proof.
  intros u asg u' asg' Hrm.
  apply remove_extras_Some in Hrm as (-> & Hp & _ & _).
  apply Permutation_length in Hp. rewrite length_app in Hp.
  rewrite length_app, length_fmap. lia.
Qed.

Lemma resolve_double_booking_length ra reps :
  ∀ unassigned assignments unassigned' assignments',
  resolve_double_booking reps ra unassigned assignments
    = Some (unassigned', assignments') →
  (length unassigned' + length assignments' = length unassigned + length assignments)%nat.
Proof.
  induction reps as [|rep reps IH]; intros u asg u' asg' Hres; simpl in Hres.
  - by simplify_eq.
  - destruct (decide (1 < length (appointments_of ra rep))%nat); [|by eapply IH].
    destruct (sorted float_lt drive_time _) as [|kept extras]; [done|].
    destruct (remove_extras extras u asg) as [[u1 asg1]|] eqn:Hrm; simpl in Hres; [|done].
    apply remove_extras_length in Hrm. apply IH in Hres. lia.
Qed.

(** X21. A call of [assign_to_closest_rep] asks the oracle at most twice
    for each pair of an appointment of the window and a representative of
    the roster: once at most in the initial pass and once at most in the
    reassignment pass. *)
Theorem X21_calls_are_bounded appointments sales_reps t_start t_end w out :
  assign_to_closest_rep oracle strptime appointments sales_reps t_start t_end w = Some out →
  ∃ converted,
    mapM (convert_apptdate strptime) appointments = Some converted
    ∧ (length (api_calls (world_after out))
       ≤ length (api_calls w)
         + 2 * (length (filter_window t_start t_end converted) * length sales_reps))%nat.
Proof.
  intros Hrun. unfold assign_to_closest_rep in Hrun.
  destruct (mapM (convert_apptdate strptime) appointments) as [converted|];
    simpl in Hrun; [|done].
  exists converted. split; [done|].
  set (filtered := filter_window t_start t_end converted) in *.
  fold (start_locals sales_reps w) in Hrun.
  destruct (matching_pass_spec oracle sales_reps (λ _ _, true) NoEligibleRep filtered
              (start_locals sales_reps w)) as (_ & new1 & Hasg1 & Hsub1 & _).
  pose proof (matching_pass_calls_length sales_reps (λ _ _, true) NoEligibleRep filtered
                (start_locals sales_reps w)) as Hcalls1.
  rewrite <-initial_pass_foldl in Hasg1, Hcalls1.
  set (s1 := initial_pass oracle sales_reps filtered (start_locals sales_reps w)) in *.
  simpl in Hasg1, Hcalls1.
  destruct (resolve_double_booking _ _ _ _) as [[disp asg2]|] eqn:Hres;
    simpl in Hrun; [|done].
  apply resolve_double_booking_length in Hres. simpl in Hres.
  set (s2 := {| rep_appointments := rep_appointments s1;
                appointment_assignments := asg2;
                closure := closure s1 |}) in *.
  pose proof (matching_pass_calls_length sales_reps
                (λ s rep, bool_decide (appointments_of (rep_appointments s) rep = []))
                CouldNotAssign disp s2) as Hcalls3.
  rewrite <-reassign_pass_foldl in Hcalls3. simpl in Hcalls3.
  simplify_eq/=.
  apply sublist_length in Hsub1. rewrite length_fmap in Hsub1.
  assert (length disp ≤ length filtered)%nat as Hdisp by lia.
  assert (length disp * length sales_reps ≤ length filtered * length sales_reps)%nat
    by by apply Nat.mul_le_mono_r.
  lia.
Qed.

(** ** The run over the three windows *)

Lemma run_workflow_cover appointments sales_reps t_start t_end n allow w converted r :
  mapM (convert_apptdate strptime) appointments = Some converted →
  run_workflow oracle strptime zip_to_city modify_sales_reps appointments sales_reps
    t_start t_end n allow w = Some r →
  store_after r = as_stored <$> converted
  ∧ printed w `prefix_of` printed (world_then r)
  ∧ ∃ xs, results r = row_of zip_to_city <$> xs
      ∧ appt <$> xs ⊆+ filter_window t_start t_end converted
      ∧ ∀ a, a ∈ filter_window t_start t_end converted →
          a ∈ appt <$> xs
          ∨ NoEligibleRep (custnumber a) (Zip a) ∈ printed (world_then r)
          ∨ CouldNotAssign (custnumber a) (Zip a) ∈ printed (world_then r).
Proof.
  intros Hconv Hrun. unfold run_workflow, process_time_window in Hrun.
  destruct (assign_to_closest_rep_spec oracle strptime appointments sales_reps t_start
              t_end w converted Hconv)
    as (out & Hout & Hafter & Hsub & _ & _ & Hcov & _ & Hpr).
  rewrite Hout in Hrun. simpl in Hrun.
  destruct (update_sales_reps_zip (returned out) sales_reps) as [sr1|]; [|done].
  simplify_eq/=. split_and!; try done. by exists (returned out).
Qed.

Lemma run_windows_blocks converted windows :
  ∀ appointments sales_reps all_results w rows sales_reps' w',
  mapM (convert_apptdate strptime) appointments = Some converted →
  run_windows oracle strptime zip_to_city modify_sales_reps windows appointments
    sales_reps all_results w = Some (rows, sales_reps', w') →
  printed w `prefix_of` printed w'
  ∧ ∃ xss,
      rows = all_results
             ++ concat (zip_with (λ win xs, WindowTitle win.1.1.1
                                     :: (row_of zip_to_city <$> xs) ++ [BlankRow])
                          windows xss)
      ∧ Forall2 (λ win xs,
           appt <$> xs ⊆+ filter_window win.1.1.2 win.1.2 converted
           ∧ ∀ a, a ∈ filter_window win.1.1.2 win.1.2 converted →
               a ∈ appt <$> xs
               ∨ NoEligibleRep (custnumber a) (Zip a) ∈ printed w'
               ∨ CouldNotAssign (custnumber a) (Zip a) ∈ printed w')
          windows xss.
Proof.
  induction windows as [|[[[n t_start] t_end] allow] windows IH];
    intros appointments sales_reps all_results w rows sr' w' Hconv Hrun; simpl in Hrun.
  - simplify_eq. split; [done|]. exists []. simpl. rewrite app_nil_r.
    split; [done|constructor].
  - destruct (run_workflow _ _ _ _ _ _ _ _ _ _ _) as [r|] eqn:Hr; simpl in Hrun; [|done].
    destruct (run_workflow_cover _ _ _ _ _ _ _ _ _ Hconv Hr)
      as (Hstore & Hpr & xs & Hres & Hsub & Hcov).
    apply IH in Hrun as (Hpr' & xss & -> & Hall).
    2:{ rewrite Hstore. apply mapM_convert_stored. }
    split; [by etrans|]. exists (xs :: xss). split.
    + simpl. rewrite Hres, <-!app_assoc. simpl. by rewrite <-!app_assoc.
    + constructor; [|done]. simpl. split; [done|].
      intros a Ha. destruct (Hcov a Ha) as [?|[?|?]]; [by left| |].
      * right; left. by eapply elem_of_prefix.
      * right; right. by eapply elem_of_prefix.
Qed.

Lemma foldl_min_le (l : list datetime) : ∀ t : datetime,
  (foldl Z.min t l ≤ t)%Z ∧ ∀ x, x ∈ l → (foldl Z.min t l ≤ x)%Z.
Proof.
  induction l as [|y l IH]; intros t; simpl.
  - split; [done|]. intros x Hx. by apply elem_of_nil in Hx.
  - destruct (IH (Z.min t y)) as [Hle Hall]. split; [lia|].
    intros x [->|Hx]%elem_of_cons; [lia|by apply Hall].
Qed.

Lemma foldl_max_ge (l : list datetime) : ∀ t : datetime,
  (t ≤ foldl Z.max t l)%Z ∧ ∀ x, x ∈ l → (x ≤ foldl Z.max t l)%Z.
Proof.
  induction l as [|y l IH]; intros t; simpl.
  - split; [done|]. intros x Hx. by apply elem_of_nil in Hx.
  - destruct (IH (Z.max t y)) as [Hle Hall]. split; [lia|].
    intros x [->|Hx]%elem_of_cons; [lia|by apply Hall].
Qed.

Lemma min_time_le (l : list datetime) (t x : datetime) :
  min_time l = Some t → x ∈ l → (t ≤ x)%Z.
Proof.
  destruct l as [|y l]; [done|]. simpl. intros ? Hx. simplify_eq.
  destruct (foldl_min_le l y) as [Hle Hall].
  apply elem_of_cons in Hx as [->|Hx]; [done|by apply Hall].
Qed.

Lemma max_time_ge (l : list datetime) (t x : datetime) :
  max_time l = Some t → x ∈ l → (x ≤ t)%Z.
Proof.
  destruct l as [|y l]; [done|]. simpl. intros ? Hx. simplify_eq.
  destruct (foldl_max_ge l y) as [Hle Hall].
  apply elem_of_cons in Hx as [->|Hx]; [done|by apply Hall].
Qed.

Lemma row_customers_app rows1 rows2 :
  row_customers (rows1 ++ rows2) = row_customers rows1 ++ row_customers rows2.
Proof. apply omap_app. Qed.

Lemma row_customers_rows xs :
  row_customers (row_of zip_to_city <$> xs) = custnumber <$> (appt <$> xs).
Proof. induction xs as [|x xs IH]; [done|]. rewrite !fmap_cons. simpl. by rewrite <-IH. Qed.

Lemma row_customers_block n xs :
  row_customers (WindowTitle n :: (row_of zip_to_city <$> xs) ++ [BlankRow])
  = custnumber <$> (appt <$> xs).
Proof.
  change (WindowTitle n :: (row_of zip_to_city <$> xs) ++ [BlankRow])
    with ([WindowTitle n] ++ (row_of zip_to_city <$> xs) ++ [BlankRow]).
  rewrite !row_customers_app, row_customers_rows. simpl. by rewrite app_nil_r.
Qed.

Lemma filter_three_disjoint {A} (P1 P2 P3 : A → Prop)
    `{!∀ x, Decision (P1 x), !∀ x, Decision (P2 x), !∀ x, Decision (P3 x)} (l : list A) :
  (∀ x, P1 x → P2 x → False) → (∀ x, P1 x → P3 x → False) →
  (∀ x, P2 x → P3 x → False) →
  filter P1 l ++ filter P2 l ++ filter P3 l ⊆+ l.
Proof.
  intros H12 H13 H23. induction l as [|x l IH]; [done|].
  rewrite !filter_cons.
  destruct (decide (P1 x)) as [Hx1|Hx1], (decide (P2 x)) as [Hx2|Hx2],
    (decide (P3 x)) as [Hx3|Hx3];
    try (exfalso; by eauto).
  - simpl. by apply submseteq_skip.
  - simpl. rewrite <-Permutation_middle. by apply submseteq_skip.
  - rewrite (assoc (++)), <-Permutation_middle, <-(assoc (++)). by apply submseteq_skip.
  - by apply submseteq_cons.
Qed.

Lemma main_workflow_blocks appointments sales_reps w rows sales_reps' w' :
  main_workflow oracle strptime zip_to_city modify_sales_reps appointments sales_reps w
    = Some (rows, sales_reps', w') →
  ∃ converted earliest_time last_time xs1 xs2 xs3,
    mapM (convert_apptdate strptime) appointments = Some converted
    ∧ min_time (apptdate <$> converted) = Some earliest_time
    ∧ max_time (apptdate <$> converted) = Some last_time
    ∧ rows = (WindowTitle 1 :: (row_of zip_to_city <$> xs1) ++ [BlankRow])
             ++ (WindowTitle 2 :: (row_of zip_to_city <$> xs2) ++ [BlankRow])
             ++ (WindowTitle 3 :: (row_of zip_to_city <$> xs3) ++ [BlankRow])
    ∧ Forall2 (λ win xs,
         appt <$> xs ⊆+ filter_window win.1.1.2 win.1.2 converted
         ∧ ∀ a, a ∈ filter_window win.1.1.2 win.1.2 converted →
             a ∈ appt <$> xs
             ∨ NoEligibleRep (custnumber a) (Zip a) ∈ printed w'
             ∨ CouldNotAssign (custnumber a) (Zip a) ∈ printed w')
        (time_windows earliest_time last_time) [xs1; xs2; xs3].
Proof.
  unfold main_workflow. intros Hrun.
  destruct (mapM (convert_apptdate strptime) appointments) as [converted|] eqn:Hconv;
    [|done].
  cbn -[run_windows min_time max_time] in Hrun.
  destruct (min_time (apptdate <$> converted)) as [t0|] eqn:Hmin; [|done].
  cbn -[run_windows min_time max_time] in Hrun.
  destruct (max_time (apptdate <$> converted)) as [t1|] eqn:Hmax; [|done].
  cbn -[run_windows] in Hrun.
  destruct (run_windows_blocks converted _ _ _ _ _ _ _ _
              (mapM_convert_stored strptime converted) Hrun)
    as (_ & xss & -> & Hall).
  exists converted, t0, t1.
  pose proof Hall as Hall'. unfold time_windows in Hall'.
  apply Forall2_cons_inv_l in Hall' as (xs1 & ? & _ & Hall' & ->).
  apply Forall2_cons_inv_l in Hall' as (xs2 & ? & _ & Hall' & ->).
  apply Forall2_cons_inv_l in Hall' as (xs3 & ? & _ & Hall' & ->).
  apply Forall2_nil_inv_l in Hall' as ->.
  exists xs1, xs2, xs3. split_and!; try done.
  unfold time_windows. simpl. by rewrite app_nil_r.
Qed.

(** X7. No appointment is lost without a trace by a run of [main_workflow]
    that reaches the export: each appointment has its time in a gap between
    two windows, or has a result row, or has one of the diagnostics
    ["No eligible rep found"] and ["Could not assign"] printed for it. *)
Theorem X7_every_appointment_is_accounted_for appointments sales_reps w rows sales_reps' w' :
  main_workflow oracle strptime zip_to_city modify_sales_reps appointments sales_reps w
    = Some (rows, sales_reps', w') →
  ∃ converted earliest_time,
    mapM (convert_apptdate strptime) appointments = Some converted
    ∧ min_time (apptdate <$> converted) = Some earliest_time
    ∧ ∀ a, a ∈ converted →
        in_a_gap earliest_time (apptdate a)
        ∨ (∃ rep dt, ResultRow (custnumber a) (apptdate a) (zip_to_city (Zip a))
                       (productid a) rep dt ∈ rows)
        ∨ NoEligibleRep (custnumber a) (Zip a) ∈ printed w'
        ∨ CouldNotAssign (custnumber a) (Zip a) ∈ printed w'.
Proof.
  intros Hrun.
  destruct (main_workflow_blocks _ _ _ _ _ _ Hrun)
    as (converted & t0 & t1 & xs1 & xs2 & xs3 & Hconv & Hmin & Hmax & -> & Hall).
  exists converted, t0. split_and!; try done. intros a Ha.
  assert (t0 ≤ apptdate a ≤ t1)%Z as Hbounds.
  { split; [eapply min_time_le|eapply max_time_ge]; try done;
      apply list_elem_of_fmap; eauto. }
  unfold time_windows in Hall.
  apply Forall2_cons in Hall as [[_ Hc1] Hall].
  apply Forall2_cons in Hall as [[_ Hc2] Hall].
  apply Forall2_cons in Hall as [[_ Hc3] _].
  simpl in Hc1, Hc2, Hc3.
  assert (∀ xs : list assignment, a ∈ appt <$> xs →
    ∃ rep dt, ResultRow (custnumber a) (apptdate a) (zip_to_city (Zip a))
                (productid a) rep dt ∈ row_of zip_to_city <$> xs) as Hrow.
  { intros xs (x & -> & Hx)%list_elem_of_fmap. exists (assigned_to x), (drive_time x).
    apply list_elem_of_fmap. by exists x. }
  assert (in_a_gap t0 (apptdate a)
          ∨ a ∈ filter_window t0 (t0 + timedelta 2 0) converted
          ∨ a ∈ filter_window (t0 + timedelta 2 1) (t0 + timedelta 5 0) converted
          ∨ a ∈ filter_window (t0 + timedelta 5 1) t1 converted) as Hwhere.
  { unfold in_a_gap, filter_window, timedelta.
    destruct (decide (apptdate a ≤ t0 + (2 * 3600 + 0 * 60))%Z);
      [right; left; apply list_elem_of_filter; split; [split; lia|done]|].
    destruct (decide (apptdate a < t0 + (2 * 3600 + 1 * 60))%Z); [left; lia|].
    destruct (decide (apptdate a ≤ t0 + (5 * 3600 + 0 * 60))%Z);
      [right; right; left; apply list_elem_of_filter; split; [split; lia|done]|].
    destruct (decide (apptdate a < t0 + (5 * 3600 + 1 * 60))%Z); [left; lia|].
    right; right; right. apply list_elem_of_filter. split; [split; lia|done]. }
  destruct Hwhere as [?|[Hw|[Hw|Hw]]]; [by left| | |].
  - destruct (Hc1 a Hw) as [Hin|[?|?]]; [|by auto|by auto].
    right; left. destruct (Hrow xs1 Hin) as (rep & dt & Hr). exists rep, dt.
    apply elem_of_app. left. apply elem_of_cons. right. apply elem_of_app. by left.
  - destruct (Hc2 a Hw) as [Hin|[?|?]]; [|by auto|by auto].
    right; left. destruct (Hrow xs2 Hin) as (rep & dt & Hr). exists rep, dt.
    apply elem_of_app. right. apply elem_of_app. left.
    apply elem_of_cons. right. apply elem_of_app. by left.
  - destruct (Hc3 a Hw) as [Hin|[?|?]]; [|by auto|by auto].
    right; left. destruct (Hrow xs3 Hin) as (rep & dt & Hr). exists rep, dt.
    apply elem_of_app. right. apply elem_of_app. right.
    apply elem_of_cons. right. apply elem_of_app. by left.
Qed.

(** X8. The export holds at most one row per appointment: the customer
    numbers of the result rows are, counted with their multiplicity, among
    those of the appointments.  So with distinct customer numbers no
    customer has two rows, in one window or across windows. *)
Theorem X8_at_most_one_row_per_appointment appointments sales_reps w rows sales_reps' w' :
  main_workflow oracle strptime zip_to_city modify_sales_reps appointments sales_reps w
    = Some (rows, sales_reps', w') →
  row_customers rows ⊆+ custnumber <$> appointments
  ∧ (NoDup (custnumber <$> appointments) → NoDup (row_customers rows)).
Proof.
  intros Hrun.
  assert (row_customers rows ⊆+ custnumber <$> appointments) as Hsub;
    [|split; [done|intros Hnd; apply submseteq_Permutation in Hsub as [k Hk];
              rewrite Hk in Hnd; by apply NoDup_app in Hnd as [? _]]].
  destruct (main_workflow_blocks _ _ _ _ _ _ Hrun)
    as (converted & t0 & t1 & xs1 & xs2 & xs3 & Hconv & _ & _ & -> & Hall).
  unfold time_windows in Hall.
  apply Forall2_cons in Hall as [[Hs1 _] Hall].
  apply Forall2_cons in Hall as [[Hs2 _] Hall].
  apply Forall2_cons in Hall as [[Hs3 _] _].
  simpl in Hs1, Hs2, Hs3.
  rewrite !row_customers_app, !row_customers_block, <-!fmap_app.
  rewrite <-(convert_custnumbers strptime _ _ Hconv). apply fmap_submseteq.
  rewrite !fmap_app.
  etrans; [apply submseteq_app; [done|apply submseteq_app; done]|].
  apply filter_three_disjoint; unfold in_window, timedelta; intros; lia.
Qed.


(** ** The roster after a window *)

(** X12. After a window the roster has the same names and scopes, and the
    rule of the latest appointment never has to choose: a representative
    named in the window's assignments stands at the [Zip] of its one
    appointment there, and every other representative keeps its details.
    The editor, when the window allows it, is handed that roster. *)
Theorem X12_roster_after_a_window appointments sales_reps t_start t_end n allow w r :
  NoDup sales_reps.*1 →
  run_workflow oracle strptime zip_to_city modify_sales_reps appointments sales_reps
    t_start t_end n allow w = Some r →
  ∃ out sales_reps1,
    process_time_window oracle strptime appointments sales_reps t_start t_end w = Some out
    ∧ results r = row_of zip_to_city <$> returned out
    ∧ roster_after r
      = (if allow then modify_sales_reps sales_reps1 n t_start t_end else sales_reps1)
    ∧ sales_reps1.*1 = sales_reps.*1
    ∧ ∀ i rep details, sales_reps !! i = Some (rep, details) →
        ∃ details',
          sales_reps1 !! i = Some (rep, details')
          ∧ scope details' = scope details
          ∧ (∀ x, x ∈ returned out → assigned_to x = rep →
               curr_zip details' = Zip (appt x))
          ∧ (rep ∉ assigned_to <$> returned out → details' = details).
Proof.
  intros Hnd Hrun. unfold run_workflow, process_time_window in *.
  destruct (assign_to_closest_rep oracle strptime appointments sales_reps t_start t_end w)
    as [out|] eqn:Hout; simpl in Hrun; [|done].
  destruct (update_sales_reps_zip (returned out) sales_reps) as [sr1|] eqn:Hu;
    simpl in Hrun; [|done].
  simplify_eq/=. exists out, sr1.
  destruct (update_sales_reps_zip_Some_keys _ _ _ Hu) as [Hk _].
  split_and!; try done.
  intros i rep d Hi.
  destruct (group_by_rep_all (returned out)) as (Hndg & Hgr & Hcovg).
  destruct (update_loop_lookup _ _ _ Hndg Hnd Hu i rep d Hi) as (d' & Hi' & Hsc & Hcase).
  exists d'. split_and!; try done.
  - intros x Hx Hrep.
    destruct Hcase as [[Hnin _]|(l & a & Hl & Hlast & ->)].
    { exfalso. apply Hnin. rewrite <-Hrep. by apply Hcovg. }
    destruct (Hgr rep l Hl) as [_ ->].
    destruct (assign_to_closest_rep_converted _ _ _ _ _ _ _ _ Hout) as [converted Hconv].
    destruct (assign_to_closest_rep_spec oracle strptime appointments sales_reps t_start
                t_end w converted Hconv) as (out' & Hout' & _ & _ & Hbooked & _).
    rewrite Hout in Hout'. simplify_eq.
    assert (x ∈ filter (λ y, assigned_to y = assigned_to x) (returned out')) as Hxf
      by by apply list_elem_of_filter.
    specialize (Hbooked (assigned_to x)). unfold booked in Hbooked.
    destruct (filter _ (returned out')) as [|y [|z k]]; simpl in Hbooked;
      [by apply elem_of_nil in Hxf| |lia].
    apply list_elem_of_singleton in Hxf as ->. simpl in Hlast. by simplify_eq.
  - intros Hnin. destruct Hcase as [[_ ?]|(l & a & Hl & _)]; [done|].
    exfalso. apply Hnin. destruct (Hgr rep l Hl) as [Hne ->].
    destruct (filter _ (returned out)) as [|y k] eqn:Hf; [done|].
    assert (y ∈ filter (λ y, assigned_to y = rep) (returned out)) as Hy
      by (rewrite Hf; apply elem_of_cons; by left).
    apply list_elem_of_filter in Hy as [<- Hy]. apply list_elem_of_fmap. eauto.
Qed.

End engine_more.

(** * Properties of the user input *)

(** ** [str] methods *)

Lemma lstrip_cases s :
  lstrip s = "" ∨ ∃ c s', lstrip s = String c s' ∧ isspace c = false.
Proof.
  induction s as [|c s IH]; simpl; [by left|].
  destruct (isspace c) eqn:Hc; [done|]. right. eauto.
Qed.

Lemma rstrip_cons c s :
  rstrip (String c s) = "" ∨ rstrip (String c s) = String c (rstrip s).
Proof.
  simpl. destruct (rstrip s); [|by right].
  destruct (isspace c); [by left|by right].
Qed.

Lemma rstrip_idem s : rstrip (rstrip s) = rstrip s.
Proof.
  induction s as [|c s IH]; [done|].
  simpl. destruct (rstrip s) as [|c' r] eqn:Hr.
  - destruct (isspace c) eqn:Hc; simpl; [done|]. by rewrite Hc.
  - change (rstrip (String c (String c' r))) with
      (match rstrip (String c' r) with
       | EmptyString => if isspace c then EmptyString else String c EmptyString
       | r0 => String c r0
       end).
    by rewrite IH.
Qed.

Lemma strip_idem s : strip (strip s) = strip s.
Proof.
  unfold strip. destruct (lstrip_cases s) as [->|(c & s' & -> & Hc)]; [done|].
  destruct (rstrip_cons c s') as [->|Hr]; [done|].
  rewrite Hr at 1. simpl lstrip. rewrite Hc, <-Hr. apply rstrip_idem.
Qed.

Lemma str_split_nonempty sep s : str_split sep s ≠ [].
Proof.
  destruct s as [|c s]; simpl; [done|].
  destruct (decide (c = sep)); [done|]. by destruct (str_split sep s).
Qed.

Lemma splitlines_nonempty c s : splitlines (String c s) ≠ [].
Proof.
  simpl. destruct (is_line_boundary c).
  - destruct s as [|c' s]; [done|]. by destruct (decide _).
  - by destruct (splitlines s).
Qed.

Lemma length_str_split sep s : length (str_split sep s) = S (count_char sep s).
Proof.
  induction s as [|c s IH]; simpl; [done|].
  destruct (decide (c = sep)); simpl; [by rewrite IH|].
  destruct (str_split sep s); simpl in *; [done|lia].
Qed.

Lemma str_split_app sep s t :
  str_split sep (s +:+ String sep t) = str_split sep s ++ str_split sep t.
Proof.
  induction s as [|c s IH]; simpl.
  - by rewrite decide_True.
  - destruct (decide (c = sep)); [by rewrite IH|].
    rewrite IH. pose proof (str_split_nonempty sep s).
    by destruct (str_split sep s).
Qed.

(** ** Dictionaries *)

Lemma dict_set_keys {V} k (v : V) d :
  (dict_set k v d).*1 = if decide (k ∈ d.*1) then d.*1 else d.*1 ++ [k].
Proof.
  induction d as [|[k0 v0] d IH]; [done|].
  rewrite fmap_cons. cbn [dict_set fst].
  destruct (decide (k0 = k)) as [->|Hne].
  - rewrite fmap_cons. cbn [fst]. rewrite decide_True; [done|]. apply elem_of_cons; by left.
  - rewrite fmap_cons, IH. cbn [fst].
    destruct (decide (k ∈ d.*1)) as [Hin|Hnin].
    + rewrite decide_True; [done|]. apply elem_of_cons; by right.
    + rewrite decide_False; [done|]. intros [?|?]%elem_of_cons; done.
Qed.

Lemma dict_set_NoDup {V} k (v : V) d : NoDup d.*1 → NoDup (dict_set k v d).*1.
Proof.
  intros Hnd. rewrite dict_set_keys. destruct (decide (k ∈ d.*1)); [done|].
  apply NoDup_app. split_and!; [done| |apply NoDup_singleton].
  intros x Hx ->%list_elem_of_singleton. done.
Qed.

Lemma dict_set_elem_of {V} k (v : V) d k' v' :
  NoDup d.*1 →
  (k', v') ∈ dict_set k v d ↔ (k' = k ∧ v' = v) ∨ (k' ≠ k ∧ (k', v') ∈ d).
Proof.
  induction d as [|[k0 v0] d IH]; intros Hnd; simpl.
  - rewrite list_elem_of_singleton. split.
    + intros ?; simplify_eq. by left.
    + intros [[-> ->]|[_ Hin]]; [done|by apply elem_of_nil in Hin].
  - rewrite fmap_cons in Hnd. apply NoDup_cons in Hnd as [Hk0 Hnd]. simpl in Hk0.
    destruct (decide (k0 = k)) as [->|Hne].
    + rewrite !elem_of_cons. split.
      * intros [?|Hin]; [simplify_eq; by left|].
        right. split; [|by right]. intros ->. apply Hk0.
        apply list_elem_of_fmap. by exists (k, v').
      * intros [[-> ->]|[Hne [?|Hin]]]; [by left|by simplify_eq|by right].
    + rewrite !elem_of_cons, (IH Hnd). split.
      * intros [?|[?|[? ?]]]; simplify_eq; [right|by left|right]; split; auto.
      * intros [[-> ->]|[Hne' [?|Hin]]]; [right; by left|by left|right; right; done].
Qed.

Lemma dict_set_not_nil {V} k (v : V) d : dict_set k v d ≠ [].
Proof. destruct d as [|[k0 v0] d]; simpl; [done|]. by destruct (decide (k0 = k)). Qed.

Lemma filter_all {A} (P : A → Prop) `{!∀ x, Decision (P x)} (l : list A) :
  Forall P l → filter P l = l.
Proof.
  induction 1 as [|x l Hx _ IH]; [done|]. by rewrite filter_cons, decide_True, IH.
Qed.

Lemma dict_del_filter {V} k (d : list (string * V)) :
  NoDup d.*1 → dict_del k d = filter (λ item, item.1 ≠ k) d.
Proof.
  induction d as [|[k0 v0] d IH]; intros Hnd; [done|].
  rewrite fmap_cons in Hnd. apply NoDup_cons in Hnd as [Hk0 Hnd]. simpl in *.
  rewrite filter_cons. simpl. destruct (decide (k0 = k)) as [->|Hne].
  - rewrite decide_False by (intros Hc; by apply Hc).
    symmetry. apply filter_all, Forall_forall. intros [k1 v1] Hin Heq. apply Hk0.
    apply list_elem_of_fmap. exists (k1, v1). by simplify_eq/=.
  - rewrite decide_True by done. by rewrite IH.
Qed.

(** ** The parser *)

Lemma parse_line_is_Some line :
  is_Some (parse_line line) ↔ (2 ≤ count_char ","%char line)%nat.
Proof.
  unfold parse_line. pose proof (length_str_split ","%char line) as Hlen.
  destruct (str_split ","%char line) as [|f0 [|f1 [|f2 fields]]]; simpl in *.
  - lia.
  - split; [by intros [? ?]|lia].
  - split; [by intros [? ?]|lia].
  - split; [lia|eauto].
Qed.

Lemma parse_line_None line :
  parse_line line = None ↔ (count_char ","%char line < 2)%nat.
Proof.
  rewrite eq_None_not_Some, parse_line_is_Some. lia.
Qed.

Lemma parse_line_tidy line item : parse_line line = Some item → tidy item.
Proof.
  unfold parse_line.
  destruct (str_split ","%char line) as [|f0 [|f1 [|f2 fields]]]; simpl; try done.
  intros ?; simplify_eq. unfold tidy; simpl. split_and!.
  - apply strip_idem.
  - apply strip_idem.
  - pose proof (str_split_nonempty ";"%char (strip (strip f2))).
    by destruct (str_split ";"%char (strip (strip f2))).
  - apply Forall_fmap, Forall_forall. intros product _. apply strip_idem.
Qed.

Lemma parse_lines_tidy lines : ∀ sales_reps sales_reps' : roster,
  parse_lines lines sales_reps = Some sales_reps' →
  NoDup sales_reps.*1 → Forall tidy sales_reps →
  NoDup sales_reps'.*1 ∧ Forall tidy sales_reps'.
Proof.
  induction lines as [|line lines IH]; intros sr sr' Hp Hnd Htidy; simpl in Hp.
  - by simplify_eq.
  - destruct (parse_line line) as [[name details]|] eqn:Hline; simpl in Hp; [|done].
    apply (IH _ _ Hp); [by apply dict_set_NoDup|].
    apply Forall_forall. intros [k v] Hin.
    apply dict_set_elem_of in Hin as [[-> ->]|[_ Hin]]; [|by eapply Forall_forall|done].
    by eapply parse_line_tidy.
Qed.

(** X13. A roster that [parse_input_to_sales_reps] returns is well formed:
    no name occurs twice, and no name, zip code or product has blanks
    around it; every representative has at least one product, be it the
    empty one. *)
Theorem X13_parsed_roster_is_tidy input_text sales_reps :
  parse_input_to_sales_reps input_text = Some sales_reps →
  NoDup sales_reps.*1 ∧ Forall tidy sales_reps.
Proof.
  intros Hp. apply (parse_lines_tidy _ _ _ Hp); constructor.
Qed.

Lemma parse_lines_None lines : ∀ sales_reps : roster,
  parse_lines lines sales_reps = None
  ↔ ∃ line, line ∈ lines ∧ parse_line line = None.
Proof.
  induction lines as [|line lines IH]; intros sr; simpl.
  - split; [done|]. intros (line & Hin & _). by apply elem_of_nil in Hin.
  - destruct (parse_line line) as [item|] eqn:Hline; simpl.
    + rewrite IH. split.
      * intros (l & Hin & Hl). exists l. split; [apply elem_of_cons; by right|done].
      * intros (l & [->|Hin]%elem_of_cons & Hl); [congruence|eauto].
    + split; [|done]. intros _. exists line. split; [apply elem_of_cons; by left|done].
Qed.

(** X14. [parse_input_to_sales_reps] raises exactly when some line of the
    text, as [splitlines] cuts it, has fewer than two commas; a blank line
    between two representatives is such a line. *)
Theorem X14_parse_fails_on_a_line_short_of_commas input_text :
  parse_input_to_sales_reps input_text = None
  ↔ ∃ line, line ∈ splitlines input_text ∧ (count_char ","%char line < 2)%nat.
Proof.
  unfold parse_input_to_sales_reps. rewrite parse_lines_None.
  by setoid_rewrite parse_line_None.
Qed.

(** X15. Of a line the parser reads the first three fields only: whatever
    follows the third comma is dropped, so a second representative on the
    same line is never read. *)
Theorem X15_text_after_the_third_comma_is_dropped line rest :
  (2 ≤ count_char ","%char line)%nat →
  parse_line (line +:+ String ","%char rest) = parse_line line.
Proof.
  intros Hcount. unfold parse_line. rewrite str_split_app.
  pose proof (length_str_split ","%char line) as Hlen.
  destruct (str_split ","%char line) as [|f0 [|f1 [|f2 fields]]]; simpl in *; try lia.
  done.
Qed.

Lemma parse_lines_lookup lines : ∀ (sales_reps sales_reps' : roster),
  NoDup sales_reps.*1 →
  parse_lines lines sales_reps = Some sales_reps' →
  ∀ name details,
    (name, details) ∈ sales_reps'
    ↔ (∃ i line, lines !! i = Some line ∧ parse_line line = Some (name, details)
         ∧ ∀ j line' details', (i < j)%nat → lines !! j = Some line' →
             parse_line line' ≠ Some (name, details'))
      ∨ ((name, details) ∈ sales_reps
         ∧ ∀ j line' details', lines !! j = Some line' →
             parse_line line' ≠ Some (name, details')).
Proof.
  induction lines as [|line lines IH]; intros sr sr' Hnd Hp name details; simpl in Hp.
  - simplify_eq. split.
    + intros Hin. right. split; [done|]. intros j line' details' Hj. done.
    + intros [(i & line & Hi & _)|[Hin _]]; done.
  - destruct (parse_line line) as [[n0 d0]|] eqn:Hline; simpl in Hp; [|done].
    rewrite (IH _ _ (dict_set_NoDup n0 d0 sr Hnd) Hp name details).
    rewrite (dict_set_elem_of n0 d0 sr name details Hnd). split.
    + intros [(i & l & Hi & Hl & Hlater)|[[[-> ->]|[Hne Hin]] Hnone]].
      * left. exists (S i), l. split_and!; try done.
        intros [|j] l' d' Hj Hl'; [lia|]. simpl in Hl'. eapply Hlater; [|done]. lia.
      * left. exists 0%nat, line. split_and!; try done.
        intros [|j] l' d' Hj Hl'; [lia|]. simpl in Hl'. by eapply Hnone.
      * right. split; [done|]. intros [|j] l' d' Hl'; simpl in Hl'.
        -- simplify_eq. rewrite Hline. congruence.
        -- by eapply Hnone.
    + intros [(i & l & Hi & Hl & Hlater)|[Hin Hnone]].
      * destruct i as [|i]; simpl in Hi.
        -- simplify_eq. right. split; [by left|].
           intros j l' d' Hl'. apply (Hlater (S j)); [lia|done].
        -- left. exists i, l. split_and!; try done.
           intros j l' d' Hj Hl'. apply (Hlater (S j)); [lia|done].
      * right. split.
        -- right. split; [|done]. intros ->. by apply (Hnone 0%nat line d0).
        -- intros j l' d' Hl'. by apply (Hnone (S j)).
Qed.

(** X16. When several lines of the text give the same name, the roster has
    that name once, with the zip code and the products of the last of these
    lines: an entry is in the parsed roster exactly when some line parses to
    it and no later line parses to the same name. *)
Theorem X16_last_line_for_a_name_wins input_text sales_reps :
  parse_input_to_sales_reps input_text = Some sales_reps →
  ∀ name details,
    (name, details) ∈ sales_reps
    ↔ ∃ i line, splitlines input_text !! i = Some line
        ∧ parse_line line = Some (name, details)
        ∧ ∀ j line' details', (i < j)%nat → splitlines input_text !! j = Some line' →
            parse_line line' ≠ Some (name, details').
Proof.
  intros Hp name details.
  rewrite (parse_lines_lookup _ [] _ (NoDup_nil_2) Hp name details). split.
  - intros [?|[Hin _]]; [done|by apply elem_of_nil in Hin].
  - by left.
Qed.

(** ** Adding and removing representatives *)

Lemma filter_ext_in {A} (P Q : A → Prop) `{!∀ x, Decision (P x), !∀ x, Decision (Q x)}
    (l : list A) :
  (∀ x, x ∈ l → P x ↔ Q x) → filter P l = filter Q l.
Proof.
  induction l as [|x l IH]; intros Hext; [done|].
  rewrite !filter_cons, IH by (intros y Hy; apply Hext, elem_of_cons; by right).
  destruct (decide (P x)) as [HP|HP], (decide (Q x)) as [HQ|HQ]; try done.
  - exfalso. apply HQ, Hext; [apply elem_of_cons; by left|done].
  - exfalso. apply HP, Hext; [apply elem_of_cons; by left|done].
Qed.

Lemma dict_set_key_elem_of {V} k (v : V) d k' :
  k' ∈ (dict_set k v d).*1 ↔ k' = k ∨ k' ∈ d.*1.
Proof.
  rewrite dict_set_keys. destruct (decide (k ∈ d.*1)) as [Hin|Hnin].
  - split; [by right|]. by intros [->|?].
  - rewrite elem_of_app, list_elem_of_singleton. tauto.
Qed.

Lemma roster_details_unique (sales_reps : roster) name details details' :
  NoDup sales_reps.*1 →
  (name, details) ∈ sales_reps → (name, details') ∈ sales_reps → details = details'.
Proof.
  intros Hnd [i Hi]%list_elem_of_lookup [j Hj]%list_elem_of_lookup.
  assert (i = j) as ->.
  { apply (NoDup_lookup sales_reps.*1 i j name Hnd).
    - by rewrite list_lookup_fmap, Hi.
    - by rewrite list_lookup_fmap, Hj. }
  congruence.
Qed.

Lemma filter_not_listed rep names (sales_reps : list (string * rep_details)) :
  filter (λ item, item.1 ∉ names) (filter (λ item, item.1 ≠ rep) sales_reps)
  = filter (λ item, item.1 ∉ rep :: names) sales_reps.
Proof.
  induction sales_reps as [|item sr IH]; [done|].
  rewrite !filter_cons.
  destruct (decide (item.1 ≠ rep)) as [Hne|Heq].
  - rewrite filter_cons, IH.
    destruct (decide (item.1 ∉ names)) as [Hn|Hn],
      (decide (item.1 ∉ rep :: names)) as [Hc|Hc]; try done.
    + exfalso. apply Hc. by apply not_elem_of_cons.
    + exfalso. by apply not_elem_of_cons in Hc as [_ ?].
  - rewrite IH. destruct (decide (item.1 ∉ rep :: names)) as [Hc|Hc]; [|done].
    exfalso. by apply not_elem_of_cons in Hc as [? _].
Qed.

Lemma remove_reps_spec names : ∀ (sales_reps : roster) shown,
  NoDup sales_reps.*1 →
  (remove_reps names sales_reps shown).1
    = filter (λ item, item.1 ∉ names) sales_reps
  ∧ ∃ new,
      (remove_reps names sales_reps shown).2 = shown ++ new
      ∧ length new = length names
      ∧ ∀ name, ShowInfoRemoved name ∈ new ↔ name ∈ names ∧ name ∈ sales_reps.*1.
Proof.
  induction names as [|rep names IH]; intros sr shown Hnd; simpl.
  - split.
    + symmetry. apply filter_all, Forall_forall. intros item _. apply not_elem_of_nil.
    + exists []. rewrite app_nil_r. split_and!; try done.
      intros name. split; [by intros ?%elem_of_nil|by intros [?%elem_of_nil _]].
  - destruct (decide (rep ∈ sr.*1)) as [Hin|Hnin].
    + assert (NoDup (dict_del rep sr).*1) as Hnd1.
      { rewrite dict_del_filter by done.
        eapply sublist_NoDup; [done|apply fmap_sublist, sublist_filter]. }
      destruct (IH (dict_del rep sr) (shown ++ [ShowInfoRemoved rep]) Hnd1)
        as (Hr & new & Hs & Hlen & Hrem).
      split.
      * rewrite Hr, dict_del_filter by done. apply filter_not_listed.
      * exists (ShowInfoRemoved rep :: new). rewrite Hs, <-app_assoc.
        split_and!; [done|simpl; by rewrite Hlen|].
        intros name. rewrite !elem_of_cons, Hrem, dict_del_filter by done.
        split.
        -- intros [?|[Hn Hk]]; [simplify_eq; split; [by left|done]|].
           split; [by right|].
           apply list_elem_of_fmap in Hk as (item & -> & Hitem).
           apply list_elem_of_filter in Hitem as [_ Hitem].
           apply list_elem_of_fmap. eauto.
        -- intros [[->|Hn] Hk]; [by left|].
           destruct (decide (name = rep)) as [->|Hne]; [by left|]. right.
           split; [done|].
           apply list_elem_of_fmap in Hk as (item & -> & Hitem).
           apply list_elem_of_fmap. exists item. split; [done|].
           by apply list_elem_of_filter.
    + destruct (IH sr (shown ++ [ShowWarningNotFound rep]) Hnd)
        as (Hr & new & Hs & Hlen & Hrem).
      split.
      * rewrite Hr. apply filter_ext_in. intros item Hitem.
        rewrite not_elem_of_cons. split; [|tauto]. intros Hn. split; [|done].
        intros Heq. apply Hnin. rewrite <-Heq. apply list_elem_of_fmap. eauto.
      * exists (ShowWarningNotFound rep :: new). rewrite Hs, <-app_assoc.
        split_and!; [done|simpl; by rewrite Hlen|].
        intros name. rewrite !elem_of_cons, Hrem. split.
        -- intros [?|[Hn Hk]]; [done|]. split; [by right|done].
        -- intros [[->|Hn] Hk]; [done|]. by right.
Qed.

(** X17. The removal loop of [modify_sales_reps] drops from the roster
    exactly the representatives whose names are listed, and leaves the
    others as they were and in their order; it shows one box for each listed
    name, and the box says removed exactly for the listed names that were in
    the roster. *)
Theorem X17_remove_drops_exactly_the_listed names (sales_reps : roster) shown :
  NoDup sales_reps.*1 →
  (remove_reps names sales_reps shown).1
    = filter (λ item, item.1 ∉ names) sales_reps
  ∧ ∃ new,
      (remove_reps names sales_reps shown).2 = shown ++ new
      ∧ length new = length names
      ∧ ∀ name, ShowInfoRemoved name ∈ new ↔ name ∈ names ∧ name ∈ sales_reps.*1.
Proof.
  intros Hnd.
  destruct (remove_reps_spec names sales_reps shown Hnd) as (Hkept & new & Hshown).
  split; [done|]. by exists new.
Qed.

Lemma add_reps_spec new_reps : ∀ (sales_reps : roster) shown,
  NoDup new_reps.*1 → NoDup sales_reps.*1 →
  NoDup (add_reps new_reps sales_reps shown).1.*1
  ∧ (∀ name details,
       (name, details) ∈ (add_reps new_reps sales_reps shown).1
       ↔ (name, details) ∈ new_reps
         ∨ ((name ∉ new_reps.*1) ∧ (name, details) ∈ sales_reps))
  ∧ (add_reps new_reps sales_reps shown).1.*1
    = sales_reps.*1 ++ filter (λ name, name ∉ sales_reps.*1) new_reps.*1
  ∧ ∃ new,
      (add_reps new_reps sales_reps shown).2 = shown ++ new
      ∧ length new = length new_reps
      ∧ (∀ name, ShowInfoAdded name ∈ new
                 ↔ name ∈ new_reps.*1 ∧ name ∉ sales_reps.*1)
      ∧ (∀ name, ShowWarningExists name ∈ new
                 ↔ name ∈ new_reps.*1 ∧ name ∈ sales_reps.*1)
      ∧ (∀ name, ShowInfoRemoved name ∉ new).
Proof.
  induction new_reps as [|[n0 d0] new_reps IH]; intros sr shown Hndn Hnd.
  - simpl. split_and!; [done| | |].
    + intros name details. split; [intros ?; right; split; [apply not_elem_of_nil|done]|].
      intros [?%elem_of_nil|[_ ?]]; done.
    + by rewrite app_nil_r.
    + exists []. rewrite app_nil_r. split_and!; try done.
      * intros name. split; [by intros ?%elem_of_nil|by intros [?%elem_of_nil _]].
      * intros name. split; [by intros ?%elem_of_nil|by intros [?%elem_of_nil _]].
      * intros name. apply not_elem_of_nil.
  - rewrite fmap_cons in Hndn. apply NoDup_cons in Hndn as [Hn0 Hndn]. simpl in Hn0.
    cbn [add_reps].
    destruct (IH (dict_set n0 d0 sr)
                (shown ++ [if decide (n0 ∈ sr.*1)
                           then ShowWarningExists n0 else ShowInfoAdded n0])
                Hndn (dict_set_NoDup n0 d0 sr Hnd))
      as (Hnd' & Hel & Hkeys & new & Hs & Hlen & Hadd & Hex & Hrm).
    split_and!; [done| | |].
    + intros name details. rewrite Hel, (dict_set_elem_of n0 d0 sr name details Hnd).
      rewrite fmap_cons, elem_of_cons, not_elem_of_cons. simpl. split.
      * intros [?|[Hnin [[-> ->]|[Hne Hin]]]]; [left; by right|left; by left|by right].
      * intros [[?|?]|[[Hne Hnin] Hin]]; [simplify_eq; right; split; [done|by left]
                                         |by left|right; split; [done|by right]].
    + rewrite Hkeys, dict_set_keys, fmap_cons, filter_cons. simpl.
      destruct (decide (n0 ∈ sr.*1)) as [Hin|Hnin].
      * rewrite decide_False by (intros Hc; by apply Hc). done.
      * rewrite decide_True by done. rewrite <-app_assoc. simpl. do 2 f_equal.
        apply filter_ext_in. intros name Hname.
        rewrite not_elem_of_app, list_elem_of_singleton. split; [tauto|].
        intros ?. split; [done|]. by intros ->.
    + exists ((if decide (n0 ∈ sr.*1) then ShowWarningExists n0 else ShowInfoAdded n0)
              :: new).
      rewrite Hs, <-app_assoc. split_and!; [done|simpl; by rewrite Hlen| | |].
      * intros name. rewrite elem_of_cons, Hadd, dict_set_key_elem_of, fmap_cons,
          elem_of_cons. simpl. split.
        -- intros [Heq|[Hin Hnin]].
           ++ destruct (decide (n0 ∈ sr.*1)); simplify_eq. split; [by left|done].
           ++ split; [by right|]. intros ?. apply Hnin. by right.
        -- intros [[->|Hin] Hnin].
           ++ left. by rewrite decide_False.
           ++ right. split; [done|]. intros [->|?]; done.
      * intros name. rewrite elem_of_cons, Hex, dict_set_key_elem_of, fmap_cons,
          elem_of_cons. simpl. split.
        -- intros [Heq|[Hin [->|Hsr]]].
           ++ destruct (decide (n0 ∈ sr.*1)); simplify_eq. split; [by left|done].
           ++ done.
           ++ split; [by right|done].
        -- intros [[->|Hin] Hsr].
           ++ left. by rewrite decide_True.
           ++ right. split; [done|by right].
      * intros name [Heq|Hin]%elem_of_cons; [|by eapply Hrm].
        by destruct (decide (n0 ∈ sr.*1)).
Qed.

(** X18. The adding loop of [modify_sales_reps] gives every parsed
    representative its new details, also one that is announced as already
    existing: its zip code and products are overwritten.  The others keep
    theirs; the names of the roster keep their places and the new names
    follow in their order.  One box is shown for each parsed
    representative. *)
Theorem X18_add_overwrites_the_existing new_reps (sales_reps : roster) shown :
  NoDup new_reps.*1 → NoDup sales_reps.*1 →
  NoDup (add_reps new_reps sales_reps shown).1.*1
  ∧ (∀ name details,
       (name, details) ∈ (add_reps new_reps sales_reps shown).1
       ↔ (name, details) ∈ new_reps
         ∨ ((name ∉ new_reps.*1) ∧ (name, details) ∈ sales_reps))
  ∧ (add_reps new_reps sales_reps shown).1.*1
    = sales_reps.*1 ++ filter (λ name, name ∉ sales_reps.*1) new_reps.*1
  ∧ ∃ new,
      (add_reps new_reps sales_reps shown).2 = shown ++ new
      ∧ length new = length new_reps
      ∧ (∀ name, ShowInfoAdded name ∈ new
                 ↔ name ∈ new_reps.*1 ∧ name ∉ sales_reps.*1)
      ∧ (∀ name, ShowWarningExists name ∈ new
                 ↔ name ∈ new_reps.*1 ∧ name ∈ sales_reps.*1).
Proof.
  intros Hndn Hnd.
  destruct (add_reps_spec new_reps sales_reps shown Hndn Hnd)
    as (? & ? & ? & new & ? & ? & ? & ? & _).
  split_and!; try done. exists new. by split_and!.
Qed.

(** ** The editor *)

Lemma accounted_same (sales_reps : roster) new :
  NoDup sales_reps.*1 → accounted sales_reps new sales_reps.
Proof.
  intros Hnd. unfold accounted. split_and!; try by auto.
  intros name details details' Hin Hin'. left.
  by eapply roster_details_unique.
Qed.

Lemma accounted_trans (sr sr1 sr2 : roster) new1 new2 :
  accounted sr new1 sr1 → accounted sr1 new2 sr2 → accounted sr (new1 ++ new2) sr2.
Proof.
  intros (Hin1 & Hout1 & Hch1 & Hnil1) (Hin2 & Hout2 & Hch2 & Hnil2).
  unfold accounted. setoid_rewrite elem_of_app. split_and!.
  - intros name Hname. destruct (Hin2 name Hname) as [H1|?]; [|by auto].
    destruct (Hin1 name H1); auto.
  - intros name Hname. destruct (Hout1 name Hname) as [H1|?]; [|by auto].
    destruct (Hout2 name H1); auto.
  - intros name d d2 Hd Hd2.
    destruct (decide (name ∈ sr1.*1)) as [Hmid|Hmid].
    + apply list_elem_of_fmap in Hmid as ([name' d1] & -> & Hd1). simpl in *.
      destruct (Hch1 _ _ _ Hd Hd1) as [->|[?|?]]; [|by auto|by auto].
      destruct (Hch2 _ _ _ Hd1 Hd2) as [->|[?|?]]; auto.
    + destruct (Hin2 name) as [?|?]; [|done|by auto].
      apply list_elem_of_fmap. by exists (name, d2).
  - intros [-> ->]%app_eq_nil. rewrite Hnil2, Hnil1; done.
Qed.

Lemma add_reps_accounted new_reps (sales_reps : roster) shown :
  new_reps ≠ [] → NoDup new_reps.*1 → NoDup sales_reps.*1 →
  NoDup (add_reps new_reps sales_reps shown).1.*1
  ∧ ∃ new, (add_reps new_reps sales_reps shown).2 = shown ++ new
           ∧ accounted sales_reps new (add_reps new_reps sales_reps shown).1.
Proof.
  intros Hne Hndn Hnd.
  destruct (add_reps_spec new_reps sales_reps shown Hndn Hnd)
    as (Hnd' & Hel & Hkeys & new & Hs & Hlen & Hadd & Hex & _).
  split; [done|]. exists new. split; [done|]. unfold accounted. split_and!.
  - intros name. rewrite Hkeys, elem_of_app, list_elem_of_filter, Hadd. tauto.
  - intros name Hname. left. rewrite Hkeys, elem_of_app. by left.
  - intros name d d' Hd Hd'. apply Hel in Hd' as [Hnew|[_ Hold]].
    + right; left. apply Hex. split; apply list_elem_of_fmap.
      * by exists (name, d').
      * by exists (name, d).
    + left. exact (roster_details_unique _ _ _ _ Hnd Hold Hd).
  - intros ->. destruct new_reps; simpl in Hlen; done.
Qed.

Lemma remove_reps_accounted names (sales_reps : roster) shown :
  names ≠ [] → NoDup sales_reps.*1 →
  NoDup (remove_reps names sales_reps shown).1.*1
  ∧ ∃ new, (remove_reps names sales_reps shown).2 = shown ++ new
           ∧ accounted sales_reps new (remove_reps names sales_reps shown).1.
Proof.
  intros Hne Hnd.
  destruct (remove_reps_spec names sales_reps shown Hnd) as (Hr & new & Hs & Hlen & Hrem).
  rewrite Hr. split.
  { eapply sublist_NoDup; [done|apply fmap_sublist, sublist_filter]. }
  exists new. split; [done|]. unfold accounted. split_and!.
  - intros name (item & -> & Hitem)%list_elem_of_fmap. left.
    apply list_elem_of_filter in Hitem as [_ Hitem]. apply list_elem_of_fmap. eauto.
  - intros name Hname. destruct (decide (name ∈ names)) as [Hin|Hnin].
    + right. by apply Hrem.
    + left. apply list_elem_of_fmap in Hname as (item & -> & Hitem).
      apply list_elem_of_fmap. exists item. split; [done|].
      by apply list_elem_of_filter.
  - intros name d d' Hd Hd'. left.
    apply list_elem_of_filter in Hd' as [_ Hd'].
    exact (roster_details_unique _ _ _ _ Hnd Hd' Hd).
  - intros ->. destruct names; simpl in Hlen; done.
Qed.

Lemma parse_lines_not_nil lines : ∀ (sales_reps sales_reps' : roster),
  parse_lines lines sales_reps = Some sales_reps' →
  lines ≠ [] ∨ sales_reps ≠ [] → sales_reps' ≠ [].
Proof.
  induction lines as [|line lines IH]; intros sr sr' Hp Hne; simpl in Hp.
  - simplify_eq. by destruct Hne.
  - destruct (parse_line line) as [item|]; simpl in Hp; [|done].
    apply (IH _ _ Hp). right. apply dict_set_not_nil.
Qed.

Lemma modify_sales_reps_dialog_accounted n :
  ∀ answers (sales_reps : roster) shown sales_reps' shown',
  (length answers ≤ n)%nat → NoDup sales_reps.*1 →
  modify_sales_reps_dialog answers sales_reps shown = Some (sales_reps', shown') →
  NoDup sales_reps'.*1
  ∧ ∃ new, shown' = shown ++ new ∧ accounted sales_reps new sales_reps'.
Proof.
  induction n as [|n IH]; intros answers sr shown sr' shown' Hlen Hnd Hrun.
  { destruct answers; simpl in Hlen; [done|lia]. }
  assert (∀ answers' (sr1 : roster) new1,
    (length answers' ≤ n)%nat → NoDup sr1.*1 → accounted sr new1 sr1 →
    modify_sales_reps_dialog answers' sr1 (shown ++ new1) = Some (sr', shown') →
    NoDup sr'.*1 ∧ ∃ new, shown' = shown ++ new ∧ accounted sr new sr') as Hcont.
  { intros answers' sr1 new1 Hlen' Hnd1 Hacc1 Hrun'.
    destruct (IH _ _ _ _ _ Hlen' Hnd1 Hrun') as (Hnd' & new2 & -> & Hacc2).
    split; [done|]. exists (new1 ++ new2). rewrite <-app_assoc. split; [done|].
    by eapply accounted_trans. }
  assert (∀ answers', (length answers' ≤ n)%nat →
    modify_sales_reps_dialog answers' sr shown = Some (sr', shown') →
    NoDup sr'.*1 ∧ ∃ new, shown' = shown ++ new ∧ accounted sr new sr') as Hskip.
  { intros answers' Hlen' Hrun'. apply (Hcont answers' sr []); try done.
    - by apply accounted_same.
    - by rewrite app_nil_r. }
  destruct answers as [|action answers1]; [done|].
  cbn [modify_sales_reps_dialog] in Hrun. simpl in Hlen.
  destruct (decide (action = Some "no")).
  { simplify_eq. split; [done|]. exists []. rewrite app_nil_r. split; [done|].
    by apply accounted_same. }
  destruct answers1 as [|user_action answers2]; [done|]. simpl in Hlen.
  destruct user_action as [[|c user_action]|];
    [apply (Hskip answers2); [lia|done]| |apply (Hskip answers2); [lia|done]].
  destruct (decide (lower (strip (String c user_action)) = "add")).
  { destruct answers2 as [|new_reps_input answers3]; [done|]. simpl in Hlen.
    destruct new_reps_input as [[|c' new_reps_input]|];
      [apply (Hskip answers3); [lia|done]| |apply (Hskip answers3); [lia|done]].
    destruct (parse_input_to_sales_reps (String c' new_reps_input))
      as [new_reps|] eqn:Hparse.
    - destruct (add_reps new_reps sr shown) as [sr1 shown1] eqn:Hadd.
      destruct (parse_lines_tidy _ _ _ Hparse) as [Hndn _]; [constructor..|].
      destruct (add_reps_accounted new_reps sr shown) as (Hnd1 & new1 & Hs1 & Hacc1);
        try done.
      { eapply parse_lines_not_nil; [done|]. left. apply splitlines_nonempty. }
      rewrite Hadd in Hnd1, Hs1, Hacc1. simpl in *. subst shown1.
      apply (Hcont answers3 sr1 new1); [lia|done..].
    - apply (Hcont answers3 sr [ShowErrorAdding]); [lia|done| |done].
      by apply accounted_same. }
  destruct (decide (lower (strip (String c user_action)) = "remove")).
  { destruct sr as [|item sr].
    - apply (Hcont answers2 [] [ShowWarningNoReps]); [lia|done| |done].
      by apply accounted_same.
    - destruct answers2 as [|remove_reps_input answers3]; [done|]. simpl in Hlen.
      destruct remove_reps_input as [[|c' remove_reps_input]|];
        [apply (Hskip answers3); [lia|done]| |apply (Hskip answers3); [lia|done]].
      destruct (remove_reps _ (item :: sr) shown) as [sr1 shown1] eqn:Hrem.
      destruct (remove_reps_accounted
                  (strip <$> str_split ","%char (String c' remove_reps_input))
                  (item :: sr) shown) as (Hnd1 & new1 & Hs1 & Hacc1); [|done|].
      { pose proof (str_split_nonempty ","%char (String c' remove_reps_input)).
        by destruct (str_split ","%char (String c' remove_reps_input)). }
      rewrite Hrem in Hnd1, Hs1, Hacc1. simpl in *. subst shown1.
      apply (Hcont answers3 sr1 new1); [lia|done..]. }
  apply (Hcont answers2 sr [ShowErrorInvalidInput]); [lia|done| |done].
  by apply accounted_same.
Qed.

(** X19. The message boxes of [modify_sales_reps] tell the whole story.
    When the user ends the dialog, the roster returned is again a
    dictionary, and against the roster handed in: a name that is new was
    announced as added, a name that is gone was announced as removed,
    details that differ were announced as existing or as added, and when no
    box was shown the roster is the one handed in. *)
Theorem X19_editor_changes_are_announced answers (sales_reps : roster) shown
    sales_reps' shown' :
  NoDup sales_reps.*1 →
  modify_sales_reps_dialog answers sales_reps shown = Some (sales_reps', shown') →
  NoDup sales_reps'.*1
  ∧ ∃ new, shown' = shown ++ new ∧ accounted sales_reps new sales_reps'.
Proof.
  intros Hnd Hrun.
  by eapply (modify_sales_reps_dialog_accounted (length answers) answers).
Qed.

(** ** Submitting *)

Section gui_facts.
Variable oracle : nat → string → string → distance_matrix_result.
Variable strptime : string → option datetime.
Variable zip_to_city : string → string.
Variable modify_sales_reps : roster → nat → datetime → datetime → roster.

Lemma main_workflow_unparseable appointments sales_reps w :
  ¬ Forall (parses strptime) appointments →
  main_workflow oracle strptime zip_to_city modify_sales_reps appointments sales_reps w
  = None.
Proof.
  intros Hbad. unfold main_workflow.
  destruct (mapM (convert_apptdate strptime) appointments) as [converted|] eqn:Hconv;
    [|done].
  exfalso. apply Hbad. apply mapM_convert_is_Some. eauto.
Qed.

(** X20. [on_submit] shows the success box exactly when the roster text is
    not blank and parses and a non-empty list of appointments is loaded.
    What the run then does plays no part: with a time stamp that does not
    parse among the appointments nothing reaches the export, and the box
    shown is still the one [on_submit] shows for a parsed roster. *)
Theorem X20_success_box_does_not_tell_of_the_run sales_reps_text appointments w :
  ((on_submit oracle strptime zip_to_city modify_sales_reps sales_reps_text
      appointments w).1 = ShowInfoSuccess
   ↔ strip sales_reps_text ≠ ""
     ∧ (∃ l, appointments = Some l ∧ l ≠ [])
     ∧ is_Some (parse_input_to_sales_reps (strip sales_reps_text)))
  ∧ (∀ l, appointments = Some l → ¬ Forall (parses strptime) l →
       (on_submit oracle strptime zip_to_city modify_sales_reps sales_reps_text
          appointments w).2 = None).
Proof.
  unfold on_submit. split.
  - destruct (decide (strip sales_reps_text = "")) as [Hblank|Hblank]; simpl.
    { split; [done|]. by intros [? _]. }
    destruct appointments as [[|a l]|]; simpl.
    + split; [done|]. by intros (_ & (l & ? & ?) & _); simplify_eq.
    + destruct (parse_input_to_sales_reps (strip sales_reps_text)) as [sr|]; simpl.
      * split; [|done]. intros _. split_and!; [done|by exists (a :: l)|eauto].
      * split; [done|]. by intros (_ & _ & [? ?]).
    + split; [done|]. by intros (_ & (l & ? & ?) & _).
  - intros l -> Hbad.
    destruct (decide (strip sales_reps_text = "")); [done|].
    destruct l as [|a l]; [done|].
    destruct (parse_input_to_sales_reps (strip sales_reps_text)) as [sr|]; [|done].
    simpl. by apply main_workflow_unparseable.
Qed.
End gui_facts.

(** * The further properties, run *)

Lemma X1_witness :
  ∃ out,
    assign_to_closest_rep oracle_grid strptime_padded same_place_appointments
      two_reps nine_o_clock eleven_o_clock quiet_world = Some out
    ∧ answered_once oracle_grid (length (api_calls quiet_world))
        (api_calls (world_after out)).
Proof.
  destruct (assign_to_closest_rep oracle_grid strptime_padded same_place_appointments
              two_reps nine_o_clock eleven_o_clock quiet_world) as [out|] eqn:Hrun;
    [|vm_compute in Hrun; discriminate].
  exists out. split; [done|].
  exact (X1_no_pair_asked_again_within_a_call _ _ _ _ _ _ _ _ Hrun).
Defined.

Lemma X2_witness :
  ∃ out,
    assign_to_closest_rep oracle_grid strptime_padded same_place_appointments
      two_reps nine_o_clock eleven_o_clock quiet_world = Some out
    ∧ ∀ x, x ∈ returned out →
        (∃ t, drive_time x = Fin t)
        ∧ (nine_o_clock ≤ apptdate (appt x) ≤ eleven_o_clock)%Z
        ∧ as_stored (appt x) ∈ appointments_after out.
Proof.
  destruct (assign_to_closest_rep oracle_grid strptime_padded same_place_appointments
              two_reps nine_o_clock eleven_o_clock quiet_world) as [out|] eqn:Hrun;
    [|vm_compute in Hrun; discriminate].
  exists out. split; [done|].
  exact (X2_returned_entries_are_sound _ _ _ _ _ _ _ _ Hrun).
Defined.

Lemma X3_witness :
  NoDup two_reps.*1
  ∧ ∃ out,
      assign_to_closest_rep oracle_grid strptime_padded same_place_appointments
        two_reps nine_o_clock eleven_o_clock quiet_world = Some out
      ∧ ∃ converted kept reassigned,
          mapM (convert_apptdate strptime_padded) same_place_appointments = Some converted
          ∧ returned out = kept ++ reassigned
          ∧ kept `sublist_of`
              candidates oracle_grid two_reps
                (filter_window nine_o_clock eleven_o_clock converted) quiet_world
          ∧ (∀ x, x ∈ kept →
               first_cheapest x
                 (candidates oracle_grid two_reps
                    (filter_window nine_o_clock eleven_o_clock converted) quiet_world))
          ∧ (∀ rep,
               (0 < booked rep
                      (candidates oracle_grid two_reps
                         (filter_window nine_o_clock eleven_o_clock converted)
                         quiet_world))%nat →
               booked rep kept = 1%nat)
          ∧ (∀ x, x ∈ reassigned →
               booked (assigned_to x)
                 (candidates oracle_grid two_reps
                    (filter_window nine_o_clock eleven_o_clock converted) quiet_world)
               = 0%nat
               ∧ appt x ∈ appt <$>
                   candidates oracle_grid two_reps
                     (filter_window nine_o_clock eleven_o_clock converted) quiet_world).
Proof.
  assert (NoDup two_reps.*1) as Hnd by by_evaluation.
  split; [done|].
  destruct (assign_to_closest_rep oracle_grid strptime_padded same_place_appointments
              two_reps nine_o_clock eleven_o_clock quiet_world) as [out|] eqn:Hrun;
    [|vm_compute in Hrun; discriminate].
  exists out. split; [done|].
  exact (X3_kept_cheapest_then_reassigned _ _ _ _ _ _ _ _ Hnd Hrun).
Defined.

Lemma X5_witness :
  NoDup two_reps.*1
  ∧ ∃ sales_reps',
      update_sales_reps_zip two_visits two_reps = Some sales_reps'
      ∧ update_sales_reps_zip two_visits sales_reps' = Some sales_reps'.
Proof.
  assert (NoDup two_reps.*1) as Hnd by by_evaluation.
  split; [done|].
  destruct (update_sales_reps_zip two_visits two_reps) as [sales_reps'|] eqn:Hu;
    [|vm_compute in Hu; discriminate].
  exists sales_reps'. split; [done|].
  exact (X5_update_twice_is_update_once _ _ _ Hnd Hu).
Defined.

Lemma X7_witness :
  ∃ rows sales_reps' w',
    main_workflow oracle_grid strptime_padded city_of keep_roster
      with_a_straggler one_rep quiet_world = Some (rows, sales_reps', w')
    ∧ ∃ converted earliest_time,
        mapM (convert_apptdate strptime_padded) with_a_straggler = Some converted
        ∧ min_time (apptdate <$> converted) = Some earliest_time
        ∧ ∀ a, a ∈ converted →
            in_a_gap earliest_time (apptdate a)
            ∨ (∃ rep dt, ResultRow (custnumber a) (apptdate a) (city_of (Zip a))
                           (productid a) rep dt ∈ rows)
            ∨ NoEligibleRep (custnumber a) (Zip a) ∈ printed w'
            ∨ CouldNotAssign (custnumber a) (Zip a) ∈ printed w'.
Proof.
  destruct (main_workflow oracle_grid strptime_padded city_of keep_roster
              with_a_straggler one_rep quiet_world) as [[[rows sales_reps'] w']|] eqn:Hrun;
    [|vm_compute in Hrun; discriminate].
  exists rows, sales_reps', w'. split; [done|].
  exact (X7_every_appointment_is_accounted_for _ _ _ _ _ _ _ _ _ _ Hrun).
Defined.

Lemma X8_witness :
  ∃ rows sales_reps' w',
    main_workflow oracle_grid strptime_padded city_of keep_roster
      morning_and_noon one_rep quiet_world = Some (rows, sales_reps', w')
    ∧ row_customers rows ⊆+ custnumber <$> morning_and_noon
    ∧ (NoDup (custnumber <$> morning_and_noon) → NoDup (row_customers rows)).
Proof.
  destruct (main_workflow oracle_grid strptime_padded city_of keep_roster
              morning_and_noon one_rep quiet_world) as [[[rows sales_reps'] w']|] eqn:Hrun;
    [|vm_compute in Hrun; discriminate].
  exists rows, sales_reps', w'. split; [done|].
  exact (X8_at_most_one_row_per_appointment _ _ _ _ _ _ _ _ _ _ Hrun).
Defined.

Lemma X9_witness :
  ∃ out,
    assign_to_closest_rep oracle_grid strptime_padded same_place_appointments
      two_reps nine_o_clock eleven_o_clock quiet_world = Some out
    ∧ ∀ x, x ∈ returned out → assigned_to x ≠ "".
Proof.
  destruct (assign_to_closest_rep oracle_grid strptime_padded same_place_appointments
              two_reps nine_o_clock eleven_o_clock quiet_world) as [out|] eqn:Hrun;
    [|vm_compute in Hrun; discriminate].
  exists out. split; [done|].
  exact (X9_empty_name_is_never_assigned _ _ _ _ _ _ _ _ Hrun).
Defined.

Lemma X10_witness :
  mapM (convert_apptdate strptime_padded) same_place_appointments
    = Some same_place_converted
  ∧ filter_window late_window.1 late_window.2 same_place_converted = []
  ∧ assign_to_closest_rep oracle_grid strptime_padded same_place_appointments two_reps
      late_window.1 late_window.2 quiet_world
    = Some {| returned := []; appointments_after := as_stored <$> same_place_converted;
              world_after := quiet_world |}.
Proof.
  assert (mapM (convert_apptdate strptime_padded) same_place_appointments
          = Some same_place_converted) as Hconv by (vm_compute; reflexivity).
  assert (filter_window late_window.1 late_window.2 same_place_converted = []) as Hempty
    by (vm_compute; reflexivity).
  split_and!; [done|done|].
  exact (X10_empty_window_costs_nothing _ _ _ _ _ _ _ _ Hconv Hempty).
Defined.

Lemma X11_witness :
  ∃ out,
    assign_to_closest_rep oracle_grid strptime_padded same_place_appointments
      two_reps nine_o_clock eleven_o_clock quiet_world = Some out
    ∧ ∃ converted new,
        mapM (convert_apptdate strptime_padded) same_place_appointments = Some converted
        ∧ api_calls (world_after out) = api_calls quiet_world ++ new
        ∧ ∀ call, call ∈ new →
            ∃ a, a ∈ filter_window nine_o_clock eleven_o_clock converted
                 ∧ asked_for two_reps a call.
Proof.
  destruct (assign_to_closest_rep oracle_grid strptime_padded same_place_appointments
              two_reps nine_o_clock eleven_o_clock quiet_world) as [out|] eqn:Hrun;
    [|vm_compute in Hrun; discriminate].
  exists out. split; [done|].
  exact (X11_oracle_asked_only_for_eligible_pairs _ _ _ _ _ _ _ _ Hrun).
Defined.

Lemma X21_witness :
  ∃ out,
    assign_to_closest_rep oracle_grid strptime_padded same_place_appointments
      two_reps nine_o_clock eleven_o_clock quiet_world = Some out
    ∧ ∃ converted,
        mapM (convert_apptdate strptime_padded) same_place_appointments = Some converted
        ∧ (length (api_calls (world_after out))
           ≤ length (api_calls quiet_world)
             + 2 * (length (filter_window nine_o_clock eleven_o_clock converted)
                    * length two_reps))%nat.
Proof.
  destruct (assign_to_closest_rep oracle_grid strptime_padded same_place_appointments
              two_reps nine_o_clock eleven_o_clock quiet_world) as [out|] eqn:Hrun;
    [|vm_compute in Hrun; discriminate].
  exists out. split; [done|].
  exact (X21_calls_are_bounded _ _ _ _ _ _ _ _ Hrun).
Defined.

Lemma X12_witness :
  NoDup two_reps.*1
  ∧ ∃ r,
      run_workflow oracle_grid strptime_padded city_of keep_roster
        same_place_appointments two_reps nine_o_clock eleven_o_clock 1 true quiet_world
      = Some r
      ∧ ∃ out sales_reps1,
          process_time_window oracle_grid strptime_padded same_place_appointments
            two_reps nine_o_clock eleven_o_clock quiet_world = Some out
          ∧ results r = row_of city_of <$> returned out
          ∧ roster_after r
            = (if true then keep_roster sales_reps1 1 nine_o_clock eleven_o_clock
               else sales_reps1)
          ∧ sales_reps1.*1 = two_reps.*1
          ∧ ∀ i rep details, two_reps !! i = Some (rep, details) →
              ∃ details',
                sales_reps1 !! i = Some (rep, details')
                ∧ scope details' = scope details
                ∧ (∀ x, x ∈ returned out → assigned_to x = rep →
                     curr_zip details' = Zip (appt x))
                ∧ (rep ∉ assigned_to <$> returned out → details' = details).
Proof.
  assert (NoDup two_reps.*1) as Hnd by by_evaluation.
  split; [done|].
  destruct (run_workflow oracle_grid strptime_padded city_of keep_roster
              same_place_appointments two_reps nine_o_clock eleven_o_clock 1 true
              quiet_world) as [r|] eqn:Hrun;
    [|vm_compute in Hrun; discriminate].
  exists r. split; [done|].
  exact (X12_roster_after_a_window _ _ _ _ _ _ _ _ _ _ _ _ Hnd Hrun).
Defined.

Lemma X13_witness :
  ∃ sales_reps,
    parse_input_to_sales_reps two_lines = Some sales_reps
    ∧ NoDup sales_reps.*1 ∧ Forall tidy sales_reps.
Proof.
  destruct (parse_input_to_sales_reps two_lines) as [sales_reps|] eqn:Hparse;
    [|vm_compute in Hparse; discriminate].
  exists sales_reps. split; [done|].
  exact (X13_parsed_roster_is_tidy _ _ Hparse).
Defined.

Lemma X15_witness :
  (2 ≤ count_char ","%char john_line)%nat
  ∧ parse_line (john_line +:+ String ","%char jane_after) = parse_line john_line.
Proof.
  assert (2 ≤ count_char ","%char john_line)%nat as Hcount by (vm_compute; lia).
  split; [done|].
  exact (X15_text_after_the_third_comma_is_dropped _ _ Hcount).
Defined.

Lemma X16_witness :
  ∃ sales_reps,
    parse_input_to_sales_reps john_twice = Some sales_reps
    ∧ ∀ name details,
        (name, details) ∈ sales_reps
        ↔ ∃ i line, splitlines john_twice !! i = Some line
            ∧ parse_line line = Some (name, details)
            ∧ ∀ j line' details', (i < j)%nat → splitlines john_twice !! j = Some line' →
                parse_line line' ≠ Some (name, details').
Proof.
  destruct (parse_input_to_sales_reps john_twice) as [sales_reps|] eqn:Hparse;
    [|vm_compute in Hparse; discriminate].
  exists sales_reps. split; [done|].
  exact (X16_last_line_for_a_name_wins _ _ Hparse).
Defined.

Lemma X17_witness :
  NoDup two_reps.*1
  ∧ (remove_reps ["R1"; "R9"] two_reps []).1
    = filter (λ item, item.1 ∉ ["R1"; "R9"]) two_reps
  ∧ ∃ new,
      (remove_reps ["R1"; "R9"] two_reps []).2 = [] ++ new
      ∧ length new = length ["R1"; "R9"]
      ∧ ∀ name, ShowInfoRemoved name ∈ new
                ↔ name ∈ ["R1"; "R9"] ∧ name ∈ two_reps.*1.
Proof.
  assert (NoDup two_reps.*1) as Hnd by by_evaluation.
  split; [done|].
  exact (X17_remove_drops_exactly_the_listed ["R1"; "R9"] two_reps [] Hnd).
Defined.

Lemma X18_witness :
  NoDup newcomers.*1 ∧ NoDup two_reps.*1
  ∧ NoDup (add_reps newcomers two_reps []).1.*1
  ∧ (∀ name details,
       (name, details) ∈ (add_reps newcomers two_reps []).1
       ↔ (name, details) ∈ newcomers
         ∨ ((name ∉ newcomers.*1) ∧ (name, details) ∈ two_reps))
  ∧ (add_reps newcomers two_reps []).1.*1
    = two_reps.*1 ++ filter (λ name, name ∉ two_reps.*1) newcomers.*1
  ∧ ∃ new,
      (add_reps newcomers two_reps []).2 = [] ++ new
      ∧ length new = length newcomers
      ∧ (∀ name, ShowInfoAdded name ∈ new
                 ↔ name ∈ newcomers.*1 ∧ name ∉ two_reps.*1)
      ∧ (∀ name, ShowWarningExists name ∈ new
                 ↔ name ∈ newcomers.*1 ∧ name ∈ two_reps.*1).
Proof.
  assert (NoDup newcomers.*1) as Hndn by by_evaluation.
  assert (NoDup two_reps.*1) as Hnd by by_evaluation.
  split; [done|]. split; [done|].
  exact (X18_add_overwrites_the_existing newcomers two_reps [] Hndn Hnd).
Defined.

Lemma X19_witness :
  NoDup two_reps.*1
  ∧ ∃ sales_reps' shown',
      modify_sales_reps_dialog remove_then_add two_reps [] = Some (sales_reps', shown')
      ∧ NoDup sales_reps'.*1
      ∧ ∃ new, shown' = [] ++ new ∧ accounted two_reps new sales_reps'.
Proof.
  assert (NoDup two_reps.*1) as Hnd by by_evaluation.
  split; [done|].
  destruct (modify_sales_reps_dialog remove_then_add two_reps [])
    as [[sales_reps' shown']|] eqn:Hrun;
    [|vm_compute in Hrun; discriminate].
  exists sales_reps', shown'. split; [done|].
  exact (X19_editor_changes_are_announced _ _ _ _ _ Hnd Hrun).
Defined.

(** The editor of the scenario: "R1" goes, "R9" is not found, "R3" comes. *)
Example editor_removes_then_adds :
  modify_sales_reps_dialog remove_then_add two_reps []
  = Some ([ ("R2", {| curr_zip := "zipB"; scope := ["capX"] |});
            ("R3", {| curr_zip := "zipD"; scope := ["capX"] |}) ],
          [ ShowInfoRemoved "R1"; ShowWarningNotFound "R9"; ShowInfoAdded "R3" ]).
Proof. vm_compute. reflexivity. Qed.

(** The second line's fields lose their blanks. *)
Example two_lines_parsed :
  parse_input_to_sales_reps two_lines
  = Some [ ("John", {| curr_zip := "98026"; scope := ["Bath"; "Tub"] |});
           ("Jane", {| curr_zip := "98004"; scope := ["Bath"] |}) ].
Proof. vm_compute. reflexivity. Qed.

(** A representative with the empty name, although on site and in scope,
    gets nothing, and the appointment is reported as without eligible
    representative. *)
Example nameless_rep_gets_nothing :
  assign_to_closest_rep oracle_grid strptime_padded
    [Appointment 1%Z (DateStr "12/20/2024 09:00:00") "zipA" "capX" "web"]
    [ ("", {| curr_zip := "zipA"; scope := ["capX"] |});
      ("R2", {| curr_zip := "zipB"; scope := ["capX"] |}) ]
    nine_o_clock eleven_o_clock quiet_world
  = Some {| returned := [];
            appointments_after :=
              [Appointment 1%Z (DateObj nine_o_clock) "zipA" "capX" "web"];
            world_after :=
              {| api_calls := [("zipA", "zipA"); ("zipA", "zipB")];
                 printed := [NoEligibleRep 1 "zipA"] |} |}.
Proof. vm_compute. reflexivity. Qed.

(** The success box after a run that exported nothing. *)
Example success_box_after_a_failed_run :
  on_submit oracle_grid strptime_padded city_of keep_roster two_lines
    (Some with_a_bad_stamp) quiet_world
  = (ShowInfoSuccess, None).
Proof. vm_compute. reflexivity. Qed.

(** * The engine on the caller's objects: what a run leaves behind *)

Section objects_facts.
Variable client : nat → string → string → Objects.client_result.
Variable strptime : string → option datetime.
Variable datetime_max : datetime.
Variable zip_to_city : string → string.
Variable modify_sales_reps : roster → nat → datetime → datetime → roster.

(** ** The conversion loops *)

Lemma convert_in_place_spec a b :
  Objects.convert_in_place strptime a = Some b →
  converted_in_place strptime a b ∧ b = as_stored (set_apptdate b (default 0%Z
    (Objects.as_datetime (apptdate b)))).
Proof.
  unfold Objects.convert_in_place, converted_in_place.
  destruct a as [cust d zip prod dsp]. simpl.
  destruct d as [str|t]; simpl.
  - destruct (strptime str) as [t|]; intros; simplify_eq/=. split; [|done].
    split_and!; try done. eauto.
  - intros; simplify_eq/=. done.
Qed.

Lemma prepare_spec a b :
  Objects.prepare strptime a = Some b →
  converted_in_place strptime a b ∧ b = as_stored (set_apptdate b (default 0%Z
    (Objects.as_datetime (apptdate b)))).
Proof.
  unfold Objects.prepare, converted_in_place.
  destruct a as [cust d zip prod dsp]. simpl.
  destruct d as [str|t]; simpl.
  - destruct (strptime str) as [t|]; intros; simplify_eq/=. split; [|done].
    split_and!; try done. eauto.
  - intros; simplify_eq/=. done.
Qed.

Lemma converted_in_place_trans a b c :
  converted_in_place strptime a b → converted_in_place strptime b c →
  converted_in_place strptime a c.
Proof.
  unfold converted_in_place.
  intros (Hc1 & Hz1 & Hp1 & Hd1 & Hab) (Hc2 & Hz2 & Hp2 & Hd2 & Hbc).
  split_and!; try congruence.
  destruct (apptdate a) as [str|t].
  - destruct Hab as (t & Hs & Hb). rewrite Hb in Hbc. eauto.
  - rewrite Hab in Hbc. done.
Qed.

Lemma Forall2_converted_trans l1 l2 l3 :
  Forall2 (converted_in_place strptime) l1 l2 →
  Forall2 (converted_in_place strptime) l2 l3 →
  Forall2 (converted_in_place strptime) l1 l3.
Proof.
  intros H12. revert l3. induction H12 as [|a b l1 l2 Hab _ IH]; intros l3 H23.
  - by apply Forall2_nil_inv_l in H23 as ->.
  - apply Forall2_cons_inv_l in H23 as (c & l3' & Hbc & H23 & ->).
    constructor; [by eapply converted_in_place_trans|by apply IH].
Qed.

(** ** Steps 1 to 3 hand on the dictionaries as they got them *)

Lemma match_appointment_store sales_reps idle unmatched r s s' :
  Objects.match_appointment client sales_reps idle unmatched r s = Some s' →
  Objects.appointments s' = Objects.appointments s.
Proof.
  unfold Objects.match_appointment. intros Hm.
  destruct (Objects.appointments s !! r) as [a|]; simpl in Hm; [|done].
  destruct (Objects.closest_rep_loop client (Zip a) (productid a) idle
              (None, Inf, Objects.closure s) sales_reps) as [[[c m] e]|];
    simpl in Hm; [|done].
  simplify_eq. by destruct (truthy c).
Qed.

Lemma initial_pass_store sales_reps refs : ∀ s s',
  Objects.initial_pass client sales_reps refs s = Some s' →
  Objects.appointments s' = Objects.appointments s.
Proof.
  induction refs as [|r refs IH]; intros s s' Hp; simpl in Hp; [by simplify_eq|].
  destruct (Objects.match_appointment client sales_reps (λ _, true) NoEligibleRep r s)
    as [s1|] eqn:Hm; simpl in Hp; [|done].
  rewrite (IH _ _ Hp). by eapply match_appointment_store.
Qed.

Lemma reassign_pass_store sales_reps refs : ∀ s s',
  Objects.reassign_pass client sales_reps refs s = Some s' →
  Objects.appointments s' = Objects.appointments s.
Proof.
  induction refs as [|r refs IH]; intros s s' Hp; simpl in Hp; [by simplify_eq|].
  destruct (Objects.match_appointment client sales_reps _ CouldNotAssign r s)
    as [s1|] eqn:Hm; simpl in Hp; [|done].
  rewrite (IH _ _ Hp). by eapply match_appointment_store.
Qed.

Lemma assign_to_closest_rep_store appointments sales_reps t_start t_end w out :
  Objects.assign_to_closest_rep client strptime appointments sales_reps t_start t_end w
    = Some out →
  mapM (Objects.convert_in_place strptime) appointments
    = Some (Objects.appointments_after out).
Proof.
  unfold Objects.assign_to_closest_rep. intros Hrun.
  destruct (mapM (Objects.convert_in_place strptime) appointments) as [store|];
    simpl in Hrun; [|done].
  destruct (Objects.filter_window t_start t_end store _) as [filtered|];
    simpl in Hrun; [|done].
  destruct (Objects.initial_pass client sales_reps filtered _) as [s1|] eqn:H1;
    simpl in Hrun; [|done].
  apply initial_pass_store in H1. simpl in H1.
  destruct (Objects.resolve_double_booking _ _ _ _ _) as [[unassigned assignments]|];
    simpl in Hrun; [|done].
  destruct (Objects.reassign_pass client sales_reps unassigned _) as [s3|] eqn:H3;
    simpl in Hrun; [|done].
  apply reassign_pass_store in H3. simpl in H3.
  injection Hrun as <-. simpl. by rewrite H3, H1.
Qed.

Lemma assign_to_closest_rep_converts appointments sales_reps t_start t_end w out :
  Objects.assign_to_closest_rep client strptime appointments sales_reps t_start t_end w
    = Some out →
  Forall2 (converted_in_place strptime) appointments (Objects.appointments_after out).
Proof.
  intros Hrun%assign_to_closest_rep_store. apply mapM_Some in Hrun.
  eapply Forall2_impl; [done|]. intros a b Hab. by apply convert_in_place_spec in Hab as [? _].
Qed.

Lemma run_workflow_converts appointments sales_reps t_start t_end n allow w r :
  Objects.run_workflow client strptime zip_to_city modify_sales_reps appointments
    sales_reps t_start t_end n allow w = Some r →
  Forall2 (converted_in_place strptime) appointments (Objects.store_after r).
Proof.
  unfold Objects.run_workflow, Objects.process_time_window. intros Hrun.
  destruct (Objects.assign_to_closest_rep client strptime appointments sales_reps
              t_start t_end w) as [out|] eqn:Hout; simpl in Hrun; [|done].
  destruct (Objects.update_sales_reps_zip _ _ _) as [sr1|]; simpl in Hrun; [|done].
  destruct (mapM _ (Objects.returned out)) as [rows|]; simpl in Hrun; [|done].
  simplify_eq/=. by eapply assign_to_closest_rep_converts.
Qed.

Lemma converted_in_place_refl a t :
  apptdate a = DateObj t → converted_in_place strptime a a.
Proof. intros Ha. unfold converted_in_place. rewrite Ha. by split_and!. Qed.

Lemma converted_in_place_datetime a b :
  converted_in_place strptime a b → ∃ t, apptdate b = DateObj t.
Proof.
  intros (_ & _ & _ & _ & Hab). destruct (apptdate a) as [str|t]; [|eauto].
  destruct Hab as (t & _ & ?). eauto.
Qed.

Lemma run_windows_converts windows : ∀ appointments sales_reps all_results w rows
    sales_reps' w' store,
  Forall (λ a, ∃ t, apptdate a = DateObj t) appointments →
  Objects.run_windows client strptime zip_to_city modify_sales_reps windows
    appointments sales_reps all_results w = Some (rows, sales_reps', w', store) →
  Forall2 (converted_in_place strptime) appointments store.
Proof.
  induction windows as [|[[[n t_start] t_end] allow] windows IH];
    intros appointments sales_reps all_results w rows sr' w' store Hdates Hrun;
    simpl in Hrun.
  - simplify_eq. apply Forall_Forall2_diag. eapply Forall_impl; [done|].
    intros a [t Ha]. by eapply converted_in_place_refl.
  - destruct (Objects.run_workflow _ _ _ _ _ _ _ _ _ _ _) as [r|] eqn:Hr;
      simpl in Hrun; [|done].
    pose proof (run_workflow_converts _ _ _ _ _ _ _ _ Hr) as Hstep.
    eapply Forall2_converted_trans; [done|]. eapply IH; [|done].
    apply Forall_forall. intros b Hb.
    apply list_elem_of_lookup in Hb as [i Hi].
    destruct (Forall2_lookup_r _ _ _ _ _ Hstep Hi) as (a & _ & Hab).
    by eapply converted_in_place_datetime.
Qed.

Lemma main_workflow_converts appointments sales_reps w rows sales_reps' w' store :
  Objects.main_workflow client strptime datetime_max zip_to_city modify_sales_reps
    appointments sales_reps w = Some (rows, sales_reps', w', store) →
  Forall2 (converted_in_place strptime) appointments store.
Proof.
  unfold Objects.main_workflow. intros Hrun.
  destruct (mapM (Objects.prepare strptime) appointments) as [store0|] eqn:Hprep;
    simpl in Hrun; [|done].
  destruct (mapM _ store0) as [times|]; simpl in Hrun; [|done].
  destruct (min_time times) as [earliest_time|]; simpl in Hrun; [|done].
  destruct (max_time times) as [last_time|]; simpl in Hrun; [|done].
  destruct (Objects.time_windows datetime_max earliest_time last_time) as [windows|];
    simpl in Hrun; [|done].
  assert (Forall2 (converted_in_place strptime) appointments store0) as Hconv.
  { apply mapM_Some in Hprep. eapply Forall2_impl; [done|].
    intros a b Hab. by apply prepare_spec in Hab as [? _]. }
  eapply Forall2_converted_trans; [done|]. eapply run_windows_converts; [|done].
  apply Forall_forall. intros b Hb. apply list_elem_of_lookup in Hb as [i Hi].
  destruct (Forall2_lookup_r _ _ _ _ _ Hconv Hi) as (a & _ & Hab).
  by eapply converted_in_place_datetime.
Qed.

(** C8, as amended.  A run of the engine changes, in the caller's
    appointment dictionaries, the ["apptdate"] entry only, and that in its
    conversion loops: a string is replaced by the [datetime] parsed from
    it, a [datetime] stays; the other entries are as before.  This holds of
    a call of [assign_to_closest_rep], whose three steps read the
    dictionaries and hand them on, and of a whole run of [main_workflow]. *)
Theorem C8_only_apptdate_is_converted appointments sales_reps w :
  (∀ t_start t_end out,
     Objects.assign_to_closest_rep client strptime appointments sales_reps
       t_start t_end w = Some out →
     Forall2 (converted_in_place strptime) appointments (Objects.appointments_after out))
  ∧ (∀ rows sales_reps' w' store,
       Objects.main_workflow client strptime datetime_max zip_to_city modify_sales_reps
         appointments sales_reps w = Some (rows, sales_reps', w', store) →
       Forall2 (converted_in_place strptime) appointments store).
Proof.
  split.
  - intros t_start t_end out Hrun. by eapply assign_to_closest_rep_converts.
  - intros rows sales_reps' w' store Hrun. by eapply main_workflow_converts.
Qed.

(** ** The answers of the client

    Of the three ways in which the call of the client fails, the function
    handles one: a status other than ["OK"]. *)

Lemma get_drive_time_not_ok zip1 zip2 e duration_value :
  drive_time_cache e !! cache_key zip1 zip2 = None →
  client (length (api_calls (outside e))) zip1 zip2 = Objects.Answer false duration_value →
  Objects.get_drive_time client zip1 zip2 e
  = Some (None,
          {| drive_time_cache := drive_time_cache e;
             outside := {| api_calls := api_calls (outside e) ++ [(zip1, zip2)];
                           printed := printed (outside e) ++ [ApiCallFailed zip1 zip2] |} |}).
Proof. intros Hmiss Hanswer. unfold Objects.get_drive_time. by rewrite Hmiss, Hanswer. Qed.

Lemma get_drive_time_raises zip1 zip2 e :
  drive_time_cache e !! cache_key zip1 zip2 = None →
  client (length (api_calls (outside e))) zip1 zip2 = Objects.ClientError
  ∨ client (length (api_calls (outside e))) zip1 zip2 = Objects.Answer true None →
  Objects.get_drive_time client zip1 zip2 e = None.
Proof.
  intros Hmiss Hanswer. unfold Objects.get_drive_time. rewrite Hmiss.
  by destruct Hanswer as [-> | ->].
Qed.

(** The exception passes through the loop over the representatives: the
    turn of a representative in scope and idle for whom it is raised leaves
    the loop. *)
Lemma closest_rep_step_raises appt_zip product_id idle acc rep details :
  product_id ∈ scope details → idle rep = true →
  Objects.get_drive_time client appt_zip (curr_zip details) acc.2 = None →
  Objects.closest_rep_step client appt_zip product_id idle acc (rep, details) = None.
Proof.
  intros Hscope Hidle Hraise. destruct acc as [[closest_rep min_drive_time] e].
  unfold Objects.closest_rep_step. rewrite bool_decide_eq_true_2, Hidle by done.
  simpl in *. by rewrite Hraise.
Qed.

(** ** When a run returns *)

Lemma convert_in_place_is_Some a :
  is_Some (Objects.convert_in_place strptime a) ↔ parses strptime a.
Proof.
  unfold Objects.convert_in_place, parses. destruct (apptdate a) as [str|t].
  - destruct (strptime str); simpl; split; intros [? ?]; by eauto.
  - split; [done|eauto].
Qed.

Lemma prepare_is_Some a :
  is_Some (Objects.prepare strptime a) ↔ parses strptime a.
Proof.
  unfold Objects.prepare, parses. destruct (apptdate a) as [str|t].
  - destruct (strptime str); simpl; split; intros [? ?]; by eauto.
  - split; [done|eauto].
Qed.

Lemma prepare_converted appointments store :
  mapM (Objects.prepare strptime) appointments = Some store →
  ∃ converted,
    mapM (convert_apptdate strptime) appointments = Some converted
    ∧ store = as_stored <$> converted
    ∧ mapM (λ a, Objects.as_datetime (apptdate a)) store = Some (apptdate <$> converted).
Proof.
  intros Hprep%mapM_Some.
  induction Hprep as [|a b l store Hab _ (converted & Hconv & -> & Htimes)].
  - by exists [].
  - apply mapM_Some in Hconv, Htimes.
    assert (∃ c, convert_apptdate strptime a = Some c ∧ b = as_stored c) as (c & Hc & ->).
    { unfold Objects.prepare in Hab. unfold convert_apptdate.
      destruct a as [cust d zip prod dsp]. simpl in *. destruct d as [str|t].
      - destruct (strptime str) as [t|]; simplify_eq/=. eauto.
      - simplify_eq. eauto. }
    exists (c :: converted). split_and!.
    + apply mapM_Some. by constructor.
    + done.
    + apply mapM_Some. rewrite !fmap_cons. by constructor.
Qed.

(** X6. A call of [assign_to_closest_rep] returns only when the time stamp
    of every appointment handed to it parses, those outside the window
    included: one stamp that does not parse fails every window.  And
    [main_workflow] reaches the export only when, besides, there is an
    appointment at all and the earliest of them lies five hours and a minute
    or more before [datetime.max]. *)
Theorem X6_returns_only_when_all_stamps_parse appointments sales_reps t_start t_end w :
  (is_Some (Objects.assign_to_closest_rep client strptime appointments sales_reps
              t_start t_end w)
   → Forall (parses strptime) appointments)
  ∧ (is_Some (Objects.main_workflow client strptime datetime_max zip_to_city
                modify_sales_reps appointments sales_reps w)
     → appointments ≠ [] ∧ Forall (parses strptime) appointments
       ∧ ∃ converted earliest_time,
           mapM (convert_apptdate strptime) appointments = Some converted
           ∧ min_time (apptdate <$> converted) = Some earliest_time
           ∧ (earliest_time + timedelta 5 1 ≤ datetime_max)%Z).
Proof.
  split.
  - intros [out Hrun]. apply assign_to_closest_rep_store in Hrun.
    apply Forall_forall. intros a Ha. apply convert_in_place_is_Some.
    assert (is_Some (mapM (Objects.convert_in_place strptime) appointments)) as Hall
      by eauto.
    apply mapM_is_Some in Hall. rewrite Forall_forall in Hall. by apply Hall.
  - unfold Objects.main_workflow. intros [res Hrun].
    destruct (mapM (Objects.prepare strptime) appointments) as [store|] eqn:Hprep;
      simpl in Hrun; [|done].
    destruct (prepare_converted _ _ Hprep) as (converted & Hconv & -> & Htimes).
    rewrite Htimes in Hrun. simpl in Hrun.
    destruct (min_time (apptdate <$> converted)) as [earliest_time|] eqn:Hmin;
      simpl in Hrun; [|done].
    destruct (max_time (apptdate <$> converted)) as [last_time|]; simpl in Hrun; [|done].
    destruct (Objects.time_windows datetime_max earliest_time last_time) as [windows|]
      eqn:Hwin; simpl in Hrun; [|done].
    split_and!.
    + intros ->. apply mapM_Some, Forall2_nil_inv_l in Hconv as ->. done.
    + apply Forall_forall. intros a Ha. apply prepare_is_Some.
      assert (is_Some (mapM (Objects.prepare strptime) appointments)) as Hall by eauto.
      apply mapM_is_Some in Hall. rewrite Forall_forall in Hall. by apply Hall.
    + exists converted, earliest_time. split_and!; try done.
      unfold Objects.time_windows, Objects.add in Hwin.
      destruct (decide (earliest_time + timedelta 5 1 ≤ datetime_max)%Z); [done|].
      repeat (destruct (decide _); simpl in Hwin; try done).
Qed.
End objects_facts.

(** ** The scenarios, run on the caller's objects *)

(** On a client that answers every call the two engines hand the same rows,
    roster and world to the export. *)
Example both_engines_export_the_same :
  (λ '(rows, sales_reps', w', _), (rows, sales_reps', w'))
    <$> Objects.main_workflow client_grid strptime_padded datetime_max_padded city_of
          keep_roster with_a_straggler one_rep quiet_world
  = main_workflow oracle_grid strptime_padded city_of keep_roster with_a_straggler
      one_rep quiet_world.
Proof. vm_compute. reflexivity. Qed.

(** An appointment two hours before [datetime.max]: its time stamp parses,
    and the end of the second window overflows. *)
Example last_evening_overflows :
  strptime_padded "12/31/9999 22:00:00" = Some (datetime_max_padded - 7199)%Z
  ∧ Objects.main_workflow client_grid strptime_padded datetime_max_padded city_of
      keep_roster [Appointment 1%Z (DateStr "12/31/9999 22:00:00") "98026" "Bath" "web"]
      one_rep quiet_world
    = None.
Proof. split; vm_compute; reflexivity. Qed.

(** C7. A failure of the distance-matrix call is local to one pair of
    places only when it shows as a status other than ["OK"]: with
    [client_down] the run of [with_an_unplaced_zip] reaches the export,
    having printed a line for each pair and for each appointment left
    without representative.  The two other ways in which the call at line
    124 fails abort the run.  An answer with the status ["OK"] whose element
    has no ["duration"] ([client_no_place], for the zip code 00000) and a
    client that raises ([client_times_out_once]) both leave [get_drive_time]
    by an exception: no marker is returned to the loop over the
    representatives and no line is printed, [assign_to_closest_rep] is left
    as well, and [main_workflow] exports nothing. *)
Theorem C7_unhandled_answer_aborts_the_run :
  Objects.get_drive_time client_no_place "00000" "98026"
    {| drive_time_cache := ∅; outside := quiet_world |} = None
  ∧ Objects.get_drive_time client_times_out_once "98026" "98026"
      {| drive_time_cache := ∅; outside := quiet_world |} = None
  ∧ Objects.assign_to_closest_rep client_no_place strptime_padded with_an_unplaced_zip
      one_rep nine_o_clock eleven_o_clock quiet_world = None
  ∧ Objects.assign_to_closest_rep client_times_out_once strptime_padded
      with_an_unplaced_zip one_rep nine_o_clock eleven_o_clock quiet_world = None
  ∧ Objects.main_workflow client_no_place strptime_padded datetime_max_padded city_of
      keep_roster with_an_unplaced_zip one_rep quiet_world = None
  ∧ Objects.main_workflow client_times_out_once strptime_padded datetime_max_padded
      city_of keep_roster with_an_unplaced_zip one_rep quiet_world = None
  ∧ (λ '(_, _, w', _), printed w')
      <$> Objects.main_workflow client_down strptime_padded datetime_max_padded city_of
            keep_roster with_an_unplaced_zip one_rep quiet_world
    = Some [ ApiCallFailed "98026" "98026"; NoEligibleRep 1 "98026";
             ApiCallFailed "00000" "98026"; NoEligibleRep 2 "00000" ].
Proof. repeat split; vm_compute; reflexivity. Qed.

Lemma C8_witness :
  (∃ out,
     Objects.assign_to_closest_rep client_grid strptime_padded same_place_appointments
       two_reps nine_o_clock eleven_o_clock quiet_world = Some out
     ∧ Forall2 (converted_in_place strptime_padded) same_place_appointments
         (Objects.appointments_after out))
  ∧ (∃ rows sales_reps' w' store,
       Objects.main_workflow client_grid strptime_padded datetime_max_padded city_of
         keep_roster with_a_straggler one_rep quiet_world
       = Some (rows, sales_reps', w', store)
       ∧ Forall2 (converted_in_place strptime_padded) with_a_straggler store).
Proof.
  split.
  - destruct (Objects.assign_to_closest_rep client_grid strptime_padded
                same_place_appointments two_reps nine_o_clock eleven_o_clock quiet_world)
      as [out|] eqn:Hrun; [|vm_compute in Hrun; discriminate].
    exists out. split; [done|].
    exact (proj1 (C8_only_apptdate_is_converted client_grid strptime_padded
                    datetime_max_padded city_of keep_roster same_place_appointments
                    two_reps quiet_world) _ _ _ Hrun).
  - destruct (Objects.main_workflow client_grid strptime_padded datetime_max_padded
                city_of keep_roster with_a_straggler one_rep quiet_world)
      as [[[[rows sales_reps'] w'] store]|] eqn:Hrun; [|vm_compute in Hrun; discriminate].
    exists rows, sales_reps', w', store. split; [done|].
    exact (proj2 (C8_only_apptdate_is_converted client_grid strptime_padded
                    datetime_max_padded city_of keep_roster with_a_straggler
                    one_rep quiet_world) _ _ _ _ Hrun).
Defined.

Lemma X6_witness :
  is_Some (Objects.main_workflow client_grid strptime_padded datetime_max_padded city_of
             keep_roster with_a_straggler one_rep quiet_world)
  ∧ with_a_straggler ≠ []
  ∧ Forall (parses strptime_padded) with_a_straggler
  ∧ ∃ converted earliest_time,
      mapM (convert_apptdate strptime_padded) with_a_straggler = Some converted
      ∧ min_time (apptdate <$> converted) = Some earliest_time
      ∧ (earliest_time + timedelta 5 1 ≤ datetime_max_padded)%Z.
Proof.
  assert (is_Some (Objects.main_workflow client_grid strptime_padded datetime_max_padded
                     city_of keep_roster with_a_straggler one_rep quiet_world)) as Hrun
    by (vm_compute; eauto).
  split; [exact Hrun|].
  exact (proj2 (X6_returns_only_when_all_stamps_parse client_grid strptime_padded
                  datetime_max_padded city_of keep_roster with_a_straggler one_rep
                  nine_o_clock eleven_o_clock quiet_world) Hrun).
Defined.
